(** * Tabulate: cell discovery, row organisation and data population

    A shallow embedding of [src/code.ts] (the Figma plugin "Tabulate") and the
    properties of its selector, row organiser, value-slot resolver, populator
    and the two dummy-data generators.

    Conventions of the embedding:
    - a scene node is an immutable tree value; the one mutable property the
      plugin writes, [characters] of a text node, lives in a store keyed by
      node id, so that two references to one node alias one slot;
    - JavaScript numbers that the code uses as counts, indices and
      coordinates are integers of [Z] (or [nat] where the code indexes);
      [Math.random()] is a rational of the unit interval drawn from an
      explicit source;
    - JavaScript strings are [string]; [toLowerCase] and [trim] act on the
      ASCII range and leave any other character as it is, which is exact
      for the tests of a name against "value" and "cell" and for ASCII
      headers;
    - a record is the list of its own properties in the order [Object.keys]
      lists them, built by [setProperty]; [obj[key]] falls back on
      [Object.prototype]; a field value is [undefined], [null], a boolean,
      an integer, a string, or any other value known by the text [String]
      gives it. *)

From Stdlib Require Import ZArith QArith Qround String Ascii List Lia Permutation Sorted.
From stdpp Require Import gmap strings.
Import ListNotations.

Local Open Scope string_scope.
Local Open Scope list_scope.
Local Open Scope Z_scope.

(** ** JavaScript string primitives *)

Module JS.

Definition lower_ascii (c : ascii) : ascii :=
  let n := nat_of_ascii c in
  if ((65 <=? n) && (n <=? 90))%nat then ascii_of_nat (n + 32) else c.

(** [s.toLowerCase()] *)
Fixpoint toLowerCase (s : string) : string :=
  match s with
  | EmptyString => EmptyString
  | String c s' => String (lower_ascii c) (toLowerCase s')
  end.

Definition is_space (c : ascii) : bool :=
  let n := nat_of_ascii c in
  ((n =? 32) || ((9 <=? n) && (n <=? 13)))%nat.

Fixpoint trimStart (s : string) : string :=
  match s with
  | EmptyString => EmptyString
  | String c s' => if is_space c then trimStart s' else s
  end.

Fixpoint trimEnd (s : string) : string :=
  match s with
  | EmptyString => EmptyString
  | String c s' =>
      match trimEnd s' with
      | EmptyString => if is_space c then EmptyString else String c EmptyString
      | t => String c t
      end
  end.

(** [s.trim()] *)
Definition trim (s : string) : string := trimEnd (trimStart s).

(** [s.startsWith(p)] *)
Definition startsWith (s p : string) : bool := String.prefix p s.

(** [s.includes(sub)] *)
Fixpoint includes (s sub : string) : bool :=
  startsWith s sub ||
  match s with
  | EmptyString => false
  | String _ s' => includes s' sub
  end.

(** [s.substring(n)] for [0 <= n] *)
Fixpoint substring (n : nat) (s : string) : string :=
  match n, s with
  | O, _ => s
  | S n', String _ s' => substring n' s'
  | S _, EmptyString => EmptyString
  end.

(** [s.slice(-n)]: the last [n] characters *)
Definition sliceLast (n : nat) (s : string) : string :=
  substring (String.length s - n) s.

(** [s[0]] inside a template literal; a missing character prints as
    ["undefined"] *)
Definition charAt0 (s : string) : string :=
  match s with
  | EmptyString => "undefined"
  | String c _ => String c EmptyString
  end.

(** [s.replace(/[^a-z0-9]/g, '')] *)
Fixpoint keepAlnumLower (s : string) : string :=
  match s with
  | EmptyString => EmptyString
  | String c s' =>
      let n := nat_of_ascii c in
      if (((97 <=? n) && (n <=? 122)) || ((48 <=? n) && (n <=? 57)))%nat
      then String c (keepAlnumLower s') else keepAlnumLower s'
  end.

Definition digit (d : nat) : ascii := ascii_of_nat (48 + d).

Fixpoint digits (fuel : nat) (n : N) (acc : string) : string :=
  match fuel with
  | O => acc
  | S fuel' =>
      let acc' := String (digit (N.to_nat (n mod 10))) acc in
      if (n / 10 =? 0)%N then acc' else digits fuel' (n / 10)%N acc'
  end.

(** Decimal numeral of a natural number; [N.size_nat n] binary digits
    bound the number of decimal ones. *)
Definition decimalN (n : N) : string := digits (S (N.size_nat n)) n EmptyString.

(** [String(n)] for an integer [n] *)
Definition decimal (z : Z) : string :=
  if z <? 0 then "-" +:+ decimalN (Z.abs_N z) else decimalN (Z.abs_N z).

End JS.

(** ** Scene graph *)

(** [node.type]: the scene node kinds of the host document. *)
Inductive NodeType : Type :=
  | BOOLEAN_OPERATION | COMPONENT | COMPONENT_SET | ELLIPSE | FRAME | GROUP
  | INSTANCE | LINE | POLYGON | RECTANGLE | SECTION | SLICE | STAR | TEXT
  | VECTOR.

Definition NodeType_eqb (a b : NodeType) : bool :=
  match a, b with
  | BOOLEAN_OPERATION, BOOLEAN_OPERATION | COMPONENT, COMPONENT
  | COMPONENT_SET, COMPONENT_SET | ELLIPSE, ELLIPSE | FRAME, FRAME
  | GROUP, GROUP | INSTANCE, INSTANCE | LINE, LINE | POLYGON, POLYGON
  | RECTANGLE, RECTANGLE | SECTION, SECTION | SLICE, SLICE | STAR, STAR
  | TEXT, TEXT | VECTOR, VECTOR => true
  | _, _ => false
  end.

(** A scene node as the plugin reads it.  [node_parent] is
    [node.parent ? Some node.parent.id : None]; [node_children] is [None]
    when ['children' in node] is false. *)
#[local] Unset Elimination Schemes.
Inductive Node : Type :=
  mkNode {
    node_id : string;
    node_type : NodeType;
    node_name : string;
    node_x : Z;
    node_y : Z;
    node_parent : option string;
    node_children : option (list Node)
  }.
#[local] Set Elimination Schemes.

(** The mutable [characters] of text nodes, keyed by node id. *)
Abbreviation Store := (gmap string string).

(** *** findValueLayer *)

Definition isValueLayer (node : Node) : bool :=
  String.eqb (JS.toLowerCase (node_name node)) "value"
  && NodeType_eqb (node_type node) TEXT.

Fixpoint findValueLayer (node : Node) : option Node :=
  if isValueLayer node then Some node
  else
    match node with
    | mkNode _ _ _ _ _ _ (Some cs) =>
        (fix loop (l : list Node) : option Node :=
           match l with
           | [] => None
           | child :: l' =>
               match findValueLayer child with
               | Some value => Some value
               | None => loop l'
               end
           end) cs
    | mkNode _ _ _ _ _ _ None => None
    end.

(** *** getAllCells *)

(** [child.type === 'INSTANCE' && child.name.toLowerCase() === 'cell'] *)
Definition isCellInstance (child : Node) : bool :=
  NodeType_eqb (node_type child) INSTANCE
  && String.eqb (JS.toLowerCase (node_name child)) "cell".

(** What the inner [parent.children.forEach] pushes for one child. *)
Definition cellsOfChild (child : Node) : list Node :=
  if NodeType_eqb (node_type child) INSTANCE then
    if String.eqb (JS.toLowerCase (node_name child)) "cell" then [child]
    else
      match node_children child with
      | Some grandchildren => List.filter isCellInstance grandchildren
      | None => []
      end
  else
    match node_children child with
    | Some grandchildren => List.filter isCellInstance grandchildren
    | None => []
    end.

(** What the outer [selection.forEach] pushes for one selected node. *)
Definition cellsOfRoot (node : Node) : list Node :=
  if NodeType_eqb (node_type node) INSTANCE then
    if String.eqb (JS.toLowerCase (node_name node)) "cell" then [node]
    else
      match node_children node with
      | Some cs => List.filter isCellInstance cs
      | None => []
      end
  else
    match node_children node with
    | Some cs => List.flat_map cellsOfChild cs
    | None => []
    end.

Definition getAllCells (selection : list Node) : list Node :=
  List.flat_map cellsOfRoot selection.

(** *** organizeCellsIntoRows *)

(** [array.sort(cmp)]: the specified sort is stable, and for a comparator
    that is a total preorder on the elements its result is the one of
    insertion sort. *)
Section Sort.
Context {A : Type} (cmp : A -> A -> Z).

Fixpoint sort_insert (a : A) (l : list A) : list A :=
  match l with
  | [] => [a]
  | b :: l' => if cmp a b <=? 0 then a :: b :: l' else b :: sort_insert a l'
  end.

Fixpoint sort (l : list A) : list A :=
  match l with
  | [] => []
  | a :: l' => sort_insert a (sort l')
  end.
End Sort.

(** [rowMap]: a JavaScript [Map] keeps its keys in insertion order, which
    [Array.from(rowMap.values())] exposes; hence an association list. *)
Fixpoint rowMap_push (parentId : string) (cell : Node)
    (rowMap : list (string * list Node)) : list (string * list Node) :=
  match rowMap with
  | [] => [(parentId, [cell])]
  | (k, rowCells) :: rest =>
      if String.eqb k parentId then (k, rowCells ++ [cell]) :: rest
      else (k, rowCells) :: rowMap_push parentId cell rest
  end.

Definition groupByParent (cells : list Node) : list (string * list Node) :=
  fold_left
    (fun rowMap cell =>
       match node_parent cell with
       | Some parentId => rowMap_push parentId cell rowMap
       | None => rowMap
       end)
    cells [].

(** [(a, b) => a.x - b.x] *)
Definition compareX (a b : Node) : Z := node_x a - node_x b.

(** The comparator of [rows.sort]. *)
Definition compareRows (rowA rowB : list Node) : Z :=
  match rowA, rowB with
  | a :: _, b :: _ => node_y a - node_y b
  | _, _ => 0
  end.

Definition organizeCellsIntoRows (cells : list Node) : list (list Node) :=
  let rowMap := groupByParent cells in
  let rows := List.map (fun kv => sort compareX (snd kv)) rowMap in
  sort compareRows rows.

(** ** Datasets *)

(** A value a record field holds, as far as the plugin tells values apart:
    it compares a value with [null] and [undefined] and otherwise applies
    [String] to it.  [VNum n] is the number [n], an integer; [VOther text]
    is any other value (a fraction, [NaN], a number too large to print in
    full, an array, an object, a function), given by the text [String]
    returns for it. *)
Inductive Value : Type :=
  | VUndefined
  | VNull
  | VBool (b : bool)
  | VNum (n : Z)
  | VStr (s : string)
  | VOther (text : string).

(** A record: the own enumerable string-keyed properties of a plain
    object, in the order the engine lists them ([Object.keys]).  Objects
    are built with [setProperty] below, which keeps that order. *)
Definition JsObject : Type := list (string * Value).

(** What [msg.data] may be: [Array.isArray] holds of [DArray] only. *)
Inductive Data : Type :=
  | DScalar (v : Value)
  | DObject (o : JsObject)
  | DArray (objs : list JsObject).

Definition Object_keys (obj : JsObject) : list string := List.map fst obj.

(** *** How a record is built *)

Fixpoint parseDigits (s : string) (acc : N) : option N :=
  match s with
  | EmptyString => Some acc
  | String c s' =>
      let d := nat_of_ascii c in
      if ((48 <=? d) && (d <=? 57))%nat
      then parseDigits s' (acc * 10 + N.of_nat (d - 48))%N
      else None
  end.

(** The array index a property name denotes, if any: the canonical
    decimal numeral of an integer below [2^32 - 1]. *)
Definition arrayIndex (key : string) : option N :=
  match key with
  | EmptyString => None
  | _ =>
      match parseDigits key 0 with
      | Some n =>
          if (n <? 4294967295)%N && String.eqb (JS.decimalN n) key then Some n else None
      | None => None
      end
  end.

Definition isArrayIndex (key : string) : bool :=
  match arrayIndex key with Some _ => true | None => false end.

Definition indexOfKey (key : string) : N :=
  match arrayIndex key with Some n => n | None => 0%N end.

(** [key in obj] for own properties *)
Definition hasOwn (obj : JsObject) (key : string) : bool :=
  existsb (fun kv => String.eqb (fst kv) key) obj.

(** Assignment to a property the object has: the value changes, the place
    of the property does not. *)
Fixpoint overwrite (obj : JsObject) (key : string) (v : Value) : JsObject :=
  match obj with
  | [] => []
  | (k, w) :: obj' =>
      if String.eqb k key then (k, v) :: obj' else (k, w) :: overwrite obj' key v
  end.

(** A new array-index property goes before the first property that is
    not an array index or is a larger one. *)
Fixpoint insertIndex (n : N) (key : string) (v : Value) (obj : JsObject) : JsObject :=
  match obj with
  | [] => [(key, v)]
  | (k, w) :: obj' =>
      match arrayIndex k with
      | Some m => if (m <? n)%N then (k, w) :: insertIndex n key v obj' else (key, v) :: obj
      | None => (key, v) :: obj
      end
  end.

(** Creating or assigning the own property [key]: array indices are kept
    first, in ascending numeric order, the other names after them in the
    order of their creation. *)
Definition setProperty (obj : JsObject) (key : string) (v : Value) : JsObject :=
  if hasOwn obj key then overwrite obj key v
  else
    match arrayIndex key with
    | Some n => insertIndex n key v obj
    | None => obj ++ [(key, v)]
    end.

(** The record that [JSON.parse] (or an object literal of plain members)
    builds from the members in the order the text has them. *)
Definition objectOf (members : list (string * Value)) : JsObject :=
  fold_left (fun obj kv => setProperty obj (fst kv) (snd kv)) members [].

(** *** Reading a field *)

(** The functions every plain object inherits from [Object.prototype]. *)
Definition prototypeFunctions : list string :=
  ["constructor"; "hasOwnProperty"; "isPrototypeOf"; "propertyIsEnumerable";
   "toLocaleString"; "toString"; "valueOf";
   "__defineGetter__"; "__defineSetter__"; "__lookupGetter__"; "__lookupSetter__"].

(** [String(f)] for a built-in function named [name] (the spacing is the
    engine's; this is how V8 prints it). *)
Definition nativeFunctionText (name : string) : string :=
  "function " +:+ name +:+ "() { [native code] }".

(** [Object.prototype[key]]: [constructor] is the function [Object],
    [__proto__] reads the prototype itself, an object. *)
Definition inherited (key : string) : Value :=
  if String.eqb key "constructor" then VOther (nativeFunctionText "Object")
  else if String.eqb key "__proto__" then VOther "[object Object]"
  else if existsb (String.eqb key) prototypeFunctions then VOther (nativeFunctionText key)
  else VUndefined.

(** The name of a member of [Object.prototype]. *)
Definition isInherited (key : string) : bool :=
  String.eqb key "__proto__" || existsb (String.eqb key) prototypeFunctions.

(** [obj[key]] on a plain data object: the own property, else the member
    of [Object.prototype] of that name, else [undefined]. *)
Fixpoint get (obj : JsObject) (key : string) : Value :=
  match obj with
  | [] => inherited key
  | (k, v) :: obj' => if String.eqb k key then v else get obj' key
  end.

Definition convertObjectsTo2DArray (data : Data) : list (list Value) :=
  match data with
  | DArray (first :: rest) =>
      let keys := Object_keys first in
      List.map VStr keys
      :: List.map (fun obj => List.map (fun key => get obj key) keys) (first :: rest)
  | _ => []
  end.

(** [String(v)]; a number is printed in decimal, which is what [String]
    does for the integers up to [Number.MAX_SAFE_INTEGER] in size (see
    [safeValue]). *)
Definition String_ (v : Value) : string :=
  match v with
  | VUndefined => "undefined"
  | VNull => "null"
  | VBool true => "true"
  | VBool false => "false"
  | VNum n => JS.decimal n
  | VStr s => s
  | VOther text => text
  end.

(** [Number.isSafeInteger(n)] for the numbers of a dataset: these are
    doubles, and [String] prints them digit by digit.  Any other number is
    a [VOther] with its text. *)
Definition safeValue (v : Value) : Prop :=
  match v with
  | VNum n => - 9007199254740991 <= n <= 9007199254740991
  | _ => True
  end.

(** [String(v !== null && v !== undefined ? v : '')] *)
Definition cellText (v : Value) : string :=
  match v with
  | VNull | VUndefined => EmptyString
  | _ => String_ v
  end.

(** ** The population loop *)

(** The three handlers run the same two nested loops and differ in how a
    value becomes text. The state is the store and [updatedCount]. *)
Section Populate.
Variable toText : Value -> string.

(** The body of the inner loop for one cell and one value. *)
Definition writeCell (cell : Node) (v : Value) (st : Store * nat) : Store * nat :=
  match findValueLayer cell with
  | Some valueLayer => (<[node_id valueLayer := toText v]> (fst st), S (snd st))
  | None => st
  end.

(** [for (colIndex = 0; colIndex < rowCells.length && colIndex < rowData.length; colIndex++)] *)
Fixpoint populateRow (rowCells : list Node) (rowData : list Value)
    (st : Store * nat) : Store * nat :=
  match rowCells, rowData with
  | cell :: rowCells', v :: rowData' => populateRow rowCells' rowData' (writeCell cell v st)
  | _, _ => st
  end.

(** [for (rowIndex = 0; rowIndex < rows.length && rowIndex < dataRows.length; rowIndex++)] *)
Fixpoint populateRows (rows : list (list Node)) (dataRows : list (list Value))
    (st : Store * nat) : Store * nat :=
  match rows, dataRows with
  | rowCells :: rows', rowData :: dataRows' =>
      populateRows rows' dataRows' (populateRow rowCells rowData st)
  | _, _ => st
  end.
End Populate.

(** What a handler tells the user through [figma.notify]. *)
Inductive Notification : Type :=
  | PleaseSelect
  | NoCellsFound
  | Updated (updatedCount : nat) (suffix : string).

(** [populate(rows, dataset)] of the specification: the part of
    [populateTable] after the rows are organised. *)
Definition populate (rows : list (list Node)) (data : Data) (store : Store) : Store * nat :=
  let dataRows := convertObjectsTo2DArray data in
  populateRows cellText rows dataRows (store, O).

(** [populateTable(data)] on the current selection, as the store it
    leaves and the message it shows. Font loading changes no text; the
    calls of the handler, font requests included, are [populateTableCalls]
    below. *)
Definition populateTable (data : Data) (selection : list Node) (store : Store)
    : Store * Notification :=
  match selection with
  | [] => (store, PleaseSelect)
  | _ =>
      let allCells := getAllCells selection in
      match allCells with
      | [] => (store, NoCellsFound)
      | _ =>
          let rows := organizeCellsIntoRows allCells in
          let '(store', updatedCount) := populate rows data store in
          (store', Updated updatedCount "cells with data")
      end
  end.

(** ** Randomness *)

(** A computation that calls [Math.random()]: the source gives the value
    of the k-th call, the state counts the calls made so far. *)
Definition Rand (A : Type) : Type := (nat -> Q) -> nat -> A * nat.

#[export] Instance Rand_ret : MRet Rand := fun A a _ k => (a, k).
#[export] Instance Rand_bind : MBind Rand :=
  fun A B f m source k => let '(a, k') := m source k in f a source k'.

Definition Math_random : Rand Q := fun source k => (source k, S k).

(** The result of a computation run from the first call on. *)
Definition runRand {A : Type} (m : Rand A) (source : nat -> Q) : A := fst (m source O).

(** [Math.floor(Math.random() * n)] *)
Definition randomBelow (n : Z) : Rand Z :=
  r ← Math_random; mret (Qfloor (r * inject_Z n)).

(** [Math.random() < p] *)
Definition randomLess (p : Q) : Rand bool :=
  r ← Math_random; mret (negb (Qle_bool p r)).

(** [[a[i], a[j]] = [a[j], a[i]]] for indices inside the array. *)
Definition swap {A : Type} (i j : nat) (a : list A) : list A :=
  match a !! i, a !! j with
  | Some ai, Some aj => <[j := ai]> (<[i := aj]> a)
  | _, _ => a
  end.

(** [for (let i = shuffled.length - 1; i > 0; i--)] *)
Fixpoint shuffleLoop {A : Type} (i : nat) (shuffled : list A) : Rand (list A) :=
  match i with
  | O => mret shuffled
  | S i' =>
      j ← randomBelow (Z.of_nat i + 1);
      shuffleLoop i' (swap i (Z.to_nat j) shuffled)
  end.

Definition shuffleArray {A : Type} (array : list A) : Rand (list A) :=
  shuffleLoop (length array - 1) array.

(** [array[i % array.length]] on an array of strings *)
Definition cyc (array : list string) (i : nat) : string :=
  nth (i mod length array) array EmptyString.

(** [array.slice(0, end)] *)
Definition slice0 {A : Type} (end_ : Z) (array : list A) : list A :=
  let len := Z.of_nat (length array) in
  let final := if end_ <? 0 then Z.max (len + end_) 0 else Z.min end_ len in
  firstn (Z.to_nat final) array.

(** ** Fixed-schema dummy data ([populateTableWithDummyData]) *)

Module Fixed.

Definition departments : list string :=
  ["Design"; "Engineering"; "Marketing"; "Product"; "Sales";
   "Finance"; "Legal"; "Human Resources"; "Customer Support"; "Operations";
   "Research"; "Development"; "Quality Assurance"; "Business Development"; "IT"].

Definition locations : list string :=
  ["London"; "New York"; "Singapore"; "Berlin"; "Madrid";
   "Paris"; "Tokyo"; "Sydney"; "Toronto"; "Dubai";
   "Amsterdam"; "Stockholm"; "Hong Kong"; "Mumbai"; "São Paulo";
   "Seoul"; "Mexico City"; "Cape Town"; "Milan"; "Zurich"].

Definition accessLevels : list string := ["Admin"; "Editor"; "Viewer"; "Owner"; "Guest"].
Definition statuses : list string := ["Active"; "Inactive"; "Pending"; "Suspended"; "Archived"].

Definition firstNames : list string :=
  ["Mark"; "Sarah"; "James"; "Priya"; "Michael";
   "Emma"; "David"; "Olivia"; "Thomas"; "Aisha";
   "Robert"; "Sofia"; "Daniel"; "Mei"; "Carlos";
   "Fatima"; "John"; "Zara"; "Alexander"; "Leila";
   "William"; "Sophia"; "Luis"; "Elena"; "Mohammed";
   "Chloe"; "Hiroshi"; "Isabella"; "Raj"; "Ingrid"].

Definition lastNames : list string :=
  ["Darnalds"; "Johnson"; "Chen"; "Patel"; "Rodriguez";
   "Wilson"; "Kim"; "Martinez"; "Schmidt"; "Ahmed";
   "Brown"; "Garcia"; "Nguyen"; "Singh"; "Müller";
   "Taylor"; "Sato"; "Lopez"; "Ivanov"; "Silva";
   "Anderson"; "Kowalski"; "Rossi"; "Jensen"; "Ali";
   "Wang"; "Dubois"; "Hernandez"; "O'Connor"; "Yamamoto"].

Definition teams : list string :=
  ["Alpha"; "Beta"; "Gamma"; "Delta"; "Epsilon";
   "Omega"; "Phoenix"; "Titan"; "Nexus"; "Quantum";
   "Horizon"; "Apex"; "Zenith"; "Pulse"; "Fusion"].

Definition projects : list string :=
  ["Dashboard Redesign"; "Mobile App"; "API Integration"; "Data Migration"; "Cloud Infrastructure";
   "Security Audit"; "UI Component Library"; "Analytics Platform"; "Customer Portal"; "Automation Framework";
   "Blockchain Solution"; "Machine Learning Model"; "IoT Platform"; "AR Experience"; "Payment Gateway"].

Definition skills : list string :=
  ["JavaScript"; "Python"; "Design Systems"; "Product Strategy"; "Data Analysis";
   "Project Management"; "UX Research"; "Cloud Architecture"; "DevOps"; "Machine Learning";
   "Blockchain"; "Mobile Development"; "Cybersecurity"; "AI"; "Leadership"].

Definition languages : list string :=
  ["English"; "Spanish"; "Mandarin"; "French"; "German";
   "Japanese"; "Russian"; "Arabic"; "Portuguese"; "Hindi";
   "Korean"; "Italian"; "Dutch"; "Swedish"; "Turkish"].

Definition startDates : list string :=
  ["Jan 2022"; "Mar 2021"; "Sep 2020"; "Feb 2023"; "Nov 2019";
   "Apr 2022"; "Jul 2021"; "Dec 2020"; "May 2023"; "Aug 2018";
   "Oct 2022"; "Jun 2021"; "Jan 2020"; "Mar 2023"; "Sep 2019"].

Definition phoneNumbers : list string :=
  ["+1 (555) 123-4567"; "+44 20 7946 0958"; "+65 8765 4321"; "+49 30 1234 5678"; "+34 91 123 4567";
   "+33 1 23 45 67 89"; "+81 3 1234 5678"; "+61 2 1234 5678"; "+1 (416) 123-4567"; "+971 4 123 4567";
   "+31 20 123 4567"; "+46 8 123 45 67"; "+852 1234 5678"; "+91 22 1234 5678"; "+55 11 1234-5678"].

(** The shuffled pools the loop reads. *)
Record Pools : Type := mkPools {
  shuffledFirstNames : list string;
  shuffledLastNames : list string;
  shuffledDepartments : list string;
  shuffledLocations : list string;
  shuffledTeams : list string;
  shuffledProjects : list string;
  shuffledSkills : list string;
  shuffledLanguages : list string;
  shuffledStartDates : list string;
  shuffledPhoneNumbers : list string
}.

Definition shufflePools : Rand Pools :=
  fn ← shuffleArray firstNames;
  ln ← shuffleArray lastNames;
  de ← shuffleArray departments;
  lo ← shuffleArray locations;
  te ← shuffleArray teams;
  pr ← shuffleArray projects;
  sk ← shuffleArray skills;
  la ← shuffleArray languages;
  sd ← shuffleArray startDates;
  ph ← shuffleArray phoneNumbers;
  mret (mkPools fn ln de lo te pr sk la sd ph).

(** The six standard fields of [dataObj]. *)
Definition baseFields : list string :=
  ["Name"; "Department"; "Email"; "Location"; "Access Level"; "Status"].

(** One pass of the loop body: the record built for index [i]. *)
Definition makeDataObj (actualColumnCount : nat) (p : Pools) (i : nat) : Rand JsObject :=
  let firstName := cyc (shuffledFirstNames p) i in
  let lastName := cyc (shuffledLastNames p) (i + 3) in
  short ← randomLess (2 # 10);
  let emailPrefix :=
    if short : bool
    then JS.charAt0 (JS.toLowerCase firstName) +:+ JS.toLowerCase lastName
    else JS.toLowerCase firstName +:+ "." +:+ JS.toLowerCase lastName in
  let email := emailPrefix +:+ "@company.com" in
  let department := cyc (shuffledDepartments p) i in
  k ← randomBelow 3;
  let location := cyc (shuffledLocations p) (i + Z.to_nat k) in
  a ← randomBelow (Z.of_nat (length accessLevels));
  let accessLevel := nth (Z.to_nat a) accessLevels EmptyString in
  active ← randomLess (7 # 10);
  status ← (if active : bool then mret "Active"
            else s ← randomBelow (Z.of_nat (length statuses));
                 mret (nth (Z.to_nat s) statuses EmptyString));
  let team := cyc (shuffledTeams p) i in
  let project := cyc (shuffledProjects p) (i + 2) in
  let skill := cyc (shuffledSkills p) (i + 4) in
  let language := cyc (shuffledLanguages p) (i + 1) in
  let startDate := cyc (shuffledStartDates p) (i + 5) in
  let phoneNumber := cyc (shuffledPhoneNumbers p) (i + 3) in
  let dataObj : JsObject :=
    [("Name", VStr (firstName +:+ " " +:+ lastName));
     ("Department", VStr department);
     ("Email", VStr email);
     ("Location", VStr location);
     ("Access Level", VStr accessLevel);
     ("Status", VStr status)] in
  let dataObj := if (6 <? actualColumnCount)%nat then dataObj ++ [("Team", VStr team)] else dataObj in
  let dataObj := if (7 <? actualColumnCount)%nat then dataObj ++ [("Project", VStr project)] else dataObj in
  let dataObj := if (8 <? actualColumnCount)%nat then dataObj ++ [("Skill", VStr skill)] else dataObj in
  let dataObj := if (9 <? actualColumnCount)%nat then dataObj ++ [("Language", VStr language)] else dataObj in
  let dataObj := if (10 <? actualColumnCount)%nat then dataObj ++ [("Start Date", VStr startDate)] else dataObj in
  let dataObj := if (11 <? actualColumnCount)%nat then dataObj ++ [("Phone", VStr phoneNumber)] else dataObj in
  mret dataObj.

(** [for (let i = 0; i < Math.max(rowCount, 30); i++) ... dummyData.push(dataObj)],
    with [remaining] passes left from index [i]. *)
Fixpoint dummyLoop (actualColumnCount : nat) (p : Pools) (remaining i : nat)
    (dummyData : list JsObject) : Rand (list JsObject) :=
  match remaining with
  | O => mret dummyData
  | S remaining' =>
      dataObj ← makeDataObj actualColumnCount p i;
      dummyLoop actualColumnCount p remaining' (S i) (dummyData ++ [dataObj])
  end.

(** The oversized pool [dummyData]. *)
Definition dummyData (rowCount : Z) (actualColumnCount : nat) : Rand (list JsObject) :=
  p ← shufflePools;
  dummyLoop actualColumnCount p (Z.to_nat (Z.max rowCount 30)) O [].

(** [generateFixed(rowCount, columnCountHint)] of the specification: the
    dataset [shuffledData] as a function of the two values the generating
    block reads, [rowCount] and [actualColumnCount]. *)
Definition generateFixed (rowCount : Z) (actualColumnCount : nat) : Rand (list JsObject) :=
  pool ← dummyData rowCount actualColumnCount;
  shuffled ← shuffleArray pool;
  mret (slice0 rowCount shuffled).

(** [populateTableWithDummyData(rowCount, columnCount)] on the current
    selection; [columnCount] is not read by the body. *)
Definition populateTableWithDummyData (rowCount columnCount : Z)
    (selection : list Node) (store : Store) : Rand (Store * Notification) :=
  match selection with
  | [] => mret (store, PleaseSelect)
  | _ =>
      let allCells := getAllCells selection in
      match allCells with
      | [] => mret (store, NoCellsFound)
      | _ =>
          let rows := organizeCellsIntoRows allCells in
          let actualColumnCount := match rows with row0 :: _ => length row0 | [] => O end in
          shuffledData ← generateFixed rowCount actualColumnCount;
          let dataRows := convertObjectsTo2DArray (DArray shuffledData) in
          let '(store', updatedCount) := populateRows String_ rows dataRows (store, O) in
          mret (store', Updated updatedCount "cells with dummy data")
      end
  end.

End Fixed.

(** ** Schema-inferred dummy data ([generateDataFromHeaders]) *)

(** What the generator takes from its host: the clock and the locale. *)
Record Host : Type := mkHost {
  currentYear : Z;                  (* new Date().getFullYear() *)
  futureDateISO : Z -> string;      (* the ISO date that many days from now *)
  toLocaleString : Z -> string      (* n.toLocaleString() *)
}.

(** [f] applied to each element in turn, the draws in order. *)
Fixpoint mapRand {A B : Type} (f : A -> Rand B) (l : list A) : Rand (list B) :=
  match l with
  | [] => mret []
  | a :: l' => b ← f a; bs ← mapRand f l'; mret (b :: bs)
  end.

Module Custom.

Definition firstNames : list string := Fixed.firstNames.
Definition lastNames : list string := Fixed.lastNames.
Definition departments : list string := Fixed.departments.

Definition locations : list string :=
  ["London"; "New York"; "Singapore"; "Berlin"; "Madrid";
   "Paris"; "Tokyo"; "Sydney"; "Toronto"; "Dubai";
   "Amsterdam"; "Stockholm"; "Hong Kong"; "Mumbai"; "São Paulo"].

Definition roles : list string :=
  ["Manager"; "Director"; "Associate"; "Specialist"; "Lead";
   "Coordinator"; "Analyst"; "Designer"; "Developer"; "Consultant";
   "Administrator"; "Strategist"; "Engineer"; "Architect"; "Executive"].

Definition teams : list string := Fixed.teams.

Definition projects : list string :=
  ["Dashboard Redesign"; "Mobile App"; "API Integration"; "Data Migration"; "Cloud Infrastructure";
   "Security Audit"; "UI Component Library"; "Analytics Platform"; "Customer Portal"; "Automation Framework"].

Definition skills : list string :=
  ["JavaScript"; "Python"; "Design Systems"; "Product Strategy"; "Data Analysis";
   "Project Management"; "UX Research"; "Cloud Architecture"; "DevOps"; "Machine Learning"].

Definition languages : list string :=
  ["English"; "Spanish"; "Mandarin"; "French"; "German";
   "Japanese"; "Russian"; "Arabic"; "Portuguese"; "Hindi"].

Definition statuses : list string :=
  ["Active"; "Inactive"; "Pending"; "Suspended"; "Archived"; "Completed"; "In Progress"; "On Hold"].

Definition companies : list string :=
  ["Acme Inc."; "Globex Corp"; "Initech"; "Umbrella Corp"; "Stark Industries";
   "Wayne Enterprises"; "Cyberdyne Systems"; "Soylent Corp"; "Massive Dynamic"; "Hooli"].

Definition addresses : list string :=
  ["123 Main St"; "456 Park Ave"; "789 Broadway"; "321 Oak Lane"; "654 Pine Road";
   "987 Maple Drive"; "741 Cedar Blvd"; "852 Elm Street"; "963 Willow Way"; "159 Birch Court"].

Definition cities : list string :=
  ["New York"; "London"; "Tokyo"; "Paris"; "Berlin";
   "Sydney"; "Toronto"; "Singapore"; "Dubai"; "Mumbai"].

Definition phoneNumbers : list string :=
  ["+1 (555) 123-4567"; "+44 20 7946 0958"; "+65 8765 4321"; "+49 30 1234 5678"; "+34 91 123 4567";
   "+33 1 23 45 67 89"; "+81 3 1234 5678"; "+61 2 1234 5678"; "+1 (416) 123-4567"; "+971 4 123 4567"].

Definition dates : list string :=
  ["2023-01-15"; "2023-02-28"; "2023-03-10"; "2023-04-22"; "2023-05-05";
   "2023-06-18"; "2023-07-30"; "2023-08-12"; "2023-09-25"; "2023-10-08";
   "2023-11-20"; "2023-12-03"; "2024-01-16"; "2024-02-29"; "2024-03-11"].

Definition prices : list string :=
  ["$19.99"; "$24.50"; "$99.00"; "$149.99"; "$7.99";
   "$35.75"; "$199.99"; "$49.00"; "$299.99"; "$12.50";
   "$59.99"; "$85.25"; "$129.00"; "$14.99"; "$249.99"].

Definition quantities : list string :=
  ["1"; "2"; "5"; "10"; "25"; "50"; "100"; "250"; "500"; "1000"].

Definition ratings : list string :=
  ["★★★★★"; "★★★★☆"; "★★★☆☆"; "★★☆☆☆"; "★☆☆☆☆"].

(** [for (let i = 1; i <= 100; i++) ids.push(`ID-${('0000' + i).slice(-4)}`)] *)
Definition ids : list string :=
  List.map (fun i => "ID-" +:+ JS.sliceLast 4 ("0000" +:+ JS.decimal (Z.of_nat i))) (seq 1 100).

Record Pools : Type := mkPools {
  shuffledFirstNames : list string;
  shuffledLastNames : list string;
  shuffledDepartments : list string;
  shuffledLocations : list string;
  shuffledRoles : list string;
  shuffledTeams : list string;
  shuffledProjects : list string;
  shuffledSkills : list string;
  shuffledLanguages : list string;
  shuffledStatuses : list string;
  shuffledCompanies : list string;
  shuffledAddresses : list string;
  shuffledCities : list string;
  shuffledPhoneNumbers : list string;
  shuffledDates : list string;
  shuffledPrices : list string;
  shuffledQuantities : list string;
  shuffledRatings : list string;
  shuffledIds : list string
}.

Definition shufflePools : Rand Pools :=
  fn ← shuffleArray firstNames;
  ln ← shuffleArray lastNames;
  de ← shuffleArray departments;
  lo ← shuffleArray locations;
  ro ← shuffleArray roles;
  te ← shuffleArray teams;
  pr ← shuffleArray projects;
  sk ← shuffleArray skills;
  la ← shuffleArray languages;
  st ← shuffleArray statuses;
  co ← shuffleArray companies;
  ad ← shuffleArray addresses;
  ci ← shuffleArray cities;
  ph ← shuffleArray phoneNumbers;
  da ← shuffleArray dates;
  pc ← shuffleArray prices;
  qu ← shuffleArray quantities;
  ra ← shuffleArray ratings;
  idl ← shuffleArray ids;
  mret (mkPools fn ln de lo ro te pr sk la st co ad ci ph da pc qu ra idl).

(** [getDataTypeForHeader(header)] *)
Definition getDataTypeForHeader (header : string) : string :=
  let headerLower := JS.trim (JS.toLowerCase header) in
  let has := JS.includes headerLower in
  let equals := String.eqb headerLower in
  if has "first" && (has "name" || equals "first") then "firstName"
  else if has "last" && (has "name" || equals "last") then "lastName"
  else if equals "name" || equals "full name" || has "full" && has "name" then "fullName"
  else if has "email" || has "e-mail" || has "mail" then "email"
  else if has "phone" || has "mobile" || has "cell" || (has "number" && negb (has "id")) then "phone"
  else if has "website" || has "site" || has "url" || has "web" || has "link" then "website"
  else if has "address" || has "street" then "address"
  else if equals "city" then "city"
  else if equals "state" || equals "province" then "state"
  else if equals "country" then "country"
  else if has "zip" || has "postal" || has "post code" then "zipCode"
  else if has "location" || has "region" || has "area" then "location"
  else if has "department" || has "dept" then "department"
  else if has "role" || has "position" || has "title" || has "job" then "role"
  else if has "team" || has "group" then "team"
  else if has "project" || has "initiative" then "project"
  else if has "company" || has "organization" || has "employer" || has "business" then "company"
  else if has "skill" || has "expertise" || has "specialty" || has "proficiency" then "skill"
  else if has "language" || has "lang" then "language"
  else if equals "status" || has "state" && negb (has "country") then "status"
  else if has "date" || has "time" || has "when" then "date"
  else if has "price" || has "cost" || has "$" || has "fee" || has "amount" && negb (has "quantity") then "price"
  else if has "quantity" || has "qty" || has "count" || has "number of" then "quantity"
  else if has "rating" || has "score" || has "rank" || has "review" then "rating"
  else if equals "id" || has "identifier" || has "uuid" || has "code" || has "number" && has "id" then "id"
  else if has "access" || has "permission" || has "privilege" then "accessLevel"
  else if has "description" || has "desc" || has "about" || has "details" then "description"
  else if has "comment" || has "note" || has "feedback" then "comment"
  else if has "duration" || has "length" || has "time span" then "duration"
  else if has "start" && has "date" then "startDate"
  else if has "end" && has "date" then "endDate"
  else if has "deadline" then "deadline"
  else if has "budget" then "budget"
  else if has "revenue" || has "sales" then "revenue"
  else if has "profit" || has "margin" then "profit"
  else "generic:" +:+ JS.trim header.


(** [q.toFixed(2)] for [0 <= q], rounding the exact value half up. *)
Definition toFixed2 (q : Q) : string :=
  let cents := Qfloor (q * inject_Z 100 + (1 # 2)) in
  JS.decimal (cents / 100) +:+ "." +:+ JS.sliceLast 2 ("0" +:+ JS.decimal (cents mod 100)).

Definition usStates : list string :=
  ["California"; "New York"; "Texas"; "Florida"; "Illinois";
   "Pennsylvania"; "Ohio"; "Georgia"; "Michigan"; "North Carolina"].

Definition countries : list string :=
  ["United States"; "United Kingdom"; "Canada"; "Australia"; "Germany";
   "France"; "Japan"; "India"; "Brazil"; "China"].

Definition accessLevels : list string := ["Admin"; "Editor"; "Viewer"; "Owner"; "Guest"].

Definition descriptions : list string :=
  ["A comprehensive solution for enterprise needs.";
   "Designed with user experience in mind.";
   "Optimized for performance and scalability.";
   "Innovative approach to solving complex problems.";
   "Industry-leading features and capabilities.";
   "Built on cutting-edge technology.";
   "Tailored for maximum efficiency.";
   "Seamless integration with existing systems.";
   "Revolutionary design that sets new standards.";
   "Engineered for reliability and durability."].

Definition comments : list string :=
  ["Looks great, approved!";
   "Need some minor adjustments.";
   "Excellent work on this.";
   "Let's discuss this further.";
   "I have some concerns about this.";
   "Very impressive results.";
   "This exceeds expectations.";
   "Please review and get back to me.";
   "I'd like to see alternative options.";
   "This is exactly what we needed."].

Definition num (n : nat) : string := JS.decimal (Z.of_nat n).

(** The branch of [generateDataForType] for a [generic:] type. *)
Definition generateGeneric (h : Host) (headerName : string) (rowIndex : nat) : Rand string :=
  let has := JS.includes (JS.toLowerCase headerName) in
  if has "percent" || has "%" then
    n ← randomBelow 100; mret (JS.decimal n +:+ "%")
  else if has "year" then
    n ← randomBelow 5; mret (JS.decimal (currentYear h - n))
  else if has "price" || has "cost" || has "payment" || has "salary" then
    r ← Math_random; mret ("$" +:+ toFixed2 (r * inject_Z 1000))
  else mret (headerName +:+ " " +:+ num (rowIndex + 1)).

(** [generateDataForType(type, rowIndex)] *)
Definition generateDataForType (h : Host) (p : Pools) (type : string) (rowIndex : nat)
    : Rand string :=
  if JS.startsWith type "generic:" then generateGeneric h (JS.substring 8 type) rowIndex
  else
    let case := String.eqb type in
    if case "fullName" then
      mret (cyc (shuffledFirstNames p) rowIndex +:+ " " +:+ cyc (shuffledLastNames p) rowIndex)
    else if case "firstName" then mret (cyc (shuffledFirstNames p) rowIndex)
    else if case "lastName" then mret (cyc (shuffledLastNames p) rowIndex)
    else if case "email" then
      let firstName := cyc (shuffledFirstNames p) rowIndex in
      let lastName := cyc (shuffledLastNames p) rowIndex in
      mret (JS.toLowerCase firstName +:+ "." +:+ JS.toLowerCase lastName +:+ "@company.com")
    else if case "phone" then mret (cyc (shuffledPhoneNumbers p) rowIndex)
    else if case "website" then
      let company := JS.keepAlnumLower (JS.toLowerCase (cyc (shuffledCompanies p) rowIndex)) in
      mret ("https://www." +:+ company +:+ ".com")
    else if case "department" then mret (cyc (shuffledDepartments p) rowIndex)
    else if case "location" then mret (cyc (shuffledLocations p) rowIndex)
    else if case "city" then mret (cyc (shuffledCities p) rowIndex)
    else if case "state" then mret (nth (rowIndex mod 10) usStates EmptyString)
    else if case "country" then mret (nth (rowIndex mod 10) countries EmptyString)
    else if case "zipCode" then n ← randomBelow 90000; mret (JS.decimal (10000 + n))
    else if case "role" then mret (cyc (shuffledRoles p) rowIndex)
    else if case "team" then mret (cyc (shuffledTeams p) rowIndex)
    else if case "project" then mret (cyc (shuffledProjects p) rowIndex)
    else if case "skill" then mret (cyc (shuffledSkills p) rowIndex)
    else if case "language" then mret (cyc (shuffledLanguages p) rowIndex)
    else if case "status" then mret (cyc (shuffledStatuses p) rowIndex)
    else if case "company" then mret (cyc (shuffledCompanies p) rowIndex)
    else if case "address" then
      mret (cyc (shuffledAddresses p) rowIndex +:+ ", " +:+ cyc (shuffledCities p) rowIndex)
    else if case "date" then mret (cyc (shuffledDates p) rowIndex)
    else if case "startDate" then mret (cyc (shuffledDates p) (rowIndex + 2))
    else if case "endDate" then mret (cyc (shuffledDates p) (rowIndex + 5))
    else if case "deadline" then
      mret (futureDateISO h (10 + Z.of_nat (rowIndex mod 30)))
    else if case "price" then mret (cyc (shuffledPrices p) rowIndex)
    else if case "budget" then
      n ← randomBelow 90000; mret ("$" +:+ toLocaleString h (10000 + n))
    else if case "revenue" then
      n ← randomBelow 900000; mret ("$" +:+ toLocaleString h (100000 + n))
    else if case "profit" then
      n ← randomBelow 50000; mret ("$" +:+ toLocaleString h (5000 + n))
    else if case "quantity" then mret (cyc (shuffledQuantities p) rowIndex)
    else if case "rating" then mret (cyc (shuffledRatings p) rowIndex)
    else if case "id" then mret (cyc (shuffledIds p) rowIndex)
    else if case "accessLevel" then mret (nth (rowIndex mod 5) accessLevels EmptyString)
    else if case "description" then mret (nth (rowIndex mod 10) descriptions EmptyString)
    else if case "comment" then mret (nth (rowIndex mod 10) comments EmptyString)
    else if case "duration" then
      mret (nth (rowIndex mod 3)
              [num (1 + rowIndex mod 12) +:+ " hours";
               num (1 + rowIndex mod 30) +:+ " days";
               num (1 + rowIndex mod 12) +:+ " months"] EmptyString)
    else mret ("Item " +:+ num (rowIndex + 1)).

(** The row built for [rowIndex]: one value per header type, left to right. *)
Definition generateRow (h : Host) (p : Pools) (headerTypes : list string) (rowIndex : nat)
    : Rand (list string) :=
  mapRand (fun dataType => generateDataForType h p dataType rowIndex) headerTypes.

(** [generateDataFromHeaders(headers, rowCount)] *)
Definition generateDataFromHeaders (h : Host) (headers : list string) (rowCount : Z)
    : Rand (list (list string)) :=
  p ← shufflePools;
  let headerTypes := List.map getDataTypeForHeader headers in
  mapRand (generateRow h p headerTypes) (seq 0 (Z.to_nat rowCount)).

(** [populateTableWithCustomDummyData(headers, rowCount)] on the current
    selection. *)
Definition populateTableWithCustomDummyData (h : Host) (headers : list string)
    (rowCount : Z) (selection : list Node) (store : Store) : Rand (Store * Notification) :=
  match selection with
  | [] => mret (store, PleaseSelect)
  | _ =>
      let allCells := getAllCells selection in
      match allCells with
      | [] => mret (store, NoCellsFound)
      | _ =>
          let rows := organizeCellsIntoRows allCells in
          data ← generateDataFromHeaders h headers rowCount;
          let dataRows := List.map (List.map VStr) (headers :: data) in
          let '(store', updatedCount) := populateRows String_ rows dataRows (store, O) in
          mret (store', Updated updatedCount "cells with custom data")
      end
  end.

End Custom.

(** ** Vocabulary of the properties *)

(** Structural induction on scene trees: the children, when present, all
    satisfy the property. *)
Fixpoint Node_tree_ind (P : Node -> Prop)
    (step : forall i t n x y p cs,
        match cs with Some l => Forall P l | None => True end ->
        P (mkNode i t n x y p cs))
    (node : Node) : P node :=
  match node with
  | mkNode i t n x y p cs =>
      step i t n x y p cs
        (match cs return match cs with Some l => Forall P l | None => True end with
         | Some l =>
             (fix all (l : list Node) : Forall P l :=
                match l with
                | [] => List.Forall_nil P
                | c :: l' => @List.Forall_cons _ P c l' (Node_tree_ind P step c) (all l')
                end) l
         | None => I
         end)
  end.

(** [node.children] read as a list, empty when the node has none. *)
Definition childrenOf (node : Node) : list Node :=
  match node_children node with
  | Some cs => cs
  | None => []
  end.

(** The nodes of a subtree in pre-order, the root first. *)
Fixpoint preorder (node : Node) : list Node :=
  node ::
  match node with
  | mkNode _ _ _ _ _ _ (Some cs) =>
      (fix descend (l : list Node) : list Node :=
         match l with
         | [] => []
         | child :: l' => preorder child ++ descend l'
         end) cs
  | mkNode _ _ _ _ _ _ None => []
  end.

(** Equality of strings up to the case of ASCII letters. *)
Definition equalsIgnoreCase (s t : string) : bool :=
  String.eqb (JS.toLowerCase s) (JS.toLowerCase t).

(** [c] is [root], one of its children or one of its grandchildren. *)
Definition withinTwoLevels (root c : Node) : Prop :=
  c = root \/ In c (childrenOf root) \/
  exists child, In child (childrenOf root) /\ In c (childrenOf child).

(** The subtree cut below depth [d]: nodes at depth [d] keep an empty list
    of children where they had one. *)
Fixpoint truncate (d : nat) (node : Node) : Node :=
  match node with
  | mkNode i t n x y p cs =>
      mkNode i t n x y p
        (match d with
         | O => option_map (fun _ => []) cs
         | S d' => option_map (List.map (truncate d')) cs
         end)
  end.

(** The comparator that orders by a numeric key, and the order it sorts into. *)
Definition by_key {A : Type} (key : A -> Z) (a b : A) : Z := key a - key b.
Definition key_le {A : Type} (key : A -> Z) (a b : A) : Prop := key a <= key b.

(** The key [rows.sort] compares: the y of the first cell of a row. *)
Definition leadingY (row : list Node) : Z :=
  match row with
  | a :: _ => node_y a
  | [] => 0
  end.

(** Number of entries of a two-dimensional array. *)
Definition total {A : Type} (rows : list (list A)) : nat :=
  list_sum (List.map (@length A) rows).

(** The (cell, value) pairs the two loops visit, in order. *)
Fixpoint visitedRow (rowCells : list Node) (rowData : list Value) : list (Node * Value) :=
  match rowCells, rowData with
  | cell :: rowCells', v :: rowData' => (cell, v) :: visitedRow rowCells' rowData'
  | _, _ => []
  end.

Fixpoint visited (rows : list (list Node)) (dataRows : list (list Value))
    : list (Node * Value) :=
  match rows, dataRows with
  | rowCells :: rows', rowData :: dataRows' =>
      visitedRow rowCells rowData ++ visited rows' dataRows'
  | _, _ => []
  end.

Definition hasValueSlot (cell : Node) : bool :=
  match findValueLayer cell with Some _ => true | None => false end.

(** The cells among [cells] whose value slot cannot be resolved. *)
Definition unresolved (cells : list Node) : list Node :=
  List.filter (fun cell => negb (hasValueSlot cell)) cells.

(** The text read back from a cell: the characters of its value slot. *)
Definition readBack (store : Store) (cell : Node) : option string :=
  match findValueLayer cell with
  | Some valueLayer => store !! node_id valueLayer
  | None => None
  end.

(** The id of a cell's value slot, when it has one. *)
Definition slotId (cell : Node) : option string :=
  option_map node_id (findValueLayer cell).

(** One visit of the loop body seen from the store alone. *)
Definition applyWrite (toText : Value -> string) (store : Store) (cv : Node * Value) : Store :=
  match findValueLayer (fst cv) with
  | Some valueLayer => <[node_id valueLayer := toText (snd cv)]> store
  | None => store
  end.

(** The cells two aligned rows have in common, row by row. *)
Definition overlapSize (rows : list (list Node)) (dataRows : list (list Value)) : nat :=
  list_sum (zip_with (fun rowCells rowData => Nat.min (length rowCells) (length rowData))
              rows dataRows).

(** A table shaped like the dataset itself: one row per record, one cell
    per field. *)
Definition matchesDataset (rows : list (list Node)) (objs : list JsObject) : Prop :=
  Forall2 (fun row obj => length row = length obj) rows objs.

(** A table shaped like the two-dimensional array the populator reads. *)
Definition matchesDataRows (rows : list (list Node)) (dataRows : list (list Value)) : Prop :=
  Forall2 (fun row rowData => length row = length rowData) rows dataRows.

(** [Array.isArray(data) && data.length > 0] *)
Definition isNonEmptyArray (data : Data) : bool :=
  match data with
  | DArray (_ :: _) => true
  | _ => false
  end.

(** The fields added beyond the six standard ones, in the order the
    thresholds 6, 7, ..., 11 add them. *)
Definition extendedFields : list string :=
  ["Team"; "Project"; "Skill"; "Language"; "Start Date"; "Phone"].

(** A source of draws as [Math.random()] gives them. *)
Definition unitSource (source : nat -> Q) : Prop :=
  forall k, (0 <= source k)%Q /\ (source k < 1)%Q.

(** *** Example scenes *)

Definition valueText (i parent : string) : Node :=
  mkNode i TEXT "value" 0 0 (Some parent) None.

Definition cellAt (i : string) (x y : Z) (parent : string) : Node :=
  mkNode i INSTANCE "Cell" x y (Some parent) (Some [valueText (i +:+ "/value") i]).

(** One row container with three cell instances at x = 0, 120, 240. *)
Definition scenarioRow : Node :=
  mkNode "row" FRAME "Row" 0 0 None
    (Some [cellAt "c0" 0 0 "row"; cellAt "c1" 120 0 "row"; cellAt "c2" 240 0 "row"]).

(** The same row as a component instance, its cells listed right to left. *)
Definition scenarioRowInstance : Node :=
  mkNode "row" INSTANCE "Row" 0 0 None
    (Some [cellAt "c2" 240 0 "row"; cellAt "c1" 120 0 "row"; cellAt "c0" 0 0 "row"]).

Definition scenarioData : Data :=
  DArray [[("A", VStr "x"); ("B", VStr "y"); ("C", VStr "z")]].

(** The texts of the three value slots before populating. *)
Definition scenarioStore : Store :=
  <["c0/value" := "Text"]> (<["c1/value" := "Text"]> (<["c2/value" := "Text"]> ∅)).

(** A cell instance without any text layer named "value". *)
Definition blankCell (i : string) (x y : Z) (parent : string) : Node :=
  mkNode i INSTANCE "cell" x y (Some parent)
    (Some [mkNode (i +:+ "/label") TEXT "Label" 0 0 (Some i) None]).

(** A frame that carries the name of a cell. *)
Definition frameNamedCell : Node :=
  mkNode "f" FRAME "cell" 0 0 None (Some [cellAt "f0" 0 0 "f"]).

(** A table of two rows of two cells under one frame, listed out of order. *)
Definition tableFrame : Node :=
  mkNode "table" FRAME "Table" 0 0 None
    (Some [mkNode "r1" INSTANCE "Row" 0 40 (Some "table")
             (Some [cellAt "b1" 100 40 "r1"; cellAt "b0" 0 40 "r1"]);
           mkNode "r0" INSTANCE "Row" 0 0 (Some "table")
             (Some [cellAt "a1" 100 0 "r0"; cellAt "a0" 0 0 "r0"])]).

(** A cell four levels below the selected frame. *)
Definition deepFrame : Node :=
  mkNode "top" FRAME "Page" 0 0 None
    (Some [mkNode "g1" GROUP "Group" 0 0 (Some "top")
             (Some [mkNode "g2" GROUP "Inner" 0 0 (Some "g1")
                      (Some [cellAt "deep" 0 0 "g2"]);
                    cellAt "near" 0 0 "g1"])]).

(** One row container with two cells. *)
Definition pairRow : Node :=
  mkNode "row" FRAME "Row" 0 0 None
    (Some [cellAt "c0" 0 0 "row"; cellAt "c1" 120 0 "row"]).

(** One row container with a single cell. *)
Definition singleRow : Node :=
  mkNode "row" FRAME "Row" 0 0 None (Some [cellAt "c0" 0 0 "row"]).

Definition halfSource : nat -> Q := fun _ => 1 # 2.

Definition sampleHost : Host :=
  mkHost 2024 (fun days => "2024-01-" +:+ JS.decimal days) JS.decimal.

(** ** Text collection and font loading *)

(** [findTextNodes(node)], the closure every handler runs over each cell:
    a text node is pushed and not entered, any other node is entered when
    it has children. *)
Fixpoint findTextNodes (node : Node) : list Node :=
  if NodeType_eqb (node_type node) TEXT then [node]
  else
    match node with
    | mkNode _ _ _ _ _ _ (Some cs) =>
        (fix each (l : list Node) : list Node :=
           match l with
           | [] => []
           | child :: l' => findTextNodes child ++ each l'
           end) cs
    | mkNode _ _ _ _ _ _ None => []
    end.

(** [allTextNodes] after [allCells.forEach(cell => findTextNodes(cell))] *)
Definition allTextNodes (allCells : list Node) : list Node :=
  List.flat_map findTextNodes allCells.

(** [fontNames.add(s)] on a [Set] kept in insertion order. *)
Definition Set_add (s : string) (set : list string) : list string :=
  if existsb (String.eqb s) set then set else set ++ [s].

Section Fonts.
(** [node.fontName]: [None] for [figma.mixed], otherwise the font as
    [JSON.stringify] prints it (which [JSON.parse] reads back). *)
Variable fontName : Node -> option string.

(** The set [fontNames] that [loadFonts(nodes)] builds. *)
Definition fontNames (nodes : list Node) : list string :=
  let textNodes := List.filter (fun node => NodeType_eqb (node_type node) TEXT) nodes in
  fold_left
    (fun set node =>
       match fontName node with
       | Some font => Set_add font set
       | None => set
       end)
    textNodes [].

(** [loadFonts(nodes)]: the fonts handed to [figma.loadFontAsync], one call
    for each element of [Array.from(fontNames)]. *)
Definition loadFonts (nodes : list Node) : list string := fontNames nodes.

(** The fonts a handler loads for a selection before it writes. *)
Definition fontsLoadedFor (selection : list Node) : list string :=
  loadFonts (allTextNodes (getAllCells selection)).
End Fonts.

(** ** Further vocabulary *)

(** [cell.parent] is not null. *)
Definition hasParent (cell : Node) : bool :=
  match node_parent cell with Some _ => true | None => false end.

(** [node.type === 'TEXT'] *)
Definition isText (node : Node) : bool := NodeType_eqb (node_type node) TEXT.

(** The parent id a row stands for: that of its first cell. *)
Definition rowParent (row : list Node) : option string :=
  match row with
  | cell :: _ => node_parent cell
  | [] => None
  end.

(** Text nodes of the subtree have no children, as in the host document. *)
Definition textNodesAreLeaves (node : Node) : Prop :=
  Forall (fun n => node_type n = TEXT -> childrenOf n = []) (preorder node).

(** The text of the last visit that wrote to the slot [k], if any. *)
Fixpoint lastWrite (toText : Value -> string) (pairs : list (Node * Value)) (k : string)
    : option string :=
  match pairs with
  | [] => None
  | (cell, v) :: pairs' =>
      match lastWrite toText pairs' k with
      | Some text => Some text
      | None =>
          match findValueLayer cell with
          | Some valueLayer => if String.eqb (node_id valueLayer) k then Some (toText v) else None
          | None => None
          end
      end
  end.

(** The types [generateDataForType] has a case for. *)
Definition handledTypes : list string :=
  ["fullName"; "firstName"; "lastName"; "email"; "phone"; "website"; "department";
   "location"; "city"; "state"; "country"; "zipCode"; "role"; "team"; "project";
   "skill"; "language"; "status"; "company"; "address"; "date"; "startDate";
   "endDate"; "deadline"; "price"; "budget"; "revenue"; "profit"; "quantity";
   "rating"; "id"; "accessLevel"; "description"; "comment"; "duration"].

(** The six standard fields of a generated record, in order. *)
Definition baseRecord (name department email location accessLevel status : string) : JsObject :=
  [("Name", VStr name); ("Department", VStr department); ("Email", VStr email);
   ("Location", VStr location); ("Access Level", VStr accessLevel); ("Status", VStr status)].

(** The two forms of [emailPrefix], followed by the domain. *)
Definition emailOf (short : bool) (firstName lastName : string) : string :=
  (if short then JS.charAt0 (JS.toLowerCase firstName) +:+ JS.toLowerCase lastName
   else JS.toLowerCase firstName +:+ "." +:+ JS.toLowerCase lastName) +:+ "@company.com".

(** The extended fields a column count adds, with their values. *)
Definition extendedRecord (actualColumnCount : nat) (values : list string) : JsObject :=
  combine (firstn (actualColumnCount - 6) extendedFields) (List.map VStr values).

(** A record whose standard fields come from the pools of the generator,
    with an email made from the names of its name field. *)
Definition fromThePools (obj : JsObject) : Prop :=
  exists firstName lastName department location accessLevel status short,
    In firstName Fixed.firstNames /\ In lastName Fixed.lastNames /\
    In department Fixed.departments /\ In location Fixed.locations /\
    In accessLevel Fixed.accessLevels /\ In status Fixed.statuses /\
    get obj "Name" = VStr (firstName +:+ " " +:+ lastName) /\
    get obj "Email" = VStr (emailOf short firstName lastName) /\
    get obj "Department" = VStr department /\
    get obj "Location" = VStr location /\
    get obj "Access Level" = VStr accessLevel /\
    get obj "Status" = VStr status.

(** Every field of the record holds a string. *)
Definition allStrings (obj : JsObject) : Prop :=
  Forall (fun kv => exists s, snd kv = VStr s) obj.

(** The pools of [p] are rearrangements of the literal pools. *)
Definition shuffledFrom (p : Fixed.Pools) : Prop :=
  Permutation (Fixed.shuffledFirstNames p) Fixed.firstNames /\
  Permutation (Fixed.shuffledLastNames p) Fixed.lastNames /\
  Permutation (Fixed.shuffledDepartments p) Fixed.departments /\
  Permutation (Fixed.shuffledLocations p) Fixed.locations.

(** The types whose values are read from a pool, with the pool. *)
Definition typePools : list (string * list string) :=
  [("firstName", Custom.firstNames); ("lastName", Custom.lastNames);
   ("phone", Custom.phoneNumbers); ("department", Custom.departments);
   ("location", Custom.locations); ("city", Custom.cities);
   ("state", Custom.usStates); ("country", Custom.countries);
   ("role", Custom.roles); ("team", Custom.teams); ("project", Custom.projects);
   ("skill", Custom.skills); ("language", Custom.languages);
   ("status", Custom.statuses); ("company", Custom.companies);
   ("date", Custom.dates); ("price", Custom.prices);
   ("quantity", Custom.quantities); ("rating", Custom.ratings); ("id", Custom.ids);
   ("accessLevel", Custom.accessLevels); ("description", Custom.descriptions);
   ("comment", Custom.comments)].

(** The pools of [p] are rearrangements of the literal pools. *)
Definition customShuffledFrom (p : Custom.Pools) : Prop :=
  Permutation (Custom.shuffledFirstNames p) Custom.firstNames /\
  Permutation (Custom.shuffledLastNames p) Custom.lastNames /\
  Permutation (Custom.shuffledDepartments p) Custom.departments /\
  Permutation (Custom.shuffledLocations p) Custom.locations /\
  Permutation (Custom.shuffledRoles p) Custom.roles /\
  Permutation (Custom.shuffledTeams p) Custom.teams /\
  Permutation (Custom.shuffledProjects p) Custom.projects /\
  Permutation (Custom.shuffledSkills p) Custom.skills /\
  Permutation (Custom.shuffledLanguages p) Custom.languages /\
  Permutation (Custom.shuffledStatuses p) Custom.statuses /\
  Permutation (Custom.shuffledCompanies p) Custom.companies /\
  Permutation (Custom.shuffledAddresses p) Custom.addresses /\
  Permutation (Custom.shuffledCities p) Custom.cities /\
  Permutation (Custom.shuffledPhoneNumbers p) Custom.phoneNumbers /\
  Permutation (Custom.shuffledDates p) Custom.dates /\
  Permutation (Custom.shuffledPrices p) Custom.prices /\
  Permutation (Custom.shuffledQuantities p) Custom.quantities /\
  Permutation (Custom.shuffledRatings p) Custom.ratings /\
  Permutation (Custom.shuffledIds p) Custom.ids.

(** The number of records [generateFixed] returns for any row count. *)
Definition fixedRowCount (rowCount : Z) : Z :=
  if rowCount <? 0 then Z.max (30 + rowCount) 0 else rowCount.

(** Two fonts on four text layers, one of them mixed. *)
Definition sampleFont (node : Node) : option string :=
  if String.eqb (node_id node) "a1/value" then None
  else if String.eqb (node_id node) "b0/value" then Some "Inter Bold"
  else Some "Inter Regular".

(** *** The handlers as sequences of host calls *)

(** A call a handler makes to the host: [figma.loadFontAsync(font)], the
    assignment [node.characters = text] to the node [id], or
    [figma.notify]. *)
Inductive HostCall : Type :=
  | LoadFontAsync (font : string)
  | SetCharacters (id text : string)
  | Notify (message : Notification).

Section Calls.
Variable fontName : Node -> option string.
Variable toText : Value -> string.

(** The body of the inner loop for one cell and one value. *)
Definition writeCellCalls (cell : Node) (v : Value) : list HostCall :=
  match findValueLayer cell with
  | Some valueLayer => [SetCharacters (node_id valueLayer) (toText v)]
  | None => []
  end.

Fixpoint populateRowCalls (rowCells : list Node) (rowData : list Value) : list HostCall :=
  match rowCells, rowData with
  | cell :: rowCells', v :: rowData' =>
      writeCellCalls cell v ++ populateRowCalls rowCells' rowData'
  | _, _ => []
  end.

Fixpoint populateRowsCalls (rows : list (list Node)) (dataRows : list (list Value))
    : list HostCall :=
  match rows, dataRows with
  | rowCells :: rows', rowData :: dataRows' =>
      populateRowCalls rowCells rowData ++ populateRowsCalls rows' dataRows'
  | _, _ => []
  end.

(** What each handler does once it has found cells: [await loadFonts]
    requests the fonts of the text nodes of the cells (all requests
    granted), then the two loops write, with [updatedCount] one more for
    each write, then the count is notified. *)
Definition populateCalls (suffix : string) (allCells : list Node)
    (dataRows : list (list Value)) : list HostCall :=
  let rows := organizeCellsIntoRows allCells in
  let loads := List.map LoadFontAsync (loadFonts fontName (allTextNodes allCells)) in
  let writes := populateRowsCalls rows dataRows in
  loads ++ writes ++ [Notify (Updated (length writes) suffix)].
End Calls.

(** [populateTable(data)] as the calls it makes. *)
Definition populateTableCalls (fontName : Node -> option string) (data : Data)
    (selection : list Node) : list HostCall :=
  match selection with
  | [] => [Notify PleaseSelect]
  | _ =>
      let allCells := getAllCells selection in
      match allCells with
      | [] => [Notify NoCellsFound]
      | _ =>
          populateCalls fontName cellText "cells with data" allCells
            (convertObjectsTo2DArray data)
      end
  end.

(** [populateTableWithDummyData(rowCount, columnCount)] as the calls it
    makes. *)
Definition populateTableWithDummyDataCalls (fontName : Node -> option string)
    (rowCount columnCount : Z) (selection : list Node) : Rand (list HostCall) :=
  match selection with
  | [] => mret [Notify PleaseSelect]
  | _ =>
      let allCells := getAllCells selection in
      match allCells with
      | [] => mret [Notify NoCellsFound]
      | _ =>
          let rows := organizeCellsIntoRows allCells in
          let actualColumnCount := match rows with row0 :: _ => length row0 | [] => O end in
          shuffledData ← Fixed.generateFixed rowCount actualColumnCount;
          mret (populateCalls fontName String_ "cells with dummy data" allCells
                  (convertObjectsTo2DArray (DArray shuffledData)))
      end
  end.

(** [populateTableWithCustomDummyData(headers, rowCount)] as the calls it
    makes. *)
Definition populateTableWithCustomDummyDataCalls (fontName : Node -> option string)
    (h : Host) (headers : list string) (rowCount : Z) (selection : list Node)
    : Rand (list HostCall) :=
  match selection with
  | [] => mret [Notify PleaseSelect]
  | _ =>
      let allCells := getAllCells selection in
      match allCells with
      | [] => mret [Notify NoCellsFound]
      | _ =>
          data ← Custom.generateDataFromHeaders h headers rowCount;
          mret (populateCalls fontName String_ "cells with custom data" allCells
                  (List.map (List.map VStr) (headers :: data)))
      end
  end.

(** The store after a sequence of calls. *)
Definition storeAfter (calls : list HostCall) (store : Store) : Store :=
  fold_left
    (fun st call =>
       match call with
       | SetCharacters id text => <[id := text]> st
       | _ => st
       end)
    calls store.

(** The messages a sequence of calls shows. *)
Definition notified (calls : list HostCall) : list Notification :=
  List.flat_map (fun call => match call with Notify message => [message] | _ => [] end) calls.

(** Every font request comes before every write; each write goes to the
    value layer of a collected cell; and when the text nodes of that cell
    have no children, the font of the layer, unless mixed, was requested
    before the write. *)
Definition loadsBeforeWrites (fontName : Node -> option string) (selection : list Node)
    (calls : list HostCall) : Prop :=
  forall i id text,
    calls !! i = Some (SetCharacters id text) ->
    (forall j font, calls !! j = Some (LoadFontAsync font) -> (j < i)%nat) /\
    exists cell valueLayer,
      In cell (getAllCells selection) /\
      findValueLayer cell = Some valueLayer /\
      node_id valueLayer = id /\
      (textNodesAreLeaves cell ->
       forall font, fontName valueLayer = Some font ->
                    exists j, (j < i)%nat /\ calls !! j = Some (LoadFontAsync font)).

(** The order of two array-index names: by the number they denote. *)
Definition indexBefore (a b : string) : Prop := (indexOfKey a < indexOfKey b)%N.

(** A dataset whose numbers are safe integers. *)
Definition safeDataset (objs : list JsObject) : Prop :=
  Forall (fun obj => Forall (fun kv => safeValue (snd kv)) obj) objs.

(** Two sources that give the same draws before the call [k]. *)
Definition agreeBelow (k : nat) (source source' : nat -> Q) : Prop :=
  forall i, (i < k)%nat -> source' i = source i.

(** A computation that reads the source only from its starting state up
    to the state it ends in. *)
Definition readsOwnDraws {A : Type} (m : Rand A) : Prop :=
  forall source k,
    (k <= snd (m source k))%nat /\
    forall source',
      (forall i, (k <= i < snd (m source k))%nat -> source' i = source i) ->
      m source' k = m source k.

(** A draw for which [Math.floor(Math.random() * n)] is the index [j]:
    the middle of the interval of such draws. *)
Definition drawFor (j n : Z) : Q := (2 * j + 1) # Z.to_pos (2 * n).


(** ** Value-slot resolver *)

Lemma find_app_first {A : Type} (f : A -> bool) (l1 l2 : list A) :
  List.find f (l1 ++ l2) =
  match List.find f l1 with Some a => Some a | None => List.find f l2 end.
Proof.
  induction l1 as [|a l1 IH]; cbn; [reflexivity|].
  destruct (f a); [reflexivity | exact IH].
Qed.

Lemma findValueLayer_preorder (node : Node) :
  findValueLayer node = List.find isValueLayer (preorder node).
Proof.
  induction node as [i t n x y p cs IH] using Node_tree_ind.
  cbn [findValueLayer preorder List.find].
  destruct (isValueLayer (mkNode i t n x y p cs)); [reflexivity|].
  destruct cs as [l|]; [|reflexivity].
  induction l as [|c l IHl]; [reflexivity|].
  inversion IH as [|? ? Hc Hl]; subst.
  rewrite find_app_first, <- Hc.
  destruct (findValueLayer c); [reflexivity|].
  apply IHl, Hl.
Qed.

Lemma find_none_iff {A : Type} (f : A -> bool) (l : list A) :
  List.find f l = None <-> Forall (fun a => f a = false) l.
Proof.
  induction l as [|a l IH]; cbn.
  - split; [constructor | reflexivity].
  - destruct (f a) eqn:E; split; intros H.
    + discriminate.
    + inversion H; congruence.
    + constructor; [assumption | apply IH, H].
    + inversion H; subst. apply IH; assumption.
Qed.

Lemma isValueLayer_spec (node : Node) :
  isValueLayer node =
  equalsIgnoreCase (node_name node) "value" && NodeType_eqb (node_type node) TEXT.
Proof. reflexivity. Qed.

(** C5. [findValueLayer] returns the first node of the subtree in pre-order,
    the root included, that is a text node whose name equals "value" up to
    case, and nothing exactly when the subtree has no such node; a cell for
    which it returns nothing is skipped by the loop: the store and the
    counter stay as they are and the loop goes on with the next cell. *)
Theorem value_slot_first_in_preorder_absent_skipped :
  (forall node,
      findValueLayer node =
      List.find
        (fun n => equalsIgnoreCase (node_name n) "value" && NodeType_eqb (node_type n) TEXT)
        (preorder node)) /\
  (forall node,
      findValueLayer node = None <->
      Forall (fun n => equalsIgnoreCase (node_name n) "value" = false \/ node_type n <> TEXT)
        (preorder node)) /\
  (forall toText cell v rowCells rowData st,
      findValueLayer cell = None ->
      writeCell toText cell v st = st /\
      populateRow toText (cell :: rowCells) (v :: rowData) st =
      populateRow toText rowCells rowData st).
Proof.
  split; [|split].
  - intros node. apply findValueLayer_preorder.
  - intros node. rewrite findValueLayer_preorder, find_none_iff.
    split; intros H; eapply Forall_impl; try exact H; cbn; intros n Hn.
    + rewrite isValueLayer_spec in Hn.
      destruct (equalsIgnoreCase (node_name n) "value"); [right | left; reflexivity].
      destruct (node_type n); cbn in Hn; congruence.
    + rewrite isValueLayer_spec.
      destruct Hn as [-> | Hn]; [reflexivity|].
      destruct (node_type n); cbn; try congruence; apply andb_false_r.
  - intros toText cell v rowCells rowData st Hnone.
    assert (writeCell toText cell v st = st) as Hw
      by (unfold writeCell; rewrite Hnone; reflexivity).
    split; [exact Hw|]. cbn [populateRow]. rewrite Hw. reflexivity.
Qed.

Lemma value_slot_first_in_preorder_absent_skipped_witness :
  findValueLayer (blankCell "k" 0 0 "row") = None /\
  populateRow cellText [blankCell "k" 0 0 "row"; cellAt "c1" 120 0 "row"]
    [VStr "skipped"; VStr "kept"] (scenarioStore, O) =
  populateRow cellText [cellAt "c1" 120 0 "row"] [VStr "kept"] (scenarioStore, O).
Proof.
  split; [reflexivity|].
  apply (proj2 (proj2 value_slot_first_in_preorder_absent_skipped)).
  reflexivity.
Defined.

(** ** Selector *)

Lemma isCellInstance_spec (c : Node) :
  isCellInstance c = true ->
  node_type c = INSTANCE /\ JS.toLowerCase (node_name c) = "cell".
Proof.
  unfold isCellInstance. intros H.
  apply andb_true_iff in H as [Ht Hn].
  split.
  - destruct (node_type c); cbn in Ht; congruence.
  - apply String.eqb_eq, Hn.
Qed.

Lemma in_filter_cells (c : Node) (l : list Node) :
  In c (List.filter isCellInstance l) -> In c l /\ isCellInstance c = true.
Proof. apply filter_In. Qed.

(** Where [cellsOfChild] takes its cells from. *)
Lemma cellsOfChild_origin (child c : Node) :
  In c (cellsOfChild child) ->
  isCellInstance c = true /\ (c = child \/ In c (childrenOf child)).
Proof.
  unfold cellsOfChild, childrenOf.
  destruct (NodeType_eqb (node_type child) INSTANCE) eqn:Et.
  - destruct (String.eqb (JS.toLowerCase (node_name child)) "cell") eqn:En.
    + intros [<- | []]. unfold isCellInstance. rewrite Et, En. auto.
    + destruct (node_children child); [|intros []].
      intros H. apply in_filter_cells in H as [H1 H2]. auto.
  - destruct (node_children child); [|intros []].
    intros H. apply in_filter_cells in H as [H1 H2]. auto.
Qed.

(** Where [cellsOfRoot] takes its cells from. *)
Lemma cellsOfRoot_origin (root c : Node) :
  In c (cellsOfRoot root) ->
  isCellInstance c = true /\ withinTwoLevels root c.
Proof.
  unfold cellsOfRoot, withinTwoLevels, childrenOf.
  destruct (NodeType_eqb (node_type root) INSTANCE) eqn:Et.
  - destruct (String.eqb (JS.toLowerCase (node_name root)) "cell") eqn:En.
    + intros [<- | []]. unfold isCellInstance. rewrite Et, En. auto.
    + destruct (node_children root); [|intros []].
      intros H. apply in_filter_cells in H as [H1 H2]. auto.
  - destruct (node_children root) as [cs|]; [|intros []].
    intros H. apply in_flat_map in H as (child & Hchild & Hc).
    apply cellsOfChild_origin in Hc as [Hcell [-> | Hin]]; [auto|].
    split; [assumption|]. right. right. exists child. auto.
Qed.

Lemma getAllCells_origin (selection : list Node) (c : Node) :
  In c (getAllCells selection) ->
  isCellInstance c = true /\ exists root, In root selection /\ withinTwoLevels root c.
Proof.
  unfold getAllCells. intros H.
  apply in_flat_map in H as (root & Hroot & Hc).
  apply cellsOfRoot_origin in Hc as [Hcell Hdepth]. eauto.
Qed.

(** C10. Every node [getAllCells] returns is an instance whose name equals
    "cell" up to case; a node of another type, such as a frame named
    "cell", is never among the cells, selected directly or not. *)
Theorem collected_cells_are_instances_named_cell :
  forall selection c,
    In c (getAllCells selection) ->
    node_type c = INSTANCE /\
    equalsIgnoreCase (node_name c) "cell" = true /\
    (forall other, node_type other <> INSTANCE -> c <> other).
Proof.
  intros selection c Hc.
  apply getAllCells_origin in Hc as [Hcell _].
  apply isCellInstance_spec in Hcell as [Ht Hn].
  split; [exact Ht|]. split.
  - unfold equalsIgnoreCase. rewrite Hn. reflexivity.
  - intros other Hother ->. contradiction.
Qed.

Lemma collected_cells_are_instances_named_cell_witness :
  In (cellAt "f0" 0 0 "f") (getAllCells [frameNamedCell; cellAt "c0" 0 0 "row"]) /\
  cellAt "f0" 0 0 "f" <> frameNamedCell /\
  node_type (cellAt "f0" 0 0 "f") = INSTANCE.
Proof.
  assert (In (cellAt "f0" 0 0 "f") (getAllCells [frameNamedCell; cellAt "c0" 0 0 "row"])) as Hin
    by (cbn; left; reflexivity).
  destruct (collected_cells_are_instances_named_cell _ _ Hin) as (Ht & _ & Hne).
  split; [exact Hin|]. split; [|exact Ht].
  apply Hne. discriminate.
Defined.

Example frame_named_cell_not_collected :
  getAllCells [frameNamedCell] = [cellAt "f0" 0 0 "f"].
Proof. reflexivity. Qed.

Lemma truncate_fields (d : nat) (node : Node) :
  node_id (truncate d node) = node_id node /\
  node_type (truncate d node) = node_type node /\
  node_name (truncate d node) = node_name node.
Proof. destruct d, node; cbn; repeat split. Qed.

Lemma truncate_children (d : nat) (node : Node) :
  node_children (truncate (S d) node) =
  option_map (List.map (truncate d)) (node_children node).
Proof. destruct node; reflexivity. Qed.

Lemma isCellInstance_truncate (d : nat) (node : Node) :
  isCellInstance (truncate d node) = isCellInstance node.
Proof.
  unfold isCellInstance.
  destruct (truncate_fields d node) as (_ & -> & ->). reflexivity.
Qed.

Lemma ids_map_truncate (d : nat) (l : list Node) :
  List.map node_id (List.map (truncate d) l) = List.map node_id l.
Proof.
  rewrite List.map_map. apply List.map_ext.
  intros n. apply truncate_fields.
Qed.

Lemma filter_cells_truncate (d : nat) (l : list Node) :
  List.filter isCellInstance (List.map (truncate d) l) =
  List.map (truncate d) (List.filter isCellInstance l).
Proof.
  induction l as [|n l IH]; cbn; [reflexivity|].
  rewrite isCellInstance_truncate.
  destruct (isCellInstance n); cbn; rewrite IH; reflexivity.
Qed.

Lemma cellsOfChild_truncate (child : Node) :
  List.map node_id (cellsOfChild (truncate 1 child)) = List.map node_id (cellsOfChild child).
Proof.
  unfold cellsOfChild. rewrite truncate_children.
  destruct (truncate_fields 1 child) as (Hi & -> & ->).
  destruct (node_children child) as [gcs|]; cbn [option_map];
    repeat match goal with |- context [if ?b then _ else _] => destruct b end;
    rewrite ?filter_cells_truncate, ?ids_map_truncate;
    cbn [List.map]; rewrite ?Hi; reflexivity.
Qed.

Lemma cellsOfRoot_truncate (root : Node) :
  List.map node_id (cellsOfRoot (truncate 2 root)) = List.map node_id (cellsOfRoot root).
Proof.
  unfold cellsOfRoot. rewrite truncate_children.
  destruct (truncate_fields 2 root) as (Hi & -> & ->).
  destruct (NodeType_eqb (node_type root) INSTANCE).
  - destruct (node_children root) as [cs|]; cbn [option_map];
      destruct (String.eqb (JS.toLowerCase (node_name root)) "cell");
      rewrite ?filter_cells_truncate, ?ids_map_truncate;
      cbn [List.map]; rewrite ?Hi; reflexivity.
  - destruct (node_children root) as [cs|]; cbn [option_map]; [|reflexivity].
    induction cs as [|child cs IH]; [reflexivity|].
    cbn [List.map List.flat_map]. rewrite !List.map_app, IH, cellsOfChild_truncate.
    reflexivity.
Qed.

(** C6. Every cell [getAllCells] collects is a selected node, a child of
    one or a grandchild of one; and the result does not depend on anything
    further down: cutting every selected tree below its grandchildren
    leaves the collected cells (by id) the same, so a node three or more
    levels below a selected node is never collected through it. *)
Theorem collected_cells_within_two_levels :
  (forall selection c,
      In c (getAllCells selection) ->
      exists root, In root selection /\
        (c = root \/ In c (childrenOf root) \/
         exists child, In child (childrenOf root) /\ In c (childrenOf child))) /\
  (forall selection,
      List.map node_id (getAllCells (List.map (truncate 2) selection)) =
      List.map node_id (getAllCells selection)).
Proof.
  split.
  - intros selection c Hc.
    apply getAllCells_origin in Hc as [_ (root & Hroot & Hdepth)].
    exists root. split; [exact Hroot | exact Hdepth].
  - intros selection. unfold getAllCells.
    induction selection as [|root selection IH]; [reflexivity|].
    cbn [List.map List.flat_map]. rewrite !List.map_app, IH, cellsOfRoot_truncate.
    reflexivity.
Qed.

Lemma collected_cells_within_two_levels_witness :
  In (cellAt "a0" 0 0 "r0") (getAllCells [tableFrame]) /\
  exists root, In root [tableFrame] /\
    (cellAt "a0" 0 0 "r0" = root \/ In (cellAt "a0" 0 0 "r0") (childrenOf root) \/
     exists child, In child (childrenOf root) /\ In (cellAt "a0" 0 0 "r0") (childrenOf child)).
Proof.
  assert (In (cellAt "a0" 0 0 "r0") (getAllCells [tableFrame])) as Hin
    by (cbn; right; right; right; left; reflexivity).
  split; [exact Hin|].
  exact (proj1 collected_cells_within_two_levels _ _ Hin).
Defined.

Example cell_three_levels_down_not_collected :
  List.map node_id (getAllCells [deepFrame]) = ["near"].
Proof. reflexivity. Qed.

(** ** Row organiser *)

Section SortFacts.
Context {A : Type}.

Lemma sort_insert_perm (cmp : A -> A -> Z) (a : A) (l : list A) :
  Permutation (sort_insert cmp a l) (a :: l).
Proof.
  induction l as [|b l IH]; cbn; [reflexivity|].
  destruct (cmp a b <=? 0); [reflexivity|].
  rewrite IH. apply perm_swap.
Qed.

Lemma sort_perm (cmp : A -> A -> Z) (l : list A) : Permutation (sort cmp l) l.
Proof.
  induction l as [|a l IH]; cbn; [reflexivity|].
  rewrite sort_insert_perm, IH. reflexivity.
Qed.

Lemma sort_in (cmp : A -> A -> Z) (l : list A) (a : A) : In a (sort cmp l) <-> In a l.
Proof.
  split; apply Permutation_in; [|symmetry]; apply sort_perm.
Qed.

(** Two comparators that agree on the elements sort alike. *)
Lemma sort_insert_ext (cmp cmp' : A -> A -> Z) (a : A) (l : list A) :
  (forall b, In b l -> cmp a b = cmp' a b) ->
  sort_insert cmp a l = sort_insert cmp' a l.
Proof.
  induction l as [|b l IH]; intros H; cbn; [reflexivity|].
  rewrite (H b) by (left; reflexivity).
  rewrite IH by (intros c Hc; apply H; right; exact Hc).
  reflexivity.
Qed.

Lemma sort_ext (cmp cmp' : A -> A -> Z) (l : list A) :
  (forall a b, In a l -> In b l -> cmp a b = cmp' a b) ->
  sort cmp l = sort cmp' l.
Proof.
  induction l as [|a l IH]; intros H; cbn; [reflexivity|].
  rewrite IH by (intros b c Hb Hc; apply H; right; assumption).
  apply sort_insert_ext. intros b Hb. apply H; [left; reflexivity|].
  right. apply (sort_in cmp' l b), Hb.
Qed.

Variable key : A -> Z.

Lemma sort_insert_sorted (a : A) (l : list A) :
  StronglySorted (key_le key) l ->
  StronglySorted (key_le key) (sort_insert (by_key key) a l).
Proof.
  induction l as [|b l IH]; intros Hs; cbn.
  - constructor; constructor.
  - inversion Hs as [|? ? Hl Hb]; subst.
    rewrite List.Forall_forall in Hb.
    destruct (by_key key a b <=? 0) eqn:E.
    + apply Z.leb_le in E. unfold by_key in E.
      constructor; [exact Hs|].
      constructor; [unfold key_le; lia|].
      apply List.Forall_forall. intros c Hc. specialize (Hb c Hc).
      unfold key_le in *. lia.
    + apply Z.leb_gt in E. unfold by_key in E.
      constructor; [apply IH, Hl|].
      apply List.Forall_forall. intros c Hc.
      apply (Permutation_in _ (sort_insert_perm (by_key key) a l)) in Hc.
      destruct Hc as [<- | Hc]; [unfold key_le; lia|].
      apply Hb, Hc.
Qed.

Lemma sort_sorted (l : list A) : StronglySorted (key_le key) (sort (by_key key) l).
Proof.
  induction l as [|a l IH]; cbn; [constructor|].
  apply sort_insert_sorted, IH.
Qed.

Lemma sorted_lookup (l : list A) :
  StronglySorted (key_le key) l ->
  forall i j a b, (i <= j)%nat -> l !! i = Some a -> l !! j = Some b -> key a <= key b.
Proof.
  induction 1 as [|c l Hs IH Hall]; intros i j a b Hij Ha Hb.
  - discriminate.
  - rewrite List.Forall_forall in Hall.
    destruct i as [|i], j as [|j]; cbn in Ha, Hb.
    + assert (a = b) by congruence. subst. lia.
    + injection Ha as <-.
      apply Hall. apply list_elem_of_In. eapply list_elem_of_lookup_2, Hb.
    + lia.
    + eapply IH; [|exact Ha|exact Hb]. lia.
Qed.
End SortFacts.

Lemma rowMap_push_nonempty (parentId : string) (cell : Node)
    (rowMap : list (string * list Node)) :
  Forall (fun kv => snd kv <> []) rowMap ->
  Forall (fun kv => snd kv <> []) (rowMap_push parentId cell rowMap).
Proof.
  induction rowMap as [|[k rowCells] rest IH]; intros H; cbn.
  - constructor; [discriminate | constructor].
  - inversion H as [|? ? Hk Hrest]; subst.
    destruct (String.eqb k parentId).
    + constructor; [|exact Hrest]. cbn. destruct rowCells; discriminate.
    + constructor; [exact Hk | apply IH, Hrest].
Qed.

(** A row is created by the first cell pushed to it: no row is empty. *)
Lemma groupByParent_nonempty (cells : list Node) :
  Forall (fun kv => snd kv <> []) (groupByParent cells).
Proof.
  unfold groupByParent.
  assert (Forall (fun kv : string * list Node => snd kv <> []) []) as Hnil by constructor.
  revert Hnil. generalize (@nil (string * list Node)) as rowMap.
  induction cells as [|cell cells IH]; intros rowMap H; cbn; [exact H|].
  apply IH. destruct (node_parent cell); [apply rowMap_push_nonempty|]; exact H.
Qed.

Lemma compareRows_by_leadingY (rowA rowB : list Node) :
  rowA <> [] -> rowB <> [] -> compareRows rowA rowB = by_key leadingY rowA rowB.
Proof. destruct rowA, rowB; intros; try contradiction; reflexivity. Qed.

(** The rows before [rows.sort]: each a group sorted by x, none empty. *)
Lemma sorted_groups (cells : list Node) (row : list Node) :
  In row (List.map (fun kv => sort compareX (snd kv)) (groupByParent cells)) ->
  row <> [] /\ StronglySorted (key_le node_x) row.
Proof.
  intros H. apply in_map_iff in H as ([k g] & <- & Hin). cbn. split.
  - pose proof (groupByParent_nonempty cells) as Hne.
    rewrite List.Forall_forall in Hne. specialize (Hne _ Hin). cbn in Hne.
    intros Hnil. apply Hne. apply Permutation_nil.
    rewrite <- Hnil. apply sort_perm.
  - apply (sort_sorted node_x).
Qed.

(** C4. In the output of [organizeCellsIntoRows] the cells of each row are
    in non-decreasing order of x, and the rows, none of which is empty, are
    in non-decreasing order of the y of their first cell. *)
Theorem rows_sorted_by_x_and_leading_y :
  forall cells,
    let rows := organizeCellsIntoRows cells in
    (forall row, In row rows ->
       row <> [] /\
       forall i j a b, (i <= j)%nat -> row !! i = Some a -> row !! j = Some b ->
                       node_x a <= node_x b) /\
    (forall i j rowA rowB a b,
       (i <= j)%nat -> rows !! i = Some rowA -> rows !! j = Some rowB ->
       head rowA = Some a -> head rowB = Some b -> node_y a <= node_y b).
Proof.
  intros cells rows. subst rows. unfold organizeCellsIntoRows.
  set (groups := List.map (fun kv => sort compareX (snd kv)) (groupByParent cells)).
  assert (forall row, In row groups -> row <> [] /\ StronglySorted (key_le node_x) row)
    as Hgroups by (intros row; apply sorted_groups).
  split.
  - intros row Hrow. apply sort_in in Hrow.
    destruct (Hgroups row Hrow) as [Hne Hs]. split; [exact Hne|].
    apply (sorted_lookup node_x), Hs.
  - intros i j rowA rowB a b Hij HA HB Ha Hb.
    rewrite (sort_ext compareRows (by_key leadingY)) in HA, HB
      by (intros r1 r2 H1 H2; apply compareRows_by_leadingY; apply Hgroups; assumption).
    pose proof (sorted_lookup leadingY _ (sort_sorted leadingY groups) i j rowA rowB Hij HA HB) as Hle.
    destruct rowA, rowB; cbn in Ha, Hb; try discriminate.
    injection Ha as ->. injection Hb as ->. exact Hle.
Qed.

Lemma rows_sorted_by_x_and_leading_y_witness :
  List.map (List.map node_id) (organizeCellsIntoRows (getAllCells [tableFrame])) =
    [["a0"; "a1"]; ["b0"; "b1"]] /\
  node_x (cellAt "a0" 0 0 "r0") <= node_x (cellAt "a1" 100 0 "r0") /\
  node_y (cellAt "a0" 0 0 "r0") <= node_y (cellAt "b0" 0 40 "r1").
Proof.
  pose proof (rows_sorted_by_x_and_leading_y (getAllCells [tableFrame])) as [Hx Hy].
  split; [reflexivity|]. split.
  - refine (proj2 (Hx [cellAt "a0" 0 0 "r0"; cellAt "a1" 100 0 "r0"] _)
              0%nat 1%nat _ _ _ _ _); [left; reflexivity | lia | reflexivity | reflexivity].
  - refine (Hy 0%nat 1%nat
              [cellAt "a0" 0 0 "r0"; cellAt "a1" 100 0 "r0"]
              [cellAt "b0" 0 40 "r1"; cellAt "b1" 100 40 "r1"] _ _ _ _ _ _ _);
      [lia | reflexivity | reflexivity | reflexivity | reflexivity].
Defined.

(** ** Populator *)

Section PopulateFacts.
Variable toText : Value -> string.

(** The inner loop as a trace: the store is the writes over the visited
    pairs, the counter grows by the visited cells that have a slot. *)
Lemma populateRow_trace (rowCells : list Node) (rowData : list Value) (st : Store * nat) :
  populateRow toText rowCells rowData st =
  (fold_left (applyWrite toText) (visitedRow rowCells rowData) (fst st),
   (snd st + length (List.filter hasValueSlot (List.map fst (visitedRow rowCells rowData))))%nat).
Proof.
  revert rowData st.
  induction rowCells as [|cell rowCells IH]; intros [|v rowData] [store n]; cbn;
    try (f_equal; lia).
  rewrite IH. unfold writeCell, applyWrite, hasValueSlot. cbn.
  destruct (findValueLayer cell); cbn; f_equal; lia.
Qed.

Lemma populateRows_trace (rows : list (list Node)) (dataRows : list (list Value))
    (st : Store * nat) :
  populateRows toText rows dataRows st =
  (fold_left (applyWrite toText) (visited rows dataRows) (fst st),
   (snd st + length (List.filter hasValueSlot (List.map fst (visited rows dataRows))))%nat).
Proof.
  revert dataRows st.
  induction rows as [|rowCells rows IH]; intros [|rowData dataRows] [store n]; cbn;
    try (f_equal; lia).
  rewrite IH, populateRow_trace. cbn.
  rewrite fold_left_app, List.map_app, List.filter_app, List.length_app.
  f_equal. lia.
Qed.
End PopulateFacts.

Lemma filter_complement_length {A : Type} (f : A -> bool) (l : list A) :
  (length (List.filter f l) + length (List.filter (fun a => negb (f a)) l) = length l)%nat.
Proof.
  induction l as [|a l IH]; cbn; [reflexivity|].
  destruct (f a); cbn; lia.
Qed.

Lemma visitedRow_length (rowCells : list Node) (rowData : list Value) :
  length (visitedRow rowCells rowData) = Nat.min (length rowCells) (length rowData).
Proof.
  revert rowData. induction rowCells as [|c cs IH]; intros [|v vs]; cbn; auto.
Qed.

Lemma visited_length (rows : list (list Node)) (dataRows : list (list Value)) :
  length (visited rows dataRows) = overlapSize rows dataRows.
Proof.
  unfold overlapSize, list_sum. revert dataRows.
  induction rows as [|r rows IH]; intros [|d dataRows];
    cbn [visited zip_with fold_right]; try reflexivity.
  rewrite List.length_app, visitedRow_length, IH. reflexivity.
Qed.

Lemma overlapSize_le (rows : list (list Node)) (dataRows : list (list Value)) :
  (overlapSize rows dataRows <= Nat.min (total rows) (total dataRows))%nat.
Proof.
  unfold overlapSize, total, list_sum. revert dataRows.
  induction rows as [|r rows IH]; intros [|d dataRows];
    cbn [zip_with List.map fold_right]; try lia.
  specialize (IH dataRows). lia.
Qed.

(** C1 (amended). [populate] visits the cells that the rows and the data
    rows have in common position by position, writes once for each visited
    cell that has a value slot, and returns the number of visited cells
    minus the visited cells without a slot; the visited cells, and so the
    writes and the count, are at most min(total cells, total data values). *)
Theorem update_count_is_overlap_minus_unresolved :
  forall rows data store,
    let dataRows := convertObjectsTo2DArray data in
    let overlap := List.map fst (visited rows dataRows) in
    let updatedCount := snd (populate rows data store) in
    fst (populate rows data store) = fold_left (applyWrite cellText) (visited rows dataRows) store /\
    length overlap = overlapSize rows dataRows /\
    updatedCount = (length overlap - length (unresolved overlap))%nat /\
    (length overlap <= Nat.min (total rows) (total dataRows))%nat /\
    (updatedCount <= Nat.min (total rows) (total dataRows))%nat.
Proof.
  intros rows data store dataRows overlap updatedCount.
  subst updatedCount overlap. unfold populate. fold dataRows.
  rewrite populateRows_trace. cbn [fst snd].
  pose proof (filter_complement_length hasValueSlot (List.map fst (visited rows dataRows))) as Hsplit.
  pose proof (overlapSize_le rows dataRows) as Hle.
  assert (length (List.map fst (visited rows dataRows)) = overlapSize rows dataRows) as Hlen
    by (rewrite List.length_map; apply visited_length).
  unfold unresolved.
  repeat split; lia.
Qed.

(** C1 as stated fails: two cells in one row, both with a value slot, and
    two records of one field give min(2, 3) = 2 (and 2 when the header is
    not counted), yet only the first cell is visited and the count is 1. *)
Lemma update_count_differs_from_min_of_totals :
  let rows := organizeCellsIntoRows (getAllCells [pairRow]) in
  let data := DArray [[("A", VNum 1)]; [("A", VNum 2)]] in
  total rows = 2%nat /\
  total (convertObjectsTo2DArray data) = 3%nat /\
  unresolved (concat rows) = [] /\
  snd (populate rows data scenarioStore) = 1%nat /\
  snd (populate rows data scenarioStore) <>
    (Nat.min (total rows) (total (convertObjectsTo2DArray data))
     - length (unresolved (concat rows)))%nat.
Proof. cbv zeta. repeat split; try reflexivity. vm_compute. discriminate. Qed.

Lemma visitedRow_same_length (rowCells : list Node) (rowData : list Value) :
  length rowCells = length rowData ->
  List.map fst (visitedRow rowCells rowData) = rowCells.
Proof.
  revert rowData. induction rowCells as [|c cs IH]; intros [|v vs] H; cbn in *;
    try discriminate; [reflexivity|].
  f_equal. apply IH. lia.
Qed.

Lemma visited_same_shape (rows : list (list Node)) (dataRows : list (list Value)) :
  matchesDataRows rows dataRows ->
  List.map fst (visited rows dataRows) = concat rows /\ total rows = total dataRows.
Proof.
  unfold total, list_sum.
  induction 1 as [|row rowData rows dataRows Hlen Hrest [IHcells IHtotal]];
    cbn [visited concat List.map fold_right]; [split; reflexivity|].
  rewrite List.map_app, visitedRow_same_length, IHcells by exact Hlen.
  split; [reflexivity | lia].
Qed.

Lemma total_concat {A : Type} (rows : list (list A)) : total rows = length (concat rows).
Proof.
  unfold total, list_sum. induction rows as [|r rows IH]; cbn [concat List.map fold_right];
    [reflexivity|].
  rewrite List.length_app, IH. reflexivity.
Qed.

(** When the table has the shape of the data rows every cell is visited,
    and the count is the number of cells, which is also the number of
    values, minus the unresolved cells. *)
Lemma update_count_matching_shapes (rows : list (list Node)) (data : Data) (store : Store) :
  matchesDataRows rows (convertObjectsTo2DArray data) ->
  total rows = total (convertObjectsTo2DArray data) /\
  snd (populate rows data store) = (total rows - length (unresolved (concat rows)))%nat.
Proof.
  intros Hshape. apply visited_same_shape in Hshape as [Hcells Htotal].
  split; [exact Htotal|].
  unfold populate. rewrite populateRows_trace, Hcells. cbn [snd].
  pose proof (filter_complement_length hasValueSlot (concat rows)) as Hsplit.
  rewrite total_concat. unfold unresolved. lia.
Qed.

Lemma get_own_values (obj : JsObject) :
  NoDup (Object_keys obj) -> List.map (get obj) (Object_keys obj) = List.map snd obj.
Proof.
  unfold Object_keys.
  induction obj as [|[k v] obj IH]; intros Hnd; cbn; [reflexivity|].
  inversion Hnd as [|? ? Hk Hrest]; subst.
  rewrite String.eqb_refl. f_equal.
  rewrite <- IH by exact Hrest.
  apply List.map_ext_in. intros key Hkey.
  destruct (String.eqb k key) eqn:E; [|reflexivity].
  apply String.eqb_eq in E. subst key.
  exfalso. apply Hk, list_elem_of_In, Hkey.
Qed.

Lemma get_missing (obj : JsObject) (key : string) :
  ~ In key (Object_keys obj) -> get obj key = inherited key.
Proof.
  unfold Object_keys. induction obj as [|[k v] obj IH]; intros H; cbn; [reflexivity|].
  destruct (String.eqb k key) eqn:E.
  - apply String.eqb_eq in E. subst k. exfalso. apply H. left. reflexivity.
  - apply IH. intros Hin. apply H. right. exact Hin.
Qed.

(** ** Records: the order of the field names *)

Lemma hasOwn_false (obj : JsObject) (key : string) :
  hasOwn obj key = false <-> ~ In key (Object_keys obj).
Proof.
  unfold hasOwn, Object_keys. split.
  - intros H Hin. apply in_map_iff in Hin as ([k w] & Hfst & Hin). cbn in Hfst. subst k.
    assert (existsb (fun kv => String.eqb (fst kv) key) obj = true) as Habs; [|congruence].
    apply existsb_exists. exists (key, w). split; [exact Hin | apply String.eqb_refl].
  - intros H. destruct (existsb _ obj) eqn:E; [|reflexivity].
    apply existsb_exists in E as ([k w] & Hin & Heq). cbn in Heq.
    apply String.eqb_eq in Heq. subst k. exfalso. apply H.
    apply in_map_iff. exists (key, w). split; [reflexivity | exact Hin].
Qed.

Lemma arrayIndex_decimal (key : string) (n : N) :
  arrayIndex key = Some n -> JS.decimalN n = key.
Proof.
  unfold arrayIndex. destruct key as [|c key]; [discriminate|].
  destruct (parseDigits (String c key) 0) as [m|]; [|discriminate].
  destruct ((m <? 4294967295)%N && String.eqb (JS.decimalN m) (String c key)) eqn:E;
    [|discriminate].
  intros H. injection H as <-. apply andb_true_iff in E as [_ E].
  apply String.eqb_eq. exact E.
Qed.

Lemma indexOfKey_inj (a b : string) :
  isArrayIndex a = true -> isArrayIndex b = true -> indexOfKey a = indexOfKey b -> a = b.
Proof.
  unfold isArrayIndex, indexOfKey.
  destruct (arrayIndex a) as [n|] eqn:Ea; [|discriminate].
  destruct (arrayIndex b) as [m|] eqn:Eb; [|discriminate].
  intros _ _ ->. apply arrayIndex_decimal in Ea, Eb. congruence.
Qed.

Lemma sorted_insert_middle (front back : list string) (key : string) :
  StronglySorted indexBefore (front ++ back) ->
  Forall (fun a => indexBefore a key) front ->
  Forall (fun b => indexBefore key b) back ->
  StronglySorted indexBefore (front ++ key :: back).
Proof.
  induction front as [|a front IH]; intros Hs Hf Hb; cbn [app] in *.
  - constructor; assumption.
  - apply StronglySorted_inv in Hs as [Hs Ha].
    apply List.Forall_cons_iff in Hf as [Hak Hf'].
    constructor; [apply IH; assumption|].
    apply Forall_app in Ha as [Ha1 Ha2].
    apply Forall_app. split; [exact Ha1|]. constructor; [exact Hak | exact Ha2].
Qed.

(** Where [insertIndex] puts a new array index among the names of an
    object whose array indices come first in ascending order. *)
Lemma insertIndex_keys (n : N) (key : string) (v : Value) (obj : JsObject)
    (indices others : list string) :
  arrayIndex key = Some n ->
  Object_keys obj = indices ++ others ->
  Forall (fun a => isArrayIndex a = true) indices ->
  StronglySorted indexBefore indices ->
  Forall (fun a => isArrayIndex a = false) others ->
  ~ In key indices ->
  exists front back,
    indices = front ++ back /\
    Object_keys (insertIndex n key v obj) = (front ++ key :: back) ++ others /\
    Forall (fun a => indexBefore a key) front /\
    Forall (fun b => indexBefore key b) back.
Proof.
  intros Hkey. assert (indexOfKey key = n) as Hn by (unfold indexOfKey; rewrite Hkey; reflexivity).
  assert (isArrayIndex key = true) as Hidx by (unfold isArrayIndex; rewrite Hkey; reflexivity).
  revert indices. induction obj as [|[k w] obj IH]; intros indices Hkeys Hall Hs Hoth Hnew.
  - cbn in Hkeys. symmetry in Hkeys. apply app_eq_nil in Hkeys as [-> ->].
    exists [], []. repeat split; constructor.
  - cbn [Object_keys List.map fst] in Hkeys. cbn [insertIndex].
    destruct indices as [|a indices].
    + cbn [app] in Hkeys. subst others. apply List.Forall_cons_iff in Hoth as [Hk Hoth'].
      unfold isArrayIndex in Hk. destruct (arrayIndex k); [discriminate|].
      exists [], []. repeat split; constructor.
    + cbn [app] in Hkeys. injection Hkeys as -> Hkeys.
      apply List.Forall_cons_iff in Hall as [Ha Hall'].
      apply StronglySorted_inv in Hs as [Hs Hlt].
      pose proof Ha as Ha'. unfold isArrayIndex in Ha'.
      destruct (arrayIndex a) as [m|] eqn:Em; [|discriminate].
      assert (indexOfKey a = m) as Hm by (unfold indexOfKey; rewrite Em; reflexivity).
      destruct (m <? n)%N eqn:Elt.
      * destruct (IH indices Hkeys Hall' Hs Hoth) as (front & back & -> & Hk & Hf & Hb).
        { intros Hin. apply Hnew. right. exact Hin. }
        exists (a :: front), back. split; [reflexivity|]. split.
        { cbn [Object_keys List.map fst app]. f_equal. exact Hk. }
        split; [|exact Hb]. constructor; [|exact Hf].
        unfold indexBefore. rewrite Hm, Hn. apply N.ltb_lt. exact Elt.
      * exists [], (a :: indices). split; [reflexivity|]. split.
        { cbn [Object_keys List.map fst app]. f_equal. f_equal. exact Hkeys. }
        split; [constructor|].
        apply N.ltb_ge in Elt.
        assert (indexBefore key a) as Hka.
        { unfold indexBefore. rewrite Hm, Hn.
          destruct (N.eq_dec n m) as [Heq|Hne]; [|lia].
          exfalso. apply Hnew. left. apply indexOfKey_inj; [exact Ha | exact Hidx | congruence]. }
        constructor; [exact Hka|].
        eapply List.Forall_impl; [|exact Hlt].
        intros b Hb. unfold indexBefore in *. lia.
Qed.

(** One member added to an object that does not have it yet. *)
Lemma setProperty_new_keys (obj : JsObject) (key : string) (v : Value)
    (indices others : list string) :
  Object_keys obj = indices ++ others ->
  Forall (fun a => isArrayIndex a = true) indices ->
  StronglySorted indexBefore indices ->
  Forall (fun a => isArrayIndex a = false) others ->
  ~ In key (Object_keys obj) ->
  exists indices' others',
    Object_keys (setProperty obj key v) = indices' ++ others' /\
    Forall (fun a => isArrayIndex a = true) indices' /\
    StronglySorted indexBefore indices' /\
    Forall (fun a => isArrayIndex a = false) others' /\
    Permutation indices' (indices ++ List.filter isArrayIndex [key]) /\
    others' = others ++ List.filter (fun k => negb (isArrayIndex k)) [key].
Proof.
  intros Hkeys Hall Hs Hoth Hnew.
  unfold setProperty. rewrite (proj2 (hasOwn_false obj key) Hnew).
  cbn [List.filter].
  assert (isArrayIndex key = match arrayIndex key with Some _ => true | None => false end)
    as Eidx by reflexivity.
  destruct (arrayIndex key) as [n|] eqn:Ekey; rewrite Eidx; cbn [negb].
  - destruct (insertIndex_keys n key v obj indices others Ekey Hkeys Hall Hs Hoth)
      as (front & back & -> & Hk & Hf & Hb).
    { intros Hin. apply Hnew. rewrite Hkeys. apply in_or_app. left. exact Hin. }
    exists (front ++ key :: back), others. split; [exact Hk|].
    split.
    { apply Forall_app in Hall as [H1 H2]. apply Forall_app. split; [exact H1|].
      constructor; [|exact H2]. unfold isArrayIndex. rewrite Ekey. reflexivity. }
    split; [apply sorted_insert_middle; assumption|].
    split; [exact Hoth|]. split; [|rewrite app_nil_r; reflexivity].
    rewrite <- Permutation_middle.
    rewrite (Permutation_app_comm (front ++ back) [key]). reflexivity.
  - exists indices, (others ++ [key]). split.
    { unfold Object_keys in *. rewrite List.map_app, Hkeys, <- app_assoc. reflexivity. }
    split; [exact Hall|]. split; [exact Hs|]. split.
    { apply Forall_app. split; [exact Hoth|]. constructor; [|constructor].
      unfold isArrayIndex. rewrite Ekey. reflexivity. }
    split; [rewrite app_nil_r; reflexivity | reflexivity].
Qed.

Lemma setProperty_new_perm (obj : JsObject) (key : string) (v : Value) :
  ~ In key (Object_keys obj) ->
  Permutation (Object_keys (setProperty obj key v)) (key :: Object_keys obj).
Proof.
  intros Hnew. unfold setProperty. rewrite (proj2 (hasOwn_false obj key) Hnew).
  destruct (arrayIndex key) as [n|].
  - clear Hnew. induction obj as [|[k w] obj IH]; cbn [insertIndex]; [reflexivity|].
    destruct (arrayIndex k) as [m|]; [|reflexivity].
    destruct (m <? n)%N; [|reflexivity].
    cbn [Object_keys List.map fst] in *. rewrite IH. apply perm_swap.
  - unfold Object_keys. rewrite List.map_app. cbn. symmetry. apply Permutation_cons_append.
Qed.

Lemma objectOf_keys_from (members : list (string * Value)) (obj : JsObject)
    (indices others : list string) :
  Object_keys obj = indices ++ others ->
  Forall (fun a => isArrayIndex a = true) indices ->
  StronglySorted indexBefore indices ->
  Forall (fun a => isArrayIndex a = false) others ->
  List.NoDup (Object_keys obj ++ List.map fst members) ->
  exists indices',
    Object_keys (fold_left (fun obj kv => setProperty obj (fst kv) (snd kv)) members obj) =
      indices' ++ (others ++ List.filter (fun k => negb (isArrayIndex k)) (List.map fst members)) /\
    Permutation indices' (indices ++ List.filter isArrayIndex (List.map fst members)) /\
    StronglySorted indexBefore indices'.
Proof.
  revert obj indices others.
  induction members as [|[key v] members IH]; intros obj indices others Hkeys Hall Hs Hoth Hnd.
  - exists indices. cbn. rewrite !app_nil_r. split; [exact Hkeys|]. split; [reflexivity | exact Hs].
  - cbn [fold_left fst snd List.map].
    assert (~ In key (Object_keys obj)) as Hnew.
    { cbn [List.map fst] in Hnd. apply List.NoDup_remove_2 in Hnd.
      intros Hin. apply Hnd. apply in_or_app. left. exact Hin. }
    destruct (setProperty_new_keys obj key v indices others Hkeys Hall Hs Hoth Hnew)
      as (indices1 & others1 & Hkeys1 & Hall1 & Hs1 & Hoth1 & Hperm1 & ->).
    destruct (IH (setProperty obj key v) indices1 _ Hkeys1 Hall1 Hs1 Hoth1)
      as (indices' & Hk & Hperm & Hsorted).
    { eapply Permutation_NoDup; [|exact Hnd].
      cbn [List.map fst]. rewrite (setProperty_new_perm obj key v Hnew).
      cbn [app]. symmetry. apply Permutation_middle. }
    exists indices'. split; [|split; [|exact Hsorted]].
    + rewrite Hk. f_equal. rewrite <- app_assoc. f_equal.
      cbn [List.filter]. destruct (isArrayIndex key); reflexivity.
    + rewrite Hperm, Hperm1. rewrite <- app_assoc. apply Permutation_app_head.
      cbn [List.filter]. destruct (isArrayIndex key); reflexivity.
Qed.

(** The names of a record built from members of distinct names: the array
    indices in ascending order, then the other names as the members have
    them. *)
Lemma objectOf_keys (members : list (string * Value)) :
  List.NoDup (List.map fst members) ->
  exists indices,
    Permutation indices (List.filter isArrayIndex (List.map fst members)) /\
    StronglySorted indexBefore indices /\
    Object_keys (objectOf members) =
      indices ++ List.filter (fun k => negb (isArrayIndex k)) (List.map fst members).
Proof.
  intros Hnd.
  destruct (objectOf_keys_from members [] [] [] eq_refl (List.Forall_nil _)
              (SSorted_nil _) (List.Forall_nil _) Hnd) as (indices & Hk & Hperm & Hs).
  exists indices. split; [exact Hperm|]. split; [exact Hs | exact Hk].
Qed.

Lemma filter_all {A : Type} (f : A -> bool) (l : list A) :
  Forall (fun a => f a = true) l -> List.filter f l = l.
Proof.
  induction 1 as [|a l Ha _ IH]; cbn; [reflexivity|]. rewrite Ha, IH. reflexivity.
Qed.

Lemma filter_none {A : Type} (f : A -> bool) (l : list A) :
  Forall (fun a => f a = false) l -> List.filter f l = [].
Proof.
  induction 1 as [|a l Ha _ IH]; cbn; [reflexivity|]. rewrite Ha, IH. reflexivity.
Qed.

Lemma objectOf_keys_insertion_order (members : list (string * Value)) :
  List.NoDup (List.map fst members) ->
  Forall (fun k => isArrayIndex k = false) (List.map fst members) ->
  Object_keys (objectOf members) = List.map fst members.
Proof.
  intros Hnd Hno. destruct (objectOf_keys members Hnd) as (indices & Hperm & _ & ->).
  rewrite (filter_none _ _ Hno) in Hperm. apply Permutation_nil_r in Hperm. subst indices.
  cbn [app]. apply filter_all.
  eapply List.Forall_impl; [|exact Hno]. intros k Hk. cbn. rewrite Hk. reflexivity.
Qed.

(** A record written with distinct names, none an array index, is the
    list of its members as written: such are the records the generators
    build. *)
Lemma objectOf_literal_from (members : list (string * Value)) (obj : JsObject) :
  List.NoDup (Object_keys obj ++ List.map fst members) ->
  Forall (fun k => isArrayIndex k = false) (List.map fst members) ->
  fold_left (fun obj kv => setProperty obj (fst kv) (snd kv)) members obj = obj ++ members.
Proof.
  revert obj. induction members as [|[key v] members IH]; intros obj Hnd Hno.
  - rewrite app_nil_r. reflexivity.
  - cbn [List.map fst] in Hnd, Hno. apply List.Forall_cons_iff in Hno as [Hkey Hno].
    cbn [fold_left fst snd].
    assert (setProperty obj key v = obj ++ [(key, v)]) as ->.
    { unfold setProperty. rewrite (proj2 (hasOwn_false obj key)).
      - unfold isArrayIndex in Hkey. destruct (arrayIndex key); [discriminate | reflexivity].
      - apply List.NoDup_remove_2 in Hnd. intros Hin. apply Hnd, in_or_app. left. exact Hin. }
    rewrite IH; [rewrite <- app_assoc; reflexivity | | exact Hno].
    unfold Object_keys in *. rewrite List.map_app, <- app_assoc. exact Hnd.
Qed.

Lemma objectOf_literal (members : list (string * Value)) :
  List.NoDup (List.map fst members) ->
  Forall (fun k => isArrayIndex k = false) (List.map fst members) ->
  objectOf members = members.
Proof. intros Hnd Hno. exact (objectOf_literal_from members [] Hnd Hno). Qed.

(** ** Records: the value of a field *)

Lemma get_new_member (front back : JsObject) (k key : string) (v : Value) :
  hasOwn front k = false ->
  get (front ++ (k, v) :: back) key = if String.eqb k key then v else get (front ++ back) key.
Proof.
  induction front as [|[k' w] front IH]; intros Hown; [reflexivity|].
  cbn [hasOwn existsb fst] in Hown. apply orb_false_iff in Hown as [Ek Hown].
  cbn [app get]. destruct (String.eqb k' key) eqn:Ekey; [|apply IH, Hown].
  destruct (String.eqb k key) eqn:E; [|reflexivity].
  apply String.eqb_eq in E, Ekey. subst. rewrite String.eqb_refl in Ek. discriminate.
Qed.

Lemma insertIndex_split (n : N) (key : string) (v : Value) (obj : JsObject) :
  exists front back, obj = front ++ back /\ insertIndex n key v obj = front ++ (key, v) :: back.
Proof.
  induction obj as [|[k w] obj (front & back & Hobj & Hins)]; cbn [insertIndex].
  - exists [], []. split; reflexivity.
  - destruct (arrayIndex k) as [m|]; [destruct (m <? n)%N|].
    + exists ((k, w) :: front), back. cbn [app]. rewrite Hins, <- Hobj. split; reflexivity.
    + exists [], ((k, w) :: obj). split; reflexivity.
    + exists [], ((k, w) :: obj). split; reflexivity.
Qed.

Lemma hasOwn_app (front back : JsObject) (key : string) :
  hasOwn (front ++ back) key = hasOwn front key || hasOwn back key.
Proof. unfold hasOwn. apply existsb_app. Qed.

(** After [obj[k] = v], [obj[k]] is [v] and every other field reads as
    before. *)
Lemma get_setProperty (obj : JsObject) (k key : string) (v : Value) :
  get (setProperty obj k v) key = if String.eqb k key then v else get obj key.
Proof.
  unfold setProperty. destruct (hasOwn obj k) eqn:Hown.
  - induction obj as [|[k' w] obj IH]; [discriminate|].
    cbn [hasOwn existsb fst] in Hown. cbn [overwrite].
    destruct (String.eqb k' k) eqn:Ek.
    + apply String.eqb_eq in Ek. subst k'. cbn [get].
      destruct (String.eqb k key); reflexivity.
    + cbn [get]. destruct (String.eqb k' key) eqn:Ekey; [|apply IH, Hown].
      destruct (String.eqb k key) eqn:E; [|reflexivity].
      apply String.eqb_eq in E, Ekey. subst. rewrite String.eqb_refl in Ek. discriminate.
  - destruct (arrayIndex k) as [n|].
    + destruct (insertIndex_split n k v obj) as (front & back & -> & ->).
      rewrite hasOwn_app in Hown. apply orb_false_iff in Hown as [Hown _].
      apply get_new_member, Hown.
    + rewrite (get_new_member obj [] k key v Hown), app_nil_r. reflexivity.
Qed.

Lemma get_objectOf_from (members : list (string * Value)) (obj : JsObject) (key : string) :
  List.NoDup (List.map fst members) ->
  get (fold_left (fun obj kv => setProperty obj (fst kv) (snd kv)) members obj) key =
  if hasOwn members key then get members key else get obj key.
Proof.
  revert obj. induction members as [|[k w] members IH]; intros obj Hnd; [reflexivity|].
  cbn [List.map fst] in Hnd. apply List.NoDup_cons_iff in Hnd as [Hk Hnd].
  cbn [fold_left fst snd]. rewrite (IH _ Hnd), get_setProperty.
  cbn [hasOwn existsb fst get]. fold (hasOwn members key).
  destruct (String.eqb k key) eqn:E; [|reflexivity].
  apply String.eqb_eq in E. subst k.
  rewrite (proj2 (hasOwn_false members key) Hk). reflexivity.
Qed.

Lemma get_hasOwn_false (obj : JsObject) (key : string) :
  hasOwn obj key = false -> get obj key = inherited key.
Proof. intros H. apply get_missing, hasOwn_false, H. Qed.

(** A record built from members of distinct names reads each field as
    the member list has it. *)
Lemma get_objectOf (members : list (string * Value)) (key : string) :
  List.NoDup (List.map fst members) -> get (objectOf members) key = get members key.
Proof.
  intros Hnd. unfold objectOf. rewrite (get_objectOf_from members [] key Hnd).
  destruct (hasOwn members key) eqn:E; [reflexivity|].
  rewrite (get_hasOwn_false members key E). reflexivity.
Qed.

Lemma get_own_values_list (obj : JsObject) :
  List.NoDup (Object_keys obj) -> List.map (get obj) (Object_keys obj) = List.map snd obj.
Proof.
  intros H. apply get_own_values, NoDup_ListNoDup, H.
Qed.

(** C2 (amended). For a dataset with at least one record the
    two-dimensional array starts with the field names of the first record
    in the order [Object.keys] lists them, followed by one row per record
    holding that record's value for each of those names, in that order.
    For a record built from members of distinct names that order is: the
    names that are array indices, in ascending numeric order, then the
    other names in the order of insertion; so the header is in insertion
    order when no field name of the first record is an array index. In
    the scenario of one row container with three cells at x = 0, 120, 240
    and the dataset [{A: x, B: y, C: z}], the three value slots read A, B,
    C afterwards and the count is 3. *)
Theorem conversion_header_in_key_order_and_scenario :
  (forall first rest,
      convertObjectsTo2DArray (DArray (first :: rest)) =
      List.map VStr (Object_keys first)
      :: List.map (fun obj => List.map (get obj) (Object_keys first)) (first :: rest)) /\
  (forall members,
      List.NoDup (List.map fst members) ->
      exists indices,
        Permutation indices (List.filter isArrayIndex (List.map fst members)) /\
        StronglySorted indexBefore indices /\
        Object_keys (objectOf members) =
          indices ++ List.filter (fun k => negb (isArrayIndex k)) (List.map fst members)) /\
  (forall first rest,
      Forall (fun members => List.NoDup (List.map fst members)) (first :: rest) ->
      Forall (fun k => isArrayIndex k = false) (List.map fst first) ->
      convertObjectsTo2DArray (DArray (List.map objectOf (first :: rest))) =
      List.map VStr (List.map fst first)
      :: List.map (fun members => List.map (get members) (List.map fst first)) (first :: rest) /\
      List.map (get first) (List.map fst first) = List.map snd first) /\
  (let result := populateTable scenarioData [scenarioRow] scenarioStore in
   scenarioData = DArray [objectOf [("A", VStr "x"); ("B", VStr "y"); ("C", VStr "z")]] /\
   organizeCellsIntoRows (getAllCells [scenarioRow]) =
     [[cellAt "c0" 0 0 "row"; cellAt "c1" 120 0 "row"; cellAt "c2" 240 0 "row"]] /\
   List.map (readBack (fst result))
     [cellAt "c0" 0 0 "row"; cellAt "c1" 120 0 "row"; cellAt "c2" 240 0 "row"] =
     [Some "A"; Some "B"; Some "C"] /\
   snd result = Updated 3 "cells with data").
Proof.
  split; [|split; [|split]].
  - intros first rest. reflexivity.
  - apply objectOf_keys.
  - intros first rest Hnd Hno.
    pose proof (proj1 (List.Forall_cons_iff _ _ _) Hnd) as [Hfirst _].
    split; [|apply get_own_values_list, Hfirst].
    assert (forall records,
               Forall (fun members => List.NoDup (List.map fst members)) records ->
               List.map (fun obj => List.map (get obj) (List.map fst first))
                 (List.map objectOf records) =
               List.map (fun members => List.map (get members) (List.map fst first)) records)
      as Hrows.
    { intros records Hall. rewrite List.map_map. apply List.map_ext_in.
      rewrite List.Forall_forall in Hall. intros members Hin.
      apply List.map_ext. intros key. apply get_objectOf, Hall, Hin. }
    rewrite <- (Hrows (first :: rest) Hnd).
    unfold convertObjectsTo2DArray. cbn [List.map].
    rewrite (objectOf_keys_insertion_order first Hfirst Hno). reflexivity.
  - cbv zeta. split; [reflexivity|]. split; [reflexivity|]. split; vm_compute; reflexivity.
Qed.

Lemma conversion_header_in_key_order_and_scenario_witness :
  let first := [("name", VStr "Ada"); ("age", VNum 36)] in
  let rest := [[("age", VNum 41); ("name", VStr "Alan")]] in
  Forall (fun members => List.NoDup (List.map fst members)) (first :: rest) /\
  Forall (fun k => isArrayIndex k = false) (List.map fst first) /\
  convertObjectsTo2DArray (DArray (List.map objectOf (first :: rest))) =
    [[VStr "name"; VStr "age"]; [VStr "Ada"; VNum 36]; [VStr "Alan"; VNum 41]].
Proof.
  cbv zeta.
  assert (Forall (fun members => List.NoDup (List.map fst members))
            [[("name", VStr "Ada"); ("age", VNum 36)]; [("age", VNum 41); ("name", VStr "Alan")]])
    as Hnd.
  { repeat constructor; cbn; intros H; repeat destruct H as [H | H]; try discriminate; exact H. }
  assert (Forall (fun k => isArrayIndex k = false)
            (List.map fst [("name", VStr "Ada"); ("age", VNum 36)])) as Hno
    by (repeat constructor).
  split; [exact Hnd|]. split; [exact Hno|].
  exact (proj1 (proj1 (proj2 (proj2 conversion_header_in_key_order_and_scenario)) _ _ Hnd Hno)).
Defined.

(** C2 as stated fails: a first record built by inserting the fields b,
    2, 1 in this order gives the header 1, 2, b, and the rows follow that
    order. *)
Lemma header_lists_array_indices_first :
  let members := [("b", VStr "x"); ("2", VStr "y"); ("1", VStr "z")] in
  List.NoDup (List.map fst members) /\
  convertObjectsTo2DArray (DArray [objectOf members]) =
    [[VStr "1"; VStr "2"; VStr "b"]; [VStr "z"; VStr "y"; VStr "x"]] /\
  List.hd_error (convertObjectsTo2DArray (DArray [objectOf members])) <>
    Some (List.map VStr (List.map fst members)).
Proof.
  cbv zeta. split; [|split].
  - repeat constructor; cbn; intros H; repeat destruct H as [H | H]; try discriminate; exact H.
  - vm_compute. reflexivity.
  - vm_compute. discriminate.
Qed.

Example scenario_row_as_instance :
  let result := populateTable scenarioData [scenarioRowInstance] scenarioStore in
  List.map (readBack (fst result))
    [cellAt "c0" 0 0 "row"; cellAt "c1" 120 0 "row"; cellAt "c2" 240 0 "row"] =
    [Some "A"; Some "B"; Some "C"] /\
  snd result = Updated 3 "cells with data".
Proof. cbv zeta. split; vm_compute; reflexivity. Qed.

Lemma populateRows_no_data (toText : Value -> string) (rows : list (list Node))
    (st : Store * nat) :
  populateRows toText rows [] st = st.
Proof. destruct rows; reflexivity. Qed.

(** C8. A dataset that is not an array, or is an empty array, converts to
    the empty two-dimensional array; populating any rows with it writes
    nothing and counts zero, and [populateTable], once it has found cells,
    leaves the store as it is and reports zero updated cells. *)
Theorem malformed_dataset_updates_nothing :
  forall data,
    isNonEmptyArray data = false ->
    convertObjectsTo2DArray data = [] /\
    (forall rows store, populate rows data store = (store, O)) /\
    (forall selection store,
        getAllCells selection <> [] ->
        populateTable data selection store = (store, Updated 0 "cells with data")).
Proof.
  intros data Hdata.
  assert (convertObjectsTo2DArray data = []) as Hconv.
  { destruct data as [v|o|[|first rest]]; try reflexivity. discriminate. }
  assert (forall rows store, populate rows data store = (store, O)) as Hpop.
  { intros rows store. unfold populate. rewrite Hconv. apply populateRows_no_data. }
  split; [exact Hconv|]. split; [exact Hpop|].
  intros selection store Hcells. unfold populateTable.
  destruct selection as [|root selection]; [contradiction Hcells; reflexivity|].
  destruct (getAllCells (root :: selection)); [contradiction|].
  rewrite Hpop. reflexivity.
Qed.

Lemma malformed_dataset_updates_nothing_witness :
  isNonEmptyArray (DArray []) = false /\
  isNonEmptyArray (DScalar VNull) = false /\
  populateTable (DArray []) [scenarioRow] scenarioStore =
    (scenarioStore, Updated 0 "cells with data") /\
  populateTable (DScalar VNull) [scenarioRow] scenarioStore =
    (scenarioStore, Updated 0 "cells with data").
Proof.
  split; [reflexivity|]. split; [reflexivity|]. split.
  - apply (malformed_dataset_updates_nothing (DArray [])); [reflexivity | discriminate].
  - apply (malformed_dataset_updates_nothing (DScalar VNull)); [reflexivity | discriminate].
Defined.

(** ** Reading back what was written *)

Lemma lookup_map {A B : Type} (f : A -> B) (l : list A) (i : nat) :
  List.map f l !! i = option_map f (l !! i).
Proof.
  revert i. induction l as [|a l IH]; intros [|i]; cbn; try reflexivity. apply IH.
Qed.

Section ReadBack.
Variable toText : Value -> string.

(** Writes to other slots leave a slot as it was. *)
Lemma writes_elsewhere (pairs : list (Node * Value)) (store : Store) (k : string) :
  Some k ∉ List.map (fun cv => slotId (fst cv)) pairs ->
  fold_left (applyWrite toText) pairs store !! k = store !! k.
Proof.
  revert store. induction pairs as [|[c v] pairs IH]; intros store Hk; cbn; [reflexivity|].
  cbn in Hk. apply not_elem_of_cons in Hk as [Hc Hrest].
  rewrite IH by exact Hrest.
  unfold applyWrite, slotId in *. cbn in *.
  destruct (findValueLayer c) as [vl|]; [|reflexivity].
  apply lookup_insert_ne. cbn in Hc. congruence.
Qed.

(** With one slot per visited cell, each slot holds the text of the
    value its cell was visited with. *)
Lemma writes_read_back (pairs : list (Node * Value)) (store : Store)
    (c : Node) (v : Value) (vl : Node) :
  NoDup (List.map (fun cv => slotId (fst cv)) pairs) ->
  In (c, v) pairs ->
  findValueLayer c = Some vl ->
  fold_left (applyWrite toText) pairs store !! node_id vl = Some (toText v).
Proof.
  revert store. induction pairs as [|[c' v'] pairs IH]; intros store Hnd Hin Hvl; [destruct Hin|].
  cbn in Hnd. apply NoDup_cons in Hnd as [Hfresh Hnd].
  destruct Hin as [Heq | Hin].
  - injection Heq as -> ->. cbn [fold_left].
    rewrite writes_elsewhere.
    + unfold applyWrite. cbn. rewrite Hvl. apply lookup_insert_eq.
    + cbn in Hfresh. unfold slotId in Hfresh at 1. rewrite Hvl in Hfresh. exact Hfresh.
  - cbn [fold_left]. apply IH; assumption.
Qed.
End ReadBack.

Lemma visitedRow_lookup (rowCells : list Node) (rowData : list Value) (j : nat)
    (c : Node) (v : Value) :
  rowCells !! j = Some c -> rowData !! j = Some v -> In (c, v) (visitedRow rowCells rowData).
Proof.
  revert rowData j.
  induction rowCells as [|c' cs IH]; intros [|v' vs] [|j] Hc Hv; cbn in *; try discriminate.
  - left. congruence.
  - right. eapply IH; eassumption.
Qed.

Lemma visited_lookup (rows : list (list Node)) (dataRows : list (list Value)) (i j : nat)
    (row : list Node) (rowData : list Value) (c : Node) (v : Value) :
  rows !! i = Some row -> dataRows !! i = Some rowData ->
  row !! j = Some c -> rowData !! j = Some v ->
  In (c, v) (visited rows dataRows).
Proof.
  revert dataRows i.
  induction rows as [|r rows IH]; intros [|d dataRows] [|i] Hr Hd Hc Hv; cbn in *;
    try discriminate; apply in_or_app.
  - left. injection Hr as ->. injection Hd as ->. eapply visitedRow_lookup; eassumption.
  - right. eapply IH; eassumption.
Qed.

Lemma visitedRow_cells_sublist (rowCells : list Node) (rowData : list Value) :
  List.map fst (visitedRow rowCells rowData) `sublist_of` rowCells.
Proof.
  revert rowData. induction rowCells as [|c cs IH]; intros [|v vs]; cbn.
  - constructor.
  - constructor.
  - apply sublist_nil_l.
  - apply sublist_skip, IH.
Qed.

Lemma visited_cells_sublist (rows : list (list Node)) (dataRows : list (list Value)) :
  List.map fst (visited rows dataRows) `sublist_of` concat rows.
Proof.
  revert dataRows. induction rows as [|r rows IH]; intros [|d dataRows]; cbn;
    try apply sublist_nil_l.
  rewrite List.map_app. apply sublist_app; [apply visitedRow_cells_sublist | apply IH].
Qed.

(** The text read back from a visited cell, when each cell has a slot of
    its own. *)
Lemma populate_read_back (rows : list (list Node)) (data : Data) (store : Store)
    (i j : nat) (row : list Node) (rowData : list Value) (c : Node) (v : Value) :
  NoDup (List.map slotId (concat rows)) ->
  hasValueSlot c = true ->
  rows !! i = Some row -> convertObjectsTo2DArray data !! i = Some rowData ->
  row !! j = Some c -> rowData !! j = Some v ->
  readBack (fst (populate rows data store)) c = Some (cellText v).
Proof.
  intros Hnd Hslot Hr Hd Hc Hv.
  unfold populate. rewrite populateRows_trace. cbn [fst].
  unfold readBack, hasValueSlot in *.
  destruct (findValueLayer c) as [vl|] eqn:Hvl; [|discriminate].
  apply writes_read_back with (c := c); [| eapply visited_lookup; eassumption | exact Hvl].
  apply (sublist_NoDup _ (List.map slotId (concat rows))); [exact Hnd|].
  rewrite <- (List.map_map fst slotId).
  apply (fmap_sublist slotId), visited_cells_sublist.
Qed.

Lemma lookup_in_concat {A : Type} (rows : list (list A)) (i j : nat) (row : list A) (a : A) :
  rows !! i = Some row -> row !! j = Some a -> In a (concat rows).
Proof.
  intros Hr Ha. apply in_concat. exists row.
  split; apply list_elem_of_In; eapply list_elem_of_lookup_2; eassumption.
Qed.

Lemma convert_lookup_record (first : JsObject) (rest : list JsObject) (i : nat) :
  convertObjectsTo2DArray (DArray (first :: rest)) !! S i =
  option_map (fun obj => List.map (get obj) (Object_keys first)) ((first :: rest) !! i).
Proof. exact (lookup_map _ (first :: rest) i). Qed.

Lemma inherited_safe (key : string) : safeValue (inherited key).
Proof.
  unfold inherited.
  destruct (String.eqb key "constructor"); [exact I|].
  destruct (String.eqb key "__proto__"); [exact I|].
  destruct (existsb (String.eqb key) prototypeFunctions); exact I.
Qed.

Lemma get_safe (obj : JsObject) (key : string) :
  Forall (fun kv => safeValue (snd kv)) obj -> safeValue (get obj key).
Proof.
  induction 1 as [|[k v] obj Hv _ IH]; cbn [get]; [apply inherited_safe|].
  destruct (String.eqb k key); [exact Hv | exact IH].
Qed.

(** A name that [Object.prototype] does not have reads as [undefined] on
    an object without that field. *)
Lemma inherited_undefined (key : string) :
  isInherited key = false -> inherited key = VUndefined.
Proof.
  unfold isInherited, inherited. intros H. apply orb_false_iff in H as [Hproto Hfun].
  rewrite Hproto, Hfun.
  destruct (String.eqb key "constructor") eqn:E; [|reflexivity].
  apply String.eqb_eq in E. subst key. discriminate Hfun.
Qed.

(** C7 (amended). For a dataset whose numbers are safe integers and a table
    shaped like its two-dimensional array (a header row and one row per
    record, each as wide as the field list of the first record) whose cells
    each have a value slot of their own, populating and reading back gives
    the field names in the first row and, in row i+1, for each field name
    of the first record what record i holds under that name, as text: a
    number in decimal (5 reads "5"), null as the empty string, and, for a
    field the record does not have, what it inherits under that name:
    undefined, read as the empty string, unless the name is a member of
    [Object.prototype]. *)
Theorem round_trip_header_then_record_values :
  forall rows first rest store,
    let objs := first :: rest in
    let keys := Object_keys first in
    let store' := fst (populate rows (DArray objs) store) in
    matchesDataRows rows (convertObjectsTo2DArray (DArray objs)) ->
    Forall (fun cell => hasValueSlot cell = true) (concat rows) ->
    NoDup (List.map slotId (concat rows)) ->
    safeDataset objs ->
    (forall j row cell,
        rows !! O = Some row -> row !! j = Some cell ->
        exists key, keys !! j = Some key /\ readBack store' cell = Some key) /\
    (forall i j row cell,
        rows !! S i = Some row -> row !! j = Some cell ->
        exists obj key,
          objs !! i = Some obj /\ keys !! j = Some key /\
          readBack store' cell = Some (cellText (get obj key)) /\
          safeValue (get obj key) /\
          (hasOwn obj key = false -> isInherited key = false ->
           readBack store' cell = Some EmptyString)) /\
    (forall n, safeValue (VNum n) -> cellText (VNum n) = JS.decimal n) /\
    safeValue (VNum 5) /\
    cellText (VNum 5) = "5" /\
    cellText VNull = EmptyString /\
    cellText VUndefined = EmptyString.
Proof.
  intros rows first rest store objs keys store' Hshape Hslots Hnd Hsafe.
  rewrite List.Forall_forall in Hslots.
  assert (forall i j row cell rowData,
             rows !! i = Some row -> row !! j = Some cell ->
             convertObjectsTo2DArray (DArray objs) !! i = Some rowData ->
             length row = length rowData ->
             exists v, rowData !! j = Some v /\ readBack store' cell = Some (cellText v))
    as Hcell.
  { intros i j row cell rowData Hr Hc Hd Hlen.
    destruct (rowData !! j) as [v|] eqn:Hv.
    - exists v. split; [reflexivity|].
      eapply populate_read_back; try eassumption.
      apply Hslots. eapply lookup_in_concat; eassumption.
    - apply lookup_ge_None in Hv. apply lookup_lt_Some in Hc. lia. }
  split; [|split; [|split; [|split; [|repeat split]]]].
  - intros j row cell Hr Hc.
    destruct (Forall2_lookup_l _ _ _ _ _ Hshape Hr) as (rowData & Hd & Hlen).
    destruct (Hcell _ _ _ _ _ Hr Hc Hd Hlen) as (v & Hv & Hread).
    cbn in Hd. injection Hd as <-.
    rewrite lookup_map in Hv. fold keys in Hv.
    destruct (keys !! j) as [key|]; [|discriminate].
    injection Hv as <-. exists key. split; [reflexivity | exact Hread].
  - intros i j row cell Hr Hc.
    destruct (Forall2_lookup_l _ _ _ _ _ Hshape Hr) as (rowData & Hd & Hlen).
    destruct (Hcell _ _ _ _ _ Hr Hc Hd Hlen) as (v & Hv & Hread).
    subst objs. rewrite convert_lookup_record in Hd.
    destruct ((first :: rest) !! i) as [obj|] eqn:Hobj; [|discriminate].
    injection Hd as <-. rewrite lookup_map in Hv. fold keys in Hv.
    destruct (keys !! j) as [key|]; [|discriminate].
    injection Hv as <-. exists obj, key.
    split; [reflexivity|]. split; [reflexivity|]. split; [exact Hread|]. split.
    + apply get_safe. unfold safeDataset in Hsafe. rewrite List.Forall_forall in Hsafe.
      apply Hsafe, list_elem_of_In. eapply list_elem_of_lookup_2. exact Hobj.
    + intros Hown Hname. rewrite Hread, (get_hasOwn_false obj key Hown),
        (inherited_undefined key Hname). reflexivity.
  - intros n _. reflexivity.
  - cbn. lia.
Qed.

Lemma round_trip_header_then_record_values_witness :
  let rows := organizeCellsIntoRows (getAllCells [tableFrame]) in
  let store' := fst (populate rows (DArray [[("A", VNum 5); ("B", VNull)]]) scenarioStore) in
  matchesDataRows rows (convertObjectsTo2DArray (DArray [[("A", VNum 5); ("B", VNull)]])) /\
  safeDataset [[("A", VNum 5); ("B", VNull)]] /\
  exists obj key,
    [[("A", VNum 5); ("B", VNull)]] !! O = Some obj /\
    Object_keys [("A", VNum 5); ("B", VNull)] !! 1%nat = Some key /\
    readBack store' (cellAt "b1" 100 40 "r1") = Some (cellText (get obj key)) /\
    safeValue (get obj key) /\
    (hasOwn obj key = false -> isInherited key = false ->
     readBack store' (cellAt "b1" 100 40 "r1") = Some EmptyString).
Proof.
  cbv zeta.
  assert (matchesDataRows (organizeCellsIntoRows (getAllCells [tableFrame]))
            (convertObjectsTo2DArray (DArray [[("A", VNum 5); ("B", VNull)]]))) as Hshape
    by (vm_compute; repeat constructor).
  assert (safeDataset [[("A", VNum 5); ("B", VNull)]]) as Hsafe.
  { repeat constructor; cbn; lia. }
  split; [exact Hshape|]. split; [exact Hsafe|].
  refine (proj1 (proj2 (round_trip_header_then_record_values
                          (organizeCellsIntoRows (getAllCells [tableFrame]))
                          [("A", VNum 5); ("B", VNull)] [] scenarioStore Hshape _ _ Hsafe))
            O 1%nat [cellAt "b0" 0 40 "r1"; cellAt "b1" 100 40 "r1"]
            (cellAt "b1" 100 40 "r1") _ _).
  - vm_compute. repeat constructor.
  - refine (bool_decide_unpack _ _). vm_compute. exact I.
  - reflexivity.
  - reflexivity.
Defined.

(** A record without the field [constructor] reads the function [Object]
    under that name, and its text is what the loop writes. *)
Example round_trip_inherited_field :
  List.map (List.map cellText)
    (convertObjectsTo2DArray (DArray [[("constructor", VStr "x"); ("B", VNum 1)]; [("B", VNum 2)]])) =
    [["constructor"; "B"]; ["x"; "1"]; ["function Object() { [native code] }"; "2"]].
Proof. vm_compute. reflexivity. Qed.

Example round_trip_table_read_back :
  let rows := organizeCellsIntoRows (getAllCells [tableFrame]) in
  let store' := fst (populate rows (DArray [[("A", VNum 5); ("B", VNull)]]) scenarioStore) in
  List.map (List.map (readBack store')) rows =
    [[Some "A"; Some "B"]; [Some "5"; Some EmptyString]].
Proof. vm_compute. reflexivity. Qed.

(** C7 as stated fails: a table of one row and one cell, with a value slot,
    and the dataset of one record with one field have matching dimensions,
    yet the cell reads back the field name, not the value 5 as text. *)
Lemma round_trip_first_row_reads_field_names :
  let rows := organizeCellsIntoRows (getAllCells [singleRow]) in
  let objs := [[("A", VNum 5)]] in
  let store' := fst (populate rows (DArray objs) scenarioStore) in
  rows = [[cellAt "c0" 0 0 "row"]] /\
  matchesDataset rows objs /\
  Forall (fun cell => hasValueSlot cell = true) (concat rows) /\
  NoDup (List.map slotId (concat rows)) /\
  readBack store' (cellAt "c0" 0 0 "row") = Some "A" /\
  readBack store' (cellAt "c0" 0 0 "row") <> Some (cellText (get [("A", VNum 5)] "A")).
Proof.
  cbv zeta. split; [reflexivity|]. split; [vm_compute; repeat constructor|].
  split; [vm_compute; repeat constructor|].
  split; [refine (bool_decide_unpack _ _); vm_compute; exact I|].
  split; [vm_compute; reflexivity|]. vm_compute. discriminate.
Qed.

(** ** Fixed-schema generator *)

Lemma bind_run {A B : Type} (m : Rand A) (f : A -> Rand B) (source : nat -> Q) (k : nat) :
  (a ← m; f a) source k = f (fst (m source k)) source (snd (m source k)).
Proof.
  unfold mbind, Rand_bind. destruct (m source k). reflexivity.
Qed.

Lemma swap_perm {A : Type} (i j : nat) (a : list A) : Permutation (swap i j a) a.
Proof.
  unfold swap.
  destruct (a !! i) as [ai|] eqn:Hi; [|reflexivity].
  destruct (a !! j) as [aj|] eqn:Hj; [|reflexivity].
  apply Permutation_insert_swap; assumption.
Qed.

Lemma shuffleLoop_perm {A : Type} (i : nat) (a : list A) (source : nat -> Q) (k : nat) :
  Permutation (fst (shuffleLoop i a source k)) a.
Proof.
  revert a k. induction i as [|i IH]; intros a k; cbn [shuffleLoop]; [reflexivity|].
  rewrite bind_run, IH. apply swap_perm.
Qed.

Lemma shuffleArray_perm {A : Type} (a : list A) (source : nat -> Q) (k : nat) :
  Permutation (fst (shuffleArray a source k)) a.
Proof. apply shuffleLoop_perm. Qed.

(** A draw from the unit interval, scaled by [n] and floored, is an index
    below [n]: the two indices [shuffleArray] swaps are inside the array. *)
Lemma randomBelow_range (source : nat -> Q) (n : Z) (k : nat) :
  unitSource source -> 0 < n ->
  0 <= fst (randomBelow n source k) < n.
Proof.
  intros Hunit Hn. unfold randomBelow. rewrite bind_run.
  unfold Math_random, mret, Rand_ret. cbn [fst snd].
  destruct (Hunit k) as [H0 H1].
  assert (0 <= source k * inject_Z n)%Q as Hlo.
  { apply Qmult_le_0_compat; [exact H0|].
    change 0%Q with (inject_Z 0). rewrite <- Zle_Qle. lia. }
  assert (source k * inject_Z n < inject_Z n)%Q as Hhi.
  { rewrite <- (Qmult_1_l (inject_Z n)) at 2.
    apply Qmult_lt_compat_r; [|exact H1].
    change 0%Q with (inject_Z 0). rewrite <- Zlt_Qlt. exact Hn. }
  split.
  - change 0 with (Qfloor (inject_Z 0)). apply Qfloor_resp_le. exact Hlo.
  - apply Z.lt_nge. intros Hge.
    apply (Qlt_irrefl (inject_Z n)).
    eapply Qle_lt_trans; [|exact Hhi].
    eapply Qle_trans; [|apply Qfloor_le].
    rewrite <- Zle_Qle. exact Hge.
Qed.

Lemma makeDataObj_keys (actualColumnCount : nat) (p : Fixed.Pools) (i : nat)
    (source : nat -> Q) (k : nat) :
  Object_keys (fst (Fixed.makeDataObj actualColumnCount p i source k)) =
  Fixed.baseFields ++ firstn (actualColumnCount - 6) extendedFields.
Proof.
  unfold Fixed.makeDataObj, randomLess, randomBelow.
  repeat rewrite bind_run. unfold Math_random, mret, Rand_ret. cbn [fst snd].
  do 12 (destruct actualColumnCount as [|actualColumnCount]; [reflexivity|]).
  cbn [Nat.ltb Nat.leb Nat.sub firstn extendedFields]. rewrite firstn_nil. reflexivity.
Qed.

Lemma dummyLoop_spec (P : JsObject -> Prop) (actualColumnCount : nat) (p : Fixed.Pools)
    (remaining i : nat) (data : list JsObject) (source : nat -> Q) (k : nat) :
  (forall i' k', P (fst (Fixed.makeDataObj actualColumnCount p i' source k'))) ->
  Forall P data ->
  length (fst (Fixed.dummyLoop actualColumnCount p remaining i data source k))
    = (length data + remaining)%nat /\
  Forall P (fst (Fixed.dummyLoop actualColumnCount p remaining i data source k)).
Proof.
  intros Hobj. revert i data k.
  induction remaining as [|remaining IH]; intros i data k Hdata; cbn [Fixed.dummyLoop].
  - split; [cbn; lia | exact Hdata].
  - rewrite bind_run.
    destruct (IH (S i) (data ++ [fst (Fixed.makeDataObj actualColumnCount p i source k)])
                (snd (Fixed.makeDataObj actualColumnCount p i source k))) as [Hlen Hall].
    + apply Forall_app. split; [exact Hdata|]. constructor; [apply Hobj | constructor].
    + split; [|exact Hall]. rewrite Hlen, List.length_app. cbn. lia.
Qed.

Lemma dummyData_spec (rowCount : Z) (actualColumnCount : nat) (source : nat -> Q) (k : nat) :
  Z.of_nat (length (fst (Fixed.dummyData rowCount actualColumnCount source k)))
    = Z.max rowCount 30 /\
  Forall (fun obj => Object_keys obj =
                     Fixed.baseFields ++ firstn (actualColumnCount - 6) extendedFields)
    (fst (Fixed.dummyData rowCount actualColumnCount source k)).
Proof.
  unfold Fixed.dummyData. rewrite bind_run.
  match goal with |- context [Fixed.dummyLoop ?a ?p ?n ?i ?d ?s ?k'] =>
    destruct (dummyLoop_spec
                (fun obj => Object_keys obj =
                            Fixed.baseFields ++ firstn (actualColumnCount - 6) extendedFields)
                a p n i d s k') as [Hlen Hall]
  end.
  - intros i' k'. apply makeDataObj_keys.
  - constructor.
  - split; [|exact Hall]. rewrite Hlen. cbn [length]. lia.
Qed.

Lemma slice0_firstn {A : Type} (rowCount : Z) (a : list A) :
  0 <= rowCount <= Z.of_nat (length a) ->
  slice0 rowCount a = firstn (Z.to_nat rowCount) a.
Proof.
  intros H. unfold slice0.
  destruct (rowCount <? 0) eqn:E; [apply Z.ltb_lt in E; lia|].
  rewrite Z.min_l by lia. reflexivity.
Qed.

Lemma generateFixed_run (rowCount : Z) (actualColumnCount : nat) (source : nat -> Q) :
  runRand (Fixed.generateFixed rowCount actualColumnCount) source =
  slice0 rowCount
    (fst (shuffleArray (runRand (Fixed.dummyData rowCount actualColumnCount) source) source
            (snd (Fixed.dummyData rowCount actualColumnCount source O)))).
Proof.
  unfold runRand, Fixed.generateFixed. rewrite !bind_run. reflexivity.
Qed.

(** *** The draws of the shuffle *)

Lemma drawFor_unit (j n : Z) : 0 <= j < n -> (0 <= drawFor j n)%Q /\ (drawFor j n < 1)%Q.
Proof.
  intros H. unfold drawFor, Qle, Qlt. cbn [Qnum Qden].
  rewrite Z2Pos.id by lia. lia.
Qed.

Lemma drawFor_floor (j n : Z) : 0 <= j < n -> Qfloor (drawFor j n * inject_Z n) = j.
Proof.
  intros H. unfold drawFor, Qfloor, Qmult, inject_Z. cbn [Qnum Qden].
  rewrite Pos.mul_1_r, Z2Pos.id by lia.
  symmetry. apply (Z.div_unique _ _ j n); lia.
Qed.

Lemma randomBelow_drawFor (source : nat -> Q) (k : nat) (j n : Z) :
  0 <= j < n -> source k = drawFor j n -> fst (randomBelow n source k) = j.
Proof.
  intros H Hk. unfold randomBelow. rewrite bind_run.
  unfold Math_random, mret, Rand_ret. cbn [fst snd]. rewrite Hk. apply drawFor_floor, H.
Qed.

Lemma randomBelow_state (source : nat -> Q) (k : nat) (n : Z) :
  snd (randomBelow n source k) = S k.
Proof. reflexivity. Qed.

(** The swap of the loop at its last position [i]: the element chosen
    goes to position [i], the one that was there takes its place. *)
Lemma swap_last {A : Type} (i : nat) (front : list A) (z y : A) (back : list A) (j : nat) :
  length front = i ->
  (front ++ [z]) !! j = Some y ->
  swap i j (front ++ z :: back) =
  (if (j <? i)%nat then <[j := z]> front else front) ++ y :: back.
Proof.
  intros <- Hj. unfold swap.
  rewrite list_lookup_middle by reflexivity.
  assert ((front ++ z :: back) !! j = Some y) as Hj'.
  { change (z :: back) with ([z] ++ back). rewrite app_assoc.
    apply lookup_app_l_Some. exact Hj. }
  rewrite Hj'.
  rewrite insert_app_r_alt, Nat.sub_diag by lia. cbn [insert list_insert].
  destruct (j <? length front)%nat eqn:E.
  - apply Nat.ltb_lt in E. rewrite insert_app_l by exact E. reflexivity.
  - apply Nat.ltb_ge in E.
    assert (j = length front) as ->.
    { apply lookup_lt_Some in Hj. rewrite length_app in Hj. cbn in Hj. lia. }
    rewrite list_lookup_middle in Hj by reflexivity. injection Hj as ->.
    rewrite insert_app_r_alt, Nat.sub_diag by lia. reflexivity.
Qed.

Lemma split_last {A : Type} (l : list A) (i : nat) :
  length l = S i -> exists front z, l = front ++ [z] /\ length front = i.
Proof.
  intros H. destruct (exists_last (l := l)) as (front & z & ->).
  { intros ->. discriminate. }
  exists front, z. split; [reflexivity|]. rewrite length_app in H. cbn in H. lia.
Qed.

(** The positions after [i] are not touched by the loop from [i] down. *)
Lemma shuffleLoop_back {A : Type} (i : nat) (front back : list A) (source : nat -> Q) (k : nat) :
  unitSource source -> length front = S i ->
  exists front',
    fst (shuffleLoop i (front ++ back) source k) = front' ++ back /\ length front' = S i.
Proof.
  intros Hunit. revert front back k.
  induction i as [|i IH]; intros front back k Hlen; cbn [shuffleLoop].
  - exists front. split; [reflexivity | exact Hlen].
  - rewrite bind_run.
    destruct (split_last front (S i) Hlen) as (front0 & z & -> & Hlen0).
    destruct (randomBelow_range source (Z.of_nat (S i) + 1) k Hunit) as [Hlo Hhi]; [lia|].
    set (j := Z.to_nat (fst (randomBelow (Z.of_nat (S i) + 1) source k))).
    assert (j < length (front0 ++ [z]))%nat as Hj by (rewrite length_app; cbn; lia).
    apply lookup_lt_is_Some in Hj as [y Hy].
    rewrite <- app_assoc. cbn [app].
    rewrite (swap_last (S i) front0 z y back j Hlen0 Hy).
    destruct (IH (if (j <? S i)%nat then <[j := z]> front0 else front0)
                (y :: back) (snd (randomBelow (Z.of_nat (S i) + 1) source k)))
      as (front' & Hf & Hlen').
    { destruct (j <? S i)%nat; [rewrite length_insert|]; exact Hlen0. }
    rewrite Hf. exists (front' ++ [y]). rewrite <- app_assoc. split; [reflexivity|].
    rewrite length_app. cbn. lia.
Qed.

Lemma insert_swap_perm {A : Type} (front : list A) (j : nat) (y z : A) :
  front !! j = Some y -> Permutation (front ++ [z]) (<[j := z]> front ++ [y]).
Proof.
  intros Hj. rewrite insert_take_drop by (eapply lookup_lt_Some; exact Hj).
  rewrite <- (take_drop_middle front j y Hj) at 1.
  rewrite <- !app_assoc. apply Permutation_app_head. cbn [app].
  rewrite <- !Permutation_cons_append. apply perm_swap.
Qed.

(** Every arrangement of the positions up to [i] is reached by some
    draws, whatever was drawn before. *)
Lemma shuffleLoop_reaches {A : Type} (i : nat) (front back target : list A)
    (base : nat -> Q) (k : nat) :
  unitSource base -> length front = S i -> Permutation target front ->
  exists source,
    unitSource source /\ agreeBelow k base source /\
    fst (shuffleLoop i (front ++ back) source k) = target ++ back.
Proof.
  revert front back target base k.
  induction i as [|i IH]; intros front back target base k Hunit Hlen Hperm; cbn [shuffleLoop].
  - exists base. split; [exact Hunit|]. split; [intros m _; reflexivity|].
    destruct front as [|x [|? ?]]; try discriminate.
    apply Permutation_sym, Permutation_length_1_inv in Hperm. subst target. reflexivity.
  - destruct (split_last front (S i) Hlen) as (front0 & z & -> & Hlen0).
    assert (length target = S (S i)) as Htl.
    { rewrite (Permutation_length Hperm), length_app. cbn. lia. }
    destruct (split_last target (S i) Htl) as (target0 & y & -> & Htl0).
    assert (In y (front0 ++ [z])) as Hy.
    { eapply Permutation_in; [exact Hperm|]. apply in_or_app. right. left. reflexivity. }
    apply list_elem_of_In, list_elem_of_lookup in Hy as [j Hj].
    pose proof (lookup_lt_Some _ _ _ Hj) as Hjlt. rewrite length_app in Hjlt. cbn in Hjlt.
    set (n := Z.of_nat (S i) + 1).
    assert (0 <= Z.of_nat j < n) as Hjn by (unfold n; lia).
    set (base' := fun m => if (m =? k)%nat then drawFor (Z.of_nat j) n else base m).
    assert (unitSource base') as Hunit'.
    { intros m. unfold base'. destruct (m =? k)%nat; [apply drawFor_unit, Hjn | apply Hunit]. }
    set (front1 := if (j <? S i)%nat then <[j := z]> front0 else front0).
    assert (Permutation target0 front1) as Hperm1.
    { apply (Permutation_app_inv_r [y]).
      rewrite Hperm. unfold front1. destruct (j <? S i)%nat eqn:E.
      - apply Nat.ltb_lt in E. rewrite <- Hlen0 in E.
        rewrite lookup_app_l in Hj by exact E. apply insert_swap_perm, Hj.
      - apply Nat.ltb_ge in E. assert (j = length front0) as -> by lia.
        rewrite list_lookup_middle in Hj by reflexivity. injection Hj as ->. reflexivity. }
    destruct (IH front1 (y :: back) target0 base' (S k) Hunit') as (source & Hs & Hagree & Hrun);
      [|exact Hperm1|].
    { unfold front1. destruct (j <? S i)%nat; [rewrite length_insert|]; exact Hlen0. }
    exists source. split; [exact Hs|]. split.
    { intros m Hm. rewrite (Hagree m) by lia. unfold base'.
      destruct (m =? k)%nat eqn:E; [apply Nat.eqb_eq in E; lia | reflexivity]. }
    rewrite bind_run.
    assert (source k = drawFor (Z.of_nat j) n) as Hk.
    { rewrite (Hagree k) by lia. unfold base'. rewrite Nat.eqb_refl. reflexivity. }
    fold n. rewrite (randomBelow_drawFor source k (Z.of_nat j) n Hjn Hk), Nat2Z.id.
    rewrite randomBelow_state.
    rewrite <- !app_assoc. cbn [app].
    rewrite (swap_last (S i) front0 z y back j Hlen0 Hj). fold front1. exact Hrun.
Qed.

Lemma shuffleArray_reaches {A : Type} (array target : list A) (base : nat -> Q) (k : nat) :
  unitSource base -> Permutation target array ->
  exists source,
    unitSource source /\ agreeBelow k base source /\
    fst (shuffleArray array source k) = target.
Proof.
  intros Hunit Hperm. unfold shuffleArray.
  destruct array as [|x array].
  - apply Permutation_nil_r in Hperm. subst target.
    exists base. split; [exact Hunit|]. split; [intros m _; reflexivity | reflexivity].
  - cbn [length]. rewrite Nat.sub_succ, Nat.sub_0_r.
    destruct (shuffleLoop_reaches (length array) (x :: array) [] target base k Hunit eq_refl Hperm)
      as (source & Hs & Hagree & Hrun).
    rewrite !app_nil_r in Hrun. exists source. split; [exact Hs|]. split; assumption.
Qed.

(** The element at the last position after the shuffle is the one the
    first draw chooses. *)
Lemma shuffleArray_last {A : Type} (array : list A) (source : nat -> Q) (k : nat) :
  unitSource source -> (2 <= length array)%nat ->
  last (fst (shuffleArray array source k)) =
  array !! Z.to_nat (fst (randomBelow (Z.of_nat (length array)) source k)).
Proof.
  intros Hunit Hlen. unfold shuffleArray.
  destruct (length array) as [|[|i]] eqn:El; try lia.
  rewrite Nat.sub_succ, Nat.sub_0_r. cbn [shuffleLoop]. rewrite bind_run.
  replace (Z.of_nat (S i) + 1) with (Z.of_nat (S (S i))) by lia.
  destruct (split_last array (S i) El) as (front0 & z & -> & Hlen0).
  destruct (randomBelow_range source (Z.of_nat (S (S i))) k Hunit) as [Hlo Hhi]; [lia|].
  set (j := Z.to_nat (fst (randomBelow (Z.of_nat (S (S i))) source k))).
  assert (j < length (front0 ++ [z]))%nat as Hj by (rewrite length_app; cbn; lia).
  apply lookup_lt_is_Some in Hj as [y Hy]. rewrite Hy.
  rewrite (swap_last (S i) front0 z y [] j Hlen0 Hy).
  destruct (shuffleLoop_back i (if (j <? S i)%nat then <[j := z]> front0 else front0) [y]
              source (snd (randomBelow (Z.of_nat (S (S i))) source k)) Hunit)
    as (front' & -> & _).
  { destruct (j <? S i)%nat; [rewrite length_insert|]; exact Hlen0. }
  apply last_snoc.
Qed.

(** ** Locality of the draws *)

Lemma local_ret {A : Type} (a : A) : readsOwnDraws (mret a : Rand A).
Proof.
  intros source k. split; [cbn; lia|]. intros source' _. reflexivity.
Qed.

Lemma local_bind {A B : Type} (m : Rand A) (f : A -> Rand B) :
  readsOwnDraws m -> (forall a, readsOwnDraws (f a)) -> readsOwnDraws (a ← m; f a).
Proof.
  intros Hm Hf source k. rewrite bind_run.
  destruct (Hm source k) as [Hle Hm'].
  destruct (Hf (fst (m source k)) source (snd (m source k))) as [Hle' Hf'].
  split; [lia|]. intros source' Hagree.
  rewrite bind_run, Hm'; [apply Hf'|].
  - intros i Hi. apply Hagree. lia.
  - intros i Hi. apply Hagree. lia.
Qed.

Lemma local_random : readsOwnDraws Math_random.
Proof.
  intros source k. split; [cbn; lia|]. intros source' Hagree.
  unfold Math_random. rewrite (Hagree k) by (cbn; lia). reflexivity.
Qed.

Lemma local_randomBelow (n : Z) : readsOwnDraws (randomBelow n).
Proof. apply local_bind; [apply local_random | intros r; apply local_ret]. Qed.

Lemma local_randomLess (p : Q) : readsOwnDraws (randomLess p).
Proof. apply local_bind; [apply local_random | intros r; apply local_ret]. Qed.

Lemma local_shuffleLoop {A : Type} (i : nat) (a : list A) : readsOwnDraws (shuffleLoop i a).
Proof.
  revert a. induction i as [|i IH]; intros a; cbn [shuffleLoop]; [apply local_ret|].
  apply local_bind; [apply local_randomBelow | intros j; apply IH].
Qed.

Lemma local_shuffleArray {A : Type} (a : list A) : readsOwnDraws (shuffleArray a).
Proof. apply local_shuffleLoop. Qed.

Lemma local_shufflePools : readsOwnDraws Fixed.shufflePools.
Proof.
  unfold Fixed.shufflePools.
  repeat (apply local_bind; [apply local_shuffleArray | intros ?]). apply local_ret.
Qed.

Lemma local_makeDataObj (actualColumnCount : nat) (p : Fixed.Pools) (i : nat) :
  readsOwnDraws (Fixed.makeDataObj actualColumnCount p i).
Proof.
  unfold Fixed.makeDataObj. cbv zeta.
  apply local_bind; [apply local_randomLess | intros short].
  apply local_bind; [apply local_randomBelow | intros k].
  apply local_bind; [apply local_randomBelow | intros a].
  apply local_bind; [apply local_randomLess | intros active].
  apply local_bind; [|intros status; apply local_ret].
  destruct active; [apply local_ret|].
  apply local_bind; [apply local_randomBelow | intros s; apply local_ret].
Qed.

Lemma local_dummyLoop (actualColumnCount : nat) (p : Fixed.Pools) (remaining i : nat)
    (data : list JsObject) :
  readsOwnDraws (Fixed.dummyLoop actualColumnCount p remaining i data).
Proof.
  revert i data. induction remaining as [|remaining IH]; intros i data; cbn [Fixed.dummyLoop].
  - apply local_ret.
  - apply local_bind; [apply local_makeDataObj | intros dataObj; apply IH].
Qed.

Lemma local_dummyData (rowCount : Z) (actualColumnCount : nat) :
  readsOwnDraws (Fixed.dummyData rowCount actualColumnCount).
Proof.
  unfold Fixed.dummyData.
  apply local_bind; [apply local_shufflePools | intros p; apply local_dummyLoop].
Qed.

(** Every arrangement of the pool can be the order in which it is cut. *)
Lemma generateFixed_reaches (rowCount : Z) (actualColumnCount : nat) (source : nat -> Q)
    (target : list JsObject) :
  unitSource source ->
  Permutation target (runRand (Fixed.dummyData rowCount actualColumnCount) source) ->
  exists source',
    unitSource source' /\
    agreeBelow (snd (Fixed.dummyData rowCount actualColumnCount source O)) source source' /\
    runRand (Fixed.dummyData rowCount actualColumnCount) source' =
      runRand (Fixed.dummyData rowCount actualColumnCount) source /\
    runRand (Fixed.generateFixed rowCount actualColumnCount) source' = slice0 rowCount target.
Proof.
  intros Hunit Hperm.
  destruct (shuffleArray_reaches _ target source
              (snd (Fixed.dummyData rowCount actualColumnCount source O)) Hunit Hperm)
    as (source' & Hs & Hagree & Hrun).
  assert (Fixed.dummyData rowCount actualColumnCount source' O =
          Fixed.dummyData rowCount actualColumnCount source O) as Hsame.
  { apply (local_dummyData rowCount actualColumnCount source O).
    intros i Hi. apply Hagree. lia. }
  exists source'. split; [exact Hs|]. split; [exact Hagree|].
  split; [unfold runRand; rewrite Hsame; reflexivity|].
  rewrite generateFixed_run. unfold runRand. rewrite Hsame. unfold runRand in Hrun.
  rewrite Hrun. reflexivity.
Qed.

(** C3. For draws from the unit interval, [generateFixed(5, 6)] returns
    exactly 5 records, each with exactly the six standard fields. In
    general, for a row count that is not negative, the pool has
    max(rowCount, 30) records; it is shuffled by [shuffleArray] with the
    draws that follow those of the pool, and the result is the first
    [rowCount] records of the shuffled pool, so exactly [rowCount] records.
    The shuffle rearranges: the shuffled pool is a permutation of the pool,
    its last record is the one the first draw of the shuffle chooses, and
    every arrangement of the pool is the shuffled order for some draws of
    the shuffle (those of the pool kept). Each record has the six standard
    fields followed by the first (columnCountHint - 6) extended ones: none
    unless the hint exceeds 6. *)
Theorem generateFixed_row_count_and_fields :
  forall source,
    unitSource source ->
    (let data := runRand (Fixed.generateFixed 5 6) source in
     length data = 5%nat /\
     Forall (fun obj => Object_keys obj =
                        ["Name"; "Department"; "Email"; "Location"; "Access Level"; "Status"])
       data) /\
    (forall rowCount actualColumnCount,
        0 <= rowCount ->
        let pool := runRand (Fixed.dummyData rowCount actualColumnCount) source in
        let drawn := snd (Fixed.dummyData rowCount actualColumnCount source O) in
        let shuffled := fst (shuffleArray pool source drawn) in
        let data := runRand (Fixed.generateFixed rowCount actualColumnCount) source in
        Z.of_nat (length pool) = Z.max rowCount 30 /\
        Permutation shuffled pool /\
        last shuffled =
          pool !! Z.to_nat (fst (randomBelow (Z.of_nat (length pool)) source drawn)) /\
        data = firstn (Z.to_nat rowCount) shuffled /\
        Z.of_nat (length data) = rowCount /\
        Forall (fun obj => Object_keys obj =
                           Fixed.baseFields ++ firstn (actualColumnCount - 6) extendedFields)
          data /\
        (forall target,
            Permutation target pool ->
            exists source',
              unitSource source' /\ agreeBelow drawn source source' /\
              runRand (Fixed.dummyData rowCount actualColumnCount) source' = pool /\
              runRand (Fixed.generateFixed rowCount actualColumnCount) source' =
                firstn (Z.to_nat rowCount) target)).
Proof.
  intros source Hunit.
  assert (forall rowCount actualColumnCount,
             0 <= rowCount ->
             let pool := runRand (Fixed.dummyData rowCount actualColumnCount) source in
             let drawn := snd (Fixed.dummyData rowCount actualColumnCount source O) in
             let shuffled := fst (shuffleArray pool source drawn) in
             let data := runRand (Fixed.generateFixed rowCount actualColumnCount) source in
             Z.of_nat (length pool) = Z.max rowCount 30 /\
             Permutation shuffled pool /\
             last shuffled =
               pool !! Z.to_nat (fst (randomBelow (Z.of_nat (length pool)) source drawn)) /\
             data = firstn (Z.to_nat rowCount) shuffled /\
             Z.of_nat (length data) = rowCount /\
             Forall (fun obj => Object_keys obj =
                                Fixed.baseFields ++ firstn (actualColumnCount - 6) extendedFields)
               data /\
             (forall target,
                 Permutation target pool ->
                 exists source',
                   unitSource source' /\ agreeBelow drawn source source' /\
                   runRand (Fixed.dummyData rowCount actualColumnCount) source' = pool /\
                   runRand (Fixed.generateFixed rowCount actualColumnCount) source' =
                     firstn (Z.to_nat rowCount) target)) as Hgen.
  { intros rowCount actualColumnCount Hrow pool drawn shuffled data.
    destruct (dummyData_spec rowCount actualColumnCount source O) as [Hlen Hkeys].
    fold (runRand (Fixed.dummyData rowCount actualColumnCount) source) in Hlen, Hkeys.
    fold pool in Hlen, Hkeys.
    assert (Permutation shuffled pool) as Hperm by apply shuffleArray_perm.
    assert (data = firstn (Z.to_nat rowCount) shuffled) as Hdata.
    { subst data. rewrite generateFixed_run. fold pool. fold drawn. fold shuffled.
      apply slice0_firstn. rewrite (Permutation_length Hperm). lia. }
    split; [exact Hlen|]. split; [exact Hperm|].
    split; [apply shuffleArray_last; [exact Hunit | lia]|].
    split; [exact Hdata|]. split; [|split].
    - rewrite Hdata, List.length_firstn, (Permutation_length Hperm). lia.
    - rewrite Hdata. apply List.Forall_forall. intros obj Hobj.
      rewrite List.Forall_forall in Hkeys. apply Hkeys.
      apply (Permutation_in _ Hperm), list_elem_of_In.
      apply (subseteq_take (Z.to_nat rowCount) shuffled), list_elem_of_In, Hobj.
    - intros target Htarget.
      destruct (generateFixed_reaches rowCount actualColumnCount source target Hunit Htarget)
        as (source' & Hs & Hagree & Hpool & Hrun).
      exists source'. split; [exact Hs|]. split; [exact Hagree|]. split; [exact Hpool|].
      rewrite Hrun. apply slice0_firstn.
      rewrite (Permutation_length Htarget). lia. }
  split; [|exact Hgen].
  destruct (Hgen 5 6%nat ltac:(lia)) as (_ & _ & _ & _ & Hlen & Hkeys & _).
  split; [lia | exact Hkeys].
Qed.

Lemma generateFixed_row_count_and_fields_witness :
  unitSource halfSource /\
  length (runRand (Fixed.generateFixed 5 6) halfSource) = 5%nat /\
  Z.of_nat (length (runRand (Fixed.generateFixed 40 8) halfSource)) = 40 /\
  exists source',
    unitSource source' /\
    runRand (Fixed.generateFixed 5 6) source' =
      firstn 5 (rev (runRand (Fixed.dummyData 5 6) halfSource)).
Proof.
  assert (unitSource halfSource) as Hunit
    by (intros k; unfold halfSource, Qle, Qlt; cbn; lia).
  split; [exact Hunit|]. split; [|split].
  - exact (proj1 (proj1 (generateFixed_row_count_and_fields halfSource Hunit))).
  - refine (proj1 (proj2 (proj2 (proj2 (proj2 (proj2
              (generateFixed_row_count_and_fields halfSource Hunit) 40 8%nat _)))))). lia.
  - destruct (proj2 (proj2 (proj2 (proj2 (proj2 (proj2 (proj2
                (generateFixed_row_count_and_fields halfSource Hunit) 5 6%nat
                ltac:(lia)))))))
              (rev (runRand (Fixed.dummyData 5 6) halfSource)))
      as (source' & Hs & _ & _ & Hrun).
    + symmetry. apply Permutation_rev.
    + exists source'. split; [exact Hs | exact Hrun].
Defined.

(** The shuffle moves elements: with every draw one half, the four
    elements a, b, c, d come out as a, d, b, c. *)
Example shuffleArray_half_draws :
  fst (shuffleArray ["a"; "b"; "c"; "d"] halfSource O) = ["a"; "d"; "b"; "c"].
Proof. vm_compute. reflexivity. Qed.

(** The handler reads the column count off the first row of the selection;
    its [columnCount] argument has no influence. *)
Lemma columnCount_not_read (rowCount columnCount columnCount' : Z)
    (selection : list Node) (store : Store) :
  Fixed.populateTableWithDummyData rowCount columnCount selection store =
  Fixed.populateTableWithDummyData rowCount columnCount' selection store.
Proof. reflexivity. Qed.

Example generateFixed_seven_columns_adds_team :
  List.map Object_keys (runRand (Fixed.generateFixed 2 7) halfSource) =
    [["Name"; "Department"; "Email"; "Location"; "Access Level"; "Status"; "Team"];
     ["Name"; "Department"; "Email"; "Location"; "Access Level"; "Status"; "Team"]].
Proof. vm_compute. reflexivity. Qed.

(** ** Schema-inferred generator *)

Lemma mapRand_length {A B : Type} (f : A -> Rand B) (l : list A) (source : nat -> Q) (k : nat) :
  length (fst (mapRand f l source k)) = length l.
Proof.
  revert k. induction l as [|a l IH]; intros k; cbn [mapRand]; [reflexivity|].
  rewrite !bind_run. cbn. rewrite IH. reflexivity.
Qed.

(** Each element of the result is [f] of the element at the same place,
    run from some state of the source. *)
Lemma mapRand_lookup {A B : Type} (f : A -> Rand B) (l : list A) (source : nat -> Q)
    (k j : nat) (b : B) :
  fst (mapRand f l source k) !! j = Some b ->
  exists a k', l !! j = Some a /\ b = fst (f a source k').
Proof.
  revert k j. induction l as [|a l IH]; intros k j; cbn [mapRand].
  - cbn. discriminate.
  - rewrite !bind_run. cbn [mret Rand_ret fst snd]. destruct j as [|j]; cbn.
    + intros [= <-]. exists a, k. split; reflexivity.
    + intros H. apply IH in H as (a' & k' & Ha & Hb). exists a', k'. split; assumption.
Qed.

Lemma includes_append (s t sub : string) :
  JS.includes t sub = true -> JS.includes (s +:+ t) sub = true.
Proof.
  intros H. induction s as [|c s IH]; [exact H|].
  change (String c s +:+ t) with (String c (s +:+ t)).
  cbn [JS.includes]. rewrite IH. apply orb_true_r.
Qed.

Lemma email_has_at (h : Host) (p : Custom.Pools) (rowIndex : nat) (source : nat -> Q) (k : nat) :
  JS.includes (fst (Custom.generateDataForType h p "email" rowIndex source k)) "@" = true.
Proof.
  change (fst (Custom.generateDataForType h p "email" rowIndex source k))
    with (JS.toLowerCase (cyc (Custom.shuffledFirstNames p) rowIndex) +:+ "." +:+
          JS.toLowerCase (cyc (Custom.shuffledLastNames p) rowIndex) +:+ "@company.com").
  do 3 apply includes_append. reflexivity.
Qed.

Lemma generic_foo_bar (h : Host) (p : Custom.Pools) (rowIndex : nat) (source : nat -> Q) (k : nat) :
  fst (Custom.generateDataForType h p "generic:Foo Bar" rowIndex source k) =
  "Foo Bar " +:+ JS.decimal (Z.of_nat (rowIndex + 1)).
Proof. reflexivity. Qed.

(** Every generated value is [generateDataForType] of the type of its
    column's header and of its row index. *)
Lemma generated_value (h : Host) (headers : list string) (rowCount : Z) (source : nat -> Q)
    (i j : nat) (row : list string) (value : string) :
  runRand (Custom.generateDataFromHeaders h headers rowCount) source !! i = Some row ->
  row !! j = Some value ->
  exists header p k,
    headers !! j = Some header /\
    value = fst (Custom.generateDataForType h p (Custom.getDataTypeForHeader header) i source k).
Proof.
  unfold runRand, Custom.generateDataFromHeaders. rewrite bind_run.
  intros Hrow Hvalue.
  apply mapRand_lookup in Hrow as (i' & k' & Hi & ->).
  apply lookup_seq in Hi as [-> _]. cbn [Nat.add].
  unfold Custom.generateRow in Hvalue.
  apply mapRand_lookup in Hvalue as (ty & k'' & Hty & ->).
  rewrite lookup_map in Hty.
  destruct (headers !! j) as [header|]; [|discriminate].
  injection Hty as <-. eauto.
Qed.

(** C9. The header "Email Address" classifies as the type email, and every
    value generated in a column with that header contains "@"; the header
    "Foo Bar" matches no rule and classifies as generic:Foo Bar, and every
    value generated for it is "Foo Bar " followed by the row index plus
    one: "Foo Bar 1" in row 0. The data has one row per requested row and
    one value per header. *)
Theorem email_and_generic_headers :
  Custom.getDataTypeForHeader "Email Address" = "email" /\
  Custom.getDataTypeForHeader "Foo Bar" = "generic:Foo Bar" /\
  (forall h p source k,
      fst (Custom.generateDataForType h p "generic:Foo Bar" 0 source k) = "Foo Bar 1") /\
  (forall h headers rowCount source,
      let data := runRand (Custom.generateDataFromHeaders h headers rowCount) source in
      length data = Z.to_nat rowCount /\
      Forall (fun row => length row = length headers) data /\
      forall i j row value,
        data !! i = Some row -> row !! j = Some value ->
        (headers !! j = Some "Email Address" -> JS.includes value "@" = true) /\
        (headers !! j = Some "Foo Bar" ->
         value = "Foo Bar " +:+ JS.decimal (Z.of_nat i + 1) /\
         (i = O -> value = "Foo Bar 1"))).
Proof.
  split; [vm_compute; reflexivity|]. split; [vm_compute; reflexivity|].
  split; [intros; reflexivity|].
  intros h headers rowCount source data. split; [|split].
  - subst data. unfold runRand, Custom.generateDataFromHeaders.
    rewrite bind_run, mapRand_length. apply length_seq.
  - subst data. unfold runRand, Custom.generateDataFromHeaders. rewrite bind_run.
    apply List.Forall_forall. intros row Hrow.
    apply list_elem_of_In, list_elem_of_lookup in Hrow as [i Hrow].
    apply mapRand_lookup in Hrow as (i' & k' & _ & ->).
    unfold Custom.generateRow. rewrite mapRand_length. apply List.length_map.
  - intros i j row value Hrow Hvalue.
    destruct (generated_value _ _ _ _ _ _ _ _ Hrow Hvalue) as (header & p & k & Hheader & ->).
    rewrite Hheader. split.
    + intros [= ->]. apply email_has_at.
    + intros [= ->].
      change (Custom.getDataTypeForHeader "Foo Bar") with "generic:Foo Bar".
      rewrite generic_foo_bar. split.
      * f_equal. f_equal. lia.
      * intros ->. reflexivity.
Qed.

Lemma email_and_generic_headers_witness :
  let data := runRand (Custom.generateDataFromHeaders sampleHost
                         ["Email Address"; "Foo Bar"] 2) halfSource in
  data !! O = Some ["mark.darnalds@company.com"; "Foo Bar 1"] /\
  JS.includes "mark.darnalds@company.com" "@" = true /\
  "Foo Bar 1" = "Foo Bar " +:+ JS.decimal (Z.of_nat 0 + 1).
Proof.
  cbv zeta.
  assert (runRand (Custom.generateDataFromHeaders sampleHost
                     ["Email Address"; "Foo Bar"] 2) halfSource !! O =
          Some ["mark.darnalds@company.com"; "Foo Bar 1"]) as Hrow
    by (vm_compute; reflexivity).
  pose proof (proj2 (proj2 (proj2 (proj2 (proj2 email_and_generic_headers))
                               sampleHost ["Email Address"; "Foo Bar"] 2 halfSource)))
    as Hvalues.
  split; [exact Hrow|]. split.
  - exact (proj1 (Hvalues O O _ _ Hrow eq_refl) eq_refl).
  - exact (proj1 (proj2 (Hvalues O 1%nat _ _ Hrow eq_refl) eq_refl)).
Defined.


(** * Further properties of the code *)

(** ** Selector: which cells are collected *)

Lemma in_filter_cells_iff (c : Node) (l : list Node) :
  In c (List.filter isCellInstance l) <-> In c l /\ isCellInstance c = true.
Proof. apply filter_In. Qed.

Lemma isCellInstance_not_instance (n : Node) :
  NodeType_eqb (node_type n) INSTANCE = false -> isCellInstance n = false.
Proof. unfold isCellInstance. intros ->. reflexivity. Qed.

Lemma NodeType_eqb_eq (a b : NodeType) : NodeType_eqb a b = true <-> a = b.
Proof. destruct a, b; cbn; split; congruence. Qed.

Lemma cellsOfChild_iff (child c : Node) :
  In c (cellsOfChild child) <->
  isCellInstance c = true /\
  (c = child \/ (isCellInstance child = false /\ In c (childrenOf child))).
Proof.
  unfold cellsOfChild, childrenOf.
  destruct (NodeType_eqb (node_type child) INSTANCE) eqn:Et.
  - destruct (String.eqb (JS.toLowerCase (node_name child)) "cell") eqn:En.
    + assert (isCellInstance child = true) as Hc
        by (unfold isCellInstance; rewrite Et, En; reflexivity).
      split.
      * intros [<- | []]. auto.
      * intros [Hcell [-> | [Hno _]]]; [left; reflexivity | congruence].
    + assert (isCellInstance child = false) as Hc
        by (unfold isCellInstance; rewrite Et, En; reflexivity).
      destruct (node_children child) as [gcs|].
      * rewrite in_filter_cells_iff. split.
        -- intros [Hin Hcell]. auto.
        -- intros [Hcell [-> | [_ Hin]]]; [congruence | auto].
      * split; [intros [] | intros [Hcell [-> | [_ []]]]; congruence].
  - pose proof (isCellInstance_not_instance child Et) as Hc.
    destruct (node_children child) as [gcs|].
    + rewrite in_filter_cells_iff. split.
      * intros [Hin Hcell]. auto.
      * intros [Hcell [-> | [_ Hin]]]; [congruence | auto].
    + split; [intros [] | intros [Hcell [-> | [_ []]]]; congruence].
Qed.

Lemma cellsOfRoot_iff (root c : Node) :
  In c (cellsOfRoot root) <->
  isCellInstance c = true /\
  (c = root \/
   (isCellInstance root = false /\ In c (childrenOf root)) \/
   (node_type root <> INSTANCE /\
    exists child, In child (childrenOf root) /\ isCellInstance child = false /\
                  In c (childrenOf child))).
Proof.
  unfold cellsOfRoot.
  destruct (NodeType_eqb (node_type root) INSTANCE) eqn:Et.
  - assert (node_type root = INSTANCE) as Hinst by (apply NodeType_eqb_eq, Et).
    destruct (String.eqb (JS.toLowerCase (node_name root)) "cell") eqn:En.
    + assert (isCellInstance root = true) as Hc
        by (unfold isCellInstance; rewrite Et, En; reflexivity).
      split.
      * intros [<- | []]. auto.
      * intros [Hcell [-> | [[Hno _] | [Hno _]]]];
          [left; reflexivity | congruence | contradiction].
    + assert (isCellInstance root = false) as Hc
        by (unfold isCellInstance; rewrite Et, En; reflexivity).
      unfold childrenOf at 1. destruct (node_children root) as [cs|].
      * rewrite in_filter_cells_iff. split.
        -- intros [Hin Hcell]. auto.
        -- intros [Hcell [-> | [[_ Hin] | [Hno _]]]];
             [congruence | auto | contradiction].
      * split; [intros [] | intros [Hcell [-> | [[_ []] | [Hno _]]]]];
          [congruence | contradiction].
  - pose proof (isCellInstance_not_instance root Et) as Hc.
    assert (node_type root <> INSTANCE) as Hinst
      by (intros H; apply NodeType_eqb_eq in H; congruence).
    assert (In c (List.flat_map cellsOfChild (childrenOf root)) <->
            In c match node_children root with
                 | Some cs => List.flat_map cellsOfChild cs
                 | None => []
                 end) as <-
      by (unfold childrenOf; destruct (node_children root); reflexivity).
    rewrite in_flat_map. split.
    + intros (child & Hchild & Hin).
      apply cellsOfChild_iff in Hin as [Hcell [-> | [Hno Hin]]].
      * auto.
      * split; [exact Hcell|]. right. right. split; [exact Hinst|].
        exists child. auto.
    + intros [Hcell [-> | [[_ Hin] | [_ (child & Hchild & Hno & Hin)]]]].
      * congruence.
      * exists c. split; [exact Hin|]. apply cellsOfChild_iff. auto.
      * exists child. split; [exact Hchild|]. apply cellsOfChild_iff. auto.
Qed.

(** X1. A node is collected exactly when it is a cell instance and it is a
    selected node, or a child of a selected node that is not itself a cell,
    or a child of a child that is not a cell under a selected node that is
    not an instance. In particular the grandchildren of a selected instance
    are not searched. *)
Theorem getAllCells_characterisation :
  forall selection c,
    In c (getAllCells selection) <->
    isCellInstance c = true /\
    exists root, In root selection /\
      (c = root \/
       (isCellInstance root = false /\ In c (childrenOf root)) \/
       (node_type root <> INSTANCE /\
        exists child, In child (childrenOf root) /\ isCellInstance child = false /\
                      In c (childrenOf child))).
Proof.
  intros selection c. unfold getAllCells. rewrite in_flat_map. split.
  - intros (root & Hroot & Hin). apply cellsOfRoot_iff in Hin as [Hcell Hwhere].
    split; [exact Hcell|]. exists root. auto.
  - intros [Hcell (root & Hroot & Hwhere)]. exists root.
    split; [exact Hroot|]. apply cellsOfRoot_iff. auto.
Qed.

(** X2. Cells are discovered in the order of the selection, and nothing is
    removed as a duplicate: a cell that is selected together with the
    container (not an instance) it is a child of is collected twice. *)
Theorem getAllCells_selection_order_no_dedup :
  (forall s1 s2, getAllCells (s1 ++ s2) = getAllCells s1 ++ getAllCells s2) /\
  (forall root c,
      node_type root <> INSTANCE -> In c (childrenOf root) -> isCellInstance c = true ->
      exists before after, getAllCells [root; c] = before ++ c :: after ++ [c]).
Proof.
  split.
  - intros s1 s2. unfold getAllCells. apply flat_map_app.
  - intros root c Hroot Hin Hcell.
    assert (In c (cellsOfRoot root)) as Hc.
    { apply cellsOfRoot_iff. split; [exact Hcell|]. right. left. split; [|exact Hin].
      apply isCellInstance_not_instance.
      destruct (NodeType_eqb (node_type root) INSTANCE) eqn:E; [|reflexivity].
      apply NodeType_eqb_eq in E. contradiction. }
    apply in_split in Hc as (before & after & Heq).
    exists before, after.
    assert (cellsOfRoot c = [c]) as Hself.
    { unfold cellsOfRoot. unfold isCellInstance in Hcell.
      apply andb_true_iff in Hcell as [-> ->]. reflexivity. }
    unfold getAllCells. cbn [List.flat_map]. rewrite Heq, Hself, app_nil_r.
    rewrite <- app_assoc. reflexivity.
Qed.

Lemma getAllCells_selection_order_no_dedup_witness :
  List.map node_id (getAllCells [pairRow; cellAt "c0" 0 0 "row"]) = ["c0"; "c1"; "c0"] /\
  exists before after,
    getAllCells [pairRow; cellAt "c0" 0 0 "row"] =
    before ++ cellAt "c0" 0 0 "row" :: after ++ [cellAt "c0" 0 0 "row"].
Proof.
  split; [reflexivity|].
  apply (proj2 getAllCells_selection_order_no_dedup pairRow (cellAt "c0" 0 0 "row")).
  - discriminate.
  - left. reflexivity.
  - reflexivity.
Defined.

(** ** Row organiser: what the rows are made of *)

Lemma rowMap_push_keys (parentId : string) (cell : Node) (rowMap : list (string * list Node)) :
  List.map fst (rowMap_push parentId cell rowMap) =
  if bool_decide (parentId ∈ List.map fst rowMap) then List.map fst rowMap
  else List.map fst rowMap ++ [parentId].
Proof.
  induction rowMap as [|[k g] rest IH]; cbn [rowMap_push List.map fst]; [reflexivity|].
  destruct (String.eqb k parentId) eqn:E.
  - apply String.eqb_eq in E. subst k.
    rewrite bool_decide_eq_true_2 by (left). reflexivity.
  - apply String.eqb_neq in E. cbn [List.map fst]. rewrite IH.
    destruct (bool_decide (parentId ∈ List.map fst rest)) eqn:D.
    + apply bool_decide_eq_true_1 in D.
      rewrite bool_decide_eq_true_2 by (right; exact D). reflexivity.
    + apply bool_decide_eq_false_1 in D.
      rewrite bool_decide_eq_false_2; [reflexivity|].
      intros H. apply elem_of_cons in H as [H | H]; [congruence | contradiction].
Qed.

Lemma rowMap_push_cells (parentId : string) (cell : Node) (rowMap : list (string * list Node)) :
  Permutation (concat (List.map snd (rowMap_push parentId cell rowMap)))
    (cell :: concat (List.map snd rowMap)).
Proof.
  induction rowMap as [|[k g] rest IH]; cbn [rowMap_push List.map snd concat]; [reflexivity|].
  destruct (String.eqb k parentId); cbn [List.map snd concat].
  - rewrite <- app_assoc. cbn [app].
    rewrite <- Permutation_middle. reflexivity.
  - rewrite IH. rewrite <- Permutation_middle. reflexivity.
Qed.

Lemma rowMap_push_parents (parentId : string) (cell : Node) (rowMap : list (string * list Node)) :
  node_parent cell = Some parentId ->
  Forall (fun kv => Forall (fun c => node_parent c = Some (fst kv)) (snd kv)) rowMap ->
  Forall (fun kv => Forall (fun c => node_parent c = Some (fst kv)) (snd kv))
    (rowMap_push parentId cell rowMap).
Proof.
  intros Hcell. induction rowMap as [|[k g] rest IH]; intros H; cbn [rowMap_push].
  - repeat constructor. exact Hcell.
  - inversion H as [|? ? Hg Hrest]; subst. cbn in Hg.
    destruct (String.eqb k parentId) eqn:E.
    + apply String.eqb_eq in E. subst k. constructor; [|exact Hrest]. cbn.
      apply Forall_app. split; [exact Hg | repeat constructor; exact Hcell].
    + constructor; [exact Hg | apply IH, Hrest].
Qed.

(** What [rowMap] holds once the cells are grouped. *)
Lemma groupByParent_spec (cells : list Node) :
  let rowMap := groupByParent cells in
  NoDup (List.map fst rowMap) /\
  (forall k, k ∈ List.map fst rowMap <-> exists c, c ∈ cells /\ node_parent c = Some k) /\
  Forall (fun kv => Forall (fun c => node_parent c = Some (fst kv)) (snd kv)) rowMap /\
  Permutation (concat (List.map snd rowMap)) (List.filter hasParent cells).
Proof.
  unfold groupByParent.
  set (step := fun (rowMap : list (string * list Node)) cell =>
                 match node_parent cell with
                 | Some parentId => rowMap_push parentId cell rowMap
                 | None => rowMap
                 end).
  assert (forall cells seen rowMap,
             (NoDup (List.map fst rowMap) /\
              (forall k, k ∈ List.map fst rowMap <->
                         exists c, c ∈ seen /\ node_parent c = Some k) /\
              Forall (fun kv => Forall (fun c => node_parent c = Some (fst kv)) (snd kv)) rowMap /\
              Permutation (concat (List.map snd rowMap)) (List.filter hasParent seen)) ->
             let rowMap' := fold_left step cells rowMap in
             NoDup (List.map fst rowMap') /\
             (forall k, k ∈ List.map fst rowMap' <->
                        exists c, c ∈ seen ++ cells /\ node_parent c = Some k) /\
             Forall (fun kv => Forall (fun c => node_parent c = Some (fst kv)) (snd kv)) rowMap' /\
             Permutation (concat (List.map snd rowMap')) (List.filter hasParent (seen ++ cells)))
    as Hfold.
  { clear cells. induction cells as [|cell cells IH]; intros seen rowMap Hinv; cbn [fold_left].
    - rewrite app_nil_r. exact Hinv.
    - replace (seen ++ cell :: cells) with ((seen ++ [cell]) ++ cells)
        by (rewrite <- app_assoc; reflexivity).
      apply IH. destruct Hinv as (Hnd & Hkeys & Hparents & Hperm).
      unfold step at 1 2 3 4. destruct (node_parent cell) as [parentId|] eqn:Hp.
      + split; [|split; [|split]].
        * rewrite rowMap_push_keys. case_bool_decide as Hin; [exact Hnd|].
          apply NoDup_app. split; [exact Hnd|]. split; [|apply NoDup_singleton].
          intros k Hk Hk'. apply list_elem_of_singleton in Hk'. subst k. contradiction.
        * intros k. rewrite rowMap_push_keys.
          assert (k ∈ List.map fst rowMap \/ k = parentId <->
                  exists c, c ∈ seen ++ [cell] /\ node_parent c = Some k) as Hgoal.
          { rewrite Hkeys. split.
            - intros [(c & Hc & Hck) | ->].
              + exists c. split; [apply elem_of_app; left; exact Hc | exact Hck].
              + exists cell. split; [apply elem_of_app; right; left | exact Hp].
            - intros (c & Hc & Hck). apply elem_of_app in Hc as [Hc | Hc].
              + left. exists c. auto.
              + apply list_elem_of_singleton in Hc. subst c. right. congruence. }
          rewrite <- Hgoal. case_bool_decide as Hin.
          -- split; [auto|]. intros [H | ->]; assumption.
          -- rewrite elem_of_app, list_elem_of_singleton. reflexivity.
        * apply rowMap_push_parents; assumption.
        * rewrite rowMap_push_cells, List.filter_app, Hperm. cbn [List.filter].
          unfold hasParent at 3. rewrite Hp.
          rewrite <- Permutation_cons_append. reflexivity.
      + split; [exact Hnd|]. split; [|split; [exact Hparents|]].
        * intros k. rewrite Hkeys. split; intros (c & Hc & Hck); exists c.
          -- split; [apply elem_of_app; left; exact Hc | exact Hck].
          -- apply elem_of_app in Hc as [Hc | Hc]; [auto|].
             apply list_elem_of_singleton in Hc. subst c. congruence.
        * rewrite List.filter_app, Hperm. cbn [List.filter].
          unfold hasParent at 3. rewrite Hp. rewrite app_nil_r. reflexivity. }
  apply (Hfold cells [] []). split; [constructor|]. split; [|split; [constructor | reflexivity]].
  intros k. split; [intros H; inversion H | intros (c & Hc & _); inversion Hc].
Qed.

Lemma concat_perm {A : Type} (l l' : list (list A)) :
  Permutation l l' -> Permutation (concat l) (concat l').
Proof.
  induction 1 as [|x l l' _ IH|x y l|l l' l'' _ IH1 _ IH2]; cbn [concat].
  - reflexivity.
  - rewrite IH. reflexivity.
  - rewrite !app_assoc. apply Permutation_app_tail, Permutation_app_comm.
  - rewrite IH1. exact IH2.
Qed.

Lemma concat_map_perm {A B : Type} (f g : A -> list B) (l : list A) :
  (forall a, Permutation (f a) (g a)) ->
  Permutation (concat (List.map f l)) (concat (List.map g l)).
Proof.
  intros H. induction l as [|a l IH]; cbn [List.map concat]; [reflexivity|].
  rewrite IH, (H a). reflexivity.
Qed.

Lemma organize_perm (cells : list Node) :
  Permutation (concat (organizeCellsIntoRows cells)) (List.filter hasParent cells).
Proof.
  unfold organizeCellsIntoRows.
  destruct (groupByParent_spec cells) as (_ & _ & _ & Hperm).
  rewrite (concat_perm _ _ (sort_perm compareRows _)).
  rewrite (concat_map_perm (fun kv => sort compareX (snd kv)) snd)
    by (intros kv; apply sort_perm).
  exact Hperm.
Qed.

(** X3. The rows together hold exactly the collected cells that have a
    parent, each as often as it was collected: no such cell is lost or
    repeated by the grouping and the two sorts, and a cell without a parent
    appears in no row. *)
Theorem rows_hold_the_cells_with_a_parent :
  forall cells,
    Permutation (concat (organizeCellsIntoRows cells)) (List.filter hasParent cells) /\
    (forall cell, node_parent cell = None -> ~ In cell (concat (organizeCellsIntoRows cells))).
Proof.
  intros cells. split; [apply organize_perm|].
  intros cell Hnone Hin.
  apply (Permutation_in _ (organize_perm cells)), filter_In in Hin as [_ Hp].
  unfold hasParent in Hp. rewrite Hnone in Hp. discriminate.
Qed.

Lemma rows_hold_the_cells_with_a_parent_witness :
  node_parent (mkNode "orphan" INSTANCE "cell" 0 0 None None) = None /\
  ~ In (mkNode "orphan" INSTANCE "cell" 0 0 None None)
      (concat (organizeCellsIntoRows
                 [mkNode "orphan" INSTANCE "cell" 0 0 None None; cellAt "c0" 0 0 "row"])).
Proof.
  split; [reflexivity|].
  apply (proj2 (rows_hold_the_cells_with_a_parent
                  [mkNode "orphan" INSTANCE "cell" 0 0 None None; cellAt "c0" 0 0 "row"])).
  reflexivity.
Defined.

Lemma NoDup_map_Some {A : Type} (l : list A) : NoDup l -> NoDup (List.map Some l).
Proof.
  induction 1 as [|a l Ha Hl IH]; cbn [List.map]; constructor; [|exact IH].
  intros H. apply list_elem_of_In, in_map_iff in H as (b & [= ->] & Hb).
  apply Ha, list_elem_of_In, Hb.
Qed.

(** A sorted group stands for the key it was stored under. *)
Lemma sorted_group_parent (cells : list Node) (kv : string * list Node) :
  In kv (groupByParent cells) ->
  rowParent (sort compareX (snd kv)) = Some (fst kv) /\
  forall c, In c (sort compareX (snd kv)) -> node_parent c = Some (fst kv).
Proof.
  intros Hin.
  destruct (groupByParent_spec cells) as (_ & _ & Hparents & _).
  rewrite List.Forall_forall in Hparents. specialize (Hparents kv Hin).
  rewrite List.Forall_forall in Hparents.
  assert (forall c, In c (sort compareX (snd kv)) -> node_parent c = Some (fst kv)) as Hall
    by (intros c Hc; apply Hparents, (sort_in compareX), Hc).
  split; [|exact Hall].
  destruct (sorted_groups cells (sort compareX (snd kv))) as [Hne _].
  { apply in_map_iff. exists kv. auto. }
  destruct (sort compareX (snd kv)) as [|c row]; [contradiction|].
  cbn. apply Hall. left. reflexivity.
Qed.

(** X4. Each row is the set of cells of one parent: all cells of a row have
    the parent of its first cell, no two rows stand for the same parent,
    and there are as many rows as there are distinct parents among the
    cells. *)
Theorem rows_are_the_distinct_parents :
  forall cells,
    let rows := organizeCellsIntoRows cells in
    NoDup (List.map rowParent rows) /\
    (forall row c, In row rows -> In c row ->
                   node_parent c = rowParent row /\ rowParent row <> None) /\
    length rows = length (remove_dups (omap node_parent cells)).
Proof.
  intros cells rows. subst rows. unfold organizeCellsIntoRows.
  set (groups := groupByParent cells).
  set (sorted := List.map (fun kv => sort compareX (snd kv)) groups).
  destruct (groupByParent_spec cells) as (Hnd & Hkeys & _ & _). fold groups in Hnd, Hkeys.
  assert (List.map rowParent sorted = List.map Some (List.map fst groups)) as Hparents.
  { subst sorted. rewrite !List.map_map. apply List.map_ext_in.
    intros kv Hkv. apply (sorted_group_parent cells), Hkv. }
  split; [|split].
  - apply (NoDup_Permutation_proper _ _
             (Permutation_map rowParent (sort_perm compareRows sorted))).
    rewrite Hparents. apply NoDup_map_Some, Hnd.
  - intros row c Hrow Hc. apply sort_in in Hrow.
    subst sorted. apply in_map_iff in Hrow as (kv & <- & Hkv).
    destruct (sorted_group_parent cells kv Hkv) as [-> Hall].
    split; [apply Hall, Hc | discriminate].
  - rewrite (Permutation_length (sort_perm compareRows sorted)).
    subst sorted. rewrite List.length_map, <- (List.length_map fst groups).
    apply Permutation_length, NoDup_Permutation; [exact Hnd | apply NoDup_remove_dups|].
    intros k. rewrite Hkeys, elem_of_remove_dups, list_elem_of_omap. reflexivity.
Qed.

Lemma rows_are_the_distinct_parents_witness :
  List.map rowParent (organizeCellsIntoRows (getAllCells [tableFrame])) =
    [Some "r0"; Some "r1"] /\
  node_parent (cellAt "b1" 100 40 "r1") =
    rowParent [cellAt "b0" 0 40 "r1"; cellAt "b1" 100 40 "r1"].
Proof.
  split; [reflexivity|].
  refine (proj1 (proj1 (proj2 (rows_are_the_distinct_parents (getAllCells [tableFrame])))
                   [cellAt "b0" 0 40 "r1"; cellAt "b1" 100 40 "r1"]
                   (cellAt "b1" 100 40 "r1") _ _)).
  - right. left. reflexivity.
  - right. left. reflexivity.
Defined.

(** ** Populator: the store after the loops *)

Section FinalStore.
Variable toText : Value -> string.

Lemma applyWrite_lookup (store : Store) (cell : Node) (v : Value) (k : string) :
  applyWrite toText store (cell, v) !! k =
  match findValueLayer cell with
  | Some valueLayer =>
      if String.eqb (node_id valueLayer) k then Some (toText v) else store !! k
  | None => store !! k
  end.
Proof.
  unfold applyWrite. cbn [fst snd].
  destruct (findValueLayer cell) as [vl|]; [|reflexivity].
  destruct (String.eqb (node_id vl) k) eqn:E.
  - apply String.eqb_eq in E. subst k. apply lookup_insert_eq.
  - apply String.eqb_neq in E. apply lookup_insert_ne, E.
Qed.

Lemma writes_lookup (pairs : list (Node * Value)) (store : Store) (k : string) :
  fold_left (applyWrite toText) pairs store !! k =
  match lastWrite toText pairs k with
  | Some text => Some text
  | None => store !! k
  end.
Proof.
  revert store. induction pairs as [|[cell v] pairs IH]; intros store; [reflexivity|].
  cbn [fold_left lastWrite]. rewrite IH.
  destruct (lastWrite toText pairs k); [reflexivity|].
  rewrite applyWrite_lookup.
  destruct (findValueLayer cell) as [vl|]; [|reflexivity].
  destruct (String.eqb (node_id vl) k); reflexivity.
Qed.

(** No visit of a cell whose slot is [k]: nothing is written to [k]. *)
Lemma lastWrite_none (pairs : list (Node * Value)) (k : string) :
  (forall cell v, In (cell, v) pairs -> slotId cell <> Some k) ->
  lastWrite toText pairs k = None.
Proof.
  induction pairs as [|[cell v] pairs IH]; intros H; [reflexivity|].
  cbn [lastWrite]. rewrite IH by (intros c w Hc; apply (H c w); right; exact Hc).
  specialize (H cell v (or_introl eq_refl)). unfold slotId in H.
  destruct (findValueLayer cell) as [vl|]; [|reflexivity]. cbn in H.
  destruct (String.eqb (node_id vl) k) eqn:E; [|reflexivity].
  apply String.eqb_eq in E. congruence.
Qed.

(** Writing the same visits again changes nothing. *)
Lemma writes_idempotent (pairs : list (Node * Value)) (store : Store) :
  fold_left (applyWrite toText) pairs (fold_left (applyWrite toText) pairs store) =
  fold_left (applyWrite toText) pairs store.
Proof.
  apply map_eq. intros k. rewrite !writes_lookup.
  destruct (lastWrite toText pairs k); reflexivity.
Qed.
End FinalStore.

Lemma visited_cells_in_rows (rows : list (list Node)) (dataRows : list (list Value))
    (cell : Node) (v : Value) :
  In (cell, v) (visited rows dataRows) -> In cell (concat rows).
Proof.
  intros H. apply list_elem_of_In.
  apply (sublist_subseteq _ _ (visited_cells_sublist rows dataRows)).
  apply list_elem_of_In. apply (in_map fst) in H. exact H.
Qed.

(** X5. After the loops each slot holds the text of the last visit that
    wrote to it, whatever was written to it before, and a slot no visit
    wrote to holds what it held; the counter adds one for every visited
    cell with a slot. This holds for the three handlers, which differ only
    in how a value becomes text. *)
Theorem store_holds_last_write :
  forall toText rows dataRows store updatedCount k,
    fst (populateRows toText rows dataRows (store, updatedCount)) !! k =
    match lastWrite toText (visited rows dataRows) k with
    | Some text => Some text
    | None => store !! k
    end.
Proof.
  intros toText rows dataRows store updatedCount k.
  rewrite populateRows_trace. cbn [fst]. apply writes_lookup.
Qed.

(** X6. Populating twice with the same dataset is the same as populating
    once: the second run of [populateTable] leaves every text as the first
    run wrote it and reports the same notification. *)
Theorem populateTable_idempotent :
  forall data selection store,
    populateTable data selection (fst (populateTable data selection store)) =
    populateTable data selection store.
Proof.
  intros data selection store. unfold populateTable.
  destruct selection as [|root selection]; [reflexivity|].
  destruct (getAllCells (root :: selection)) as [|cell cells]; [reflexivity|].
  unfold populate. rewrite !populateRows_trace. cbn [fst snd].
  rewrite writes_idempotent. reflexivity.
Qed.

(** The slots [populateTable] may write: those of the collected cells. *)
Lemma handler_frame (toText : Value -> string) (selection : list Node)
    (dataRows : list (list Value)) (store : Store) (n : nat) (k : string) :
  (forall cell, In cell (getAllCells selection) -> slotId cell <> Some k) ->
  fst (populateRows toText (organizeCellsIntoRows (getAllCells selection)) dataRows
         (store, n)) !! k = store !! k.
Proof.
  intros Hk. rewrite populateRows_trace. cbn [fst].
  rewrite writes_lookup, lastWrite_none; [reflexivity|].
  intros cell v Hin. apply Hk.
  apply visited_cells_in_rows in Hin.
  apply (Permutation_in _ (organize_perm _)) in Hin.
  apply filter_In in Hin as [Hin _]. exact Hin.
Qed.

(** X7. None of the three handlers changes the text of a node that is not
    the value slot of a collected cell. *)
Theorem handlers_write_only_value_slots_of_cells :
  forall selection k,
    (forall cell, In cell (getAllCells selection) -> slotId cell <> Some k) ->
    (forall data store, fst (populateTable data selection store) !! k = store !! k) /\
    (forall rowCount columnCount store source n,
        fst (fst (Fixed.populateTableWithDummyData rowCount columnCount selection store
                    source n)) !! k = store !! k) /\
    (forall h headers rowCount store source n,
        fst (fst (Custom.populateTableWithCustomDummyData h headers rowCount selection store
                    source n)) !! k = store !! k).
Proof.
  intros selection k Hk.
  pose proof (fun toText dataRows store =>
                handler_frame toText selection dataRows store O k Hk) as Hframe.
  split; [|split].
  - intros data store. unfold populateTable, populate.
    destruct selection as [|root selection]; [reflexivity|].
    specialize (Hframe cellText (convertObjectsTo2DArray data) store).
    destruct (getAllCells (root :: selection)) as [|cell cells]; [reflexivity|].
    destruct (populateRows _ _ _ _) as [store' count]. exact Hframe.
  - intros rowCount columnCount store source n. unfold Fixed.populateTableWithDummyData.
    destruct selection as [|root selection]; [reflexivity|].
    destruct (getAllCells (root :: selection)) as [|cell cells] eqn:E; [reflexivity|].
    rewrite bind_run.
    match goal with |- context [populateRows String_ ?rows ?dataRows (store, O)] =>
      specialize (Hframe String_ dataRows store);
      destruct (populateRows String_ rows dataRows (store, O)) as [store' count]
    end.
    exact Hframe.
  - intros h headers rowCount store source n. unfold Custom.populateTableWithCustomDummyData.
    destruct selection as [|root selection]; [reflexivity|].
    destruct (getAllCells (root :: selection)) as [|cell cells] eqn:E; [reflexivity|].
    rewrite bind_run.
    match goal with |- context [populateRows String_ ?rows ?dataRows (store, O)] =>
      specialize (Hframe String_ dataRows store);
      destruct (populateRows String_ rows dataRows (store, O)) as [store' count]
    end.
    exact Hframe.
Qed.

Lemma handlers_write_only_value_slots_of_cells_witness :
  fst (populateTable scenarioData [pairRow] scenarioStore) !! "c2/value" =
  scenarioStore !! "c2/value".
Proof.
  refine (proj1 (handlers_write_only_value_slots_of_cells [pairRow] "c2/value" _) _ _).
  intros cell [<- | [<- | []]]; vm_compute; discriminate.
Defined.

(** ** Conversion to the two-dimensional array *)

(** X8. The array made from a dataset of n records (n > 0) is rectangular:
    it has n + 1 rows, each as long as the field list of the first
    record, whatever fields the other records have. *)
Theorem conversion_is_rectangular :
  forall first rest,
    let dataRows := convertObjectsTo2DArray (DArray (first :: rest)) in
    length dataRows = S (length (first :: rest)) /\
    Forall (fun rowData => length rowData = length first) dataRows.
Proof.
  intros first rest dataRows. subst dataRows. unfold convertObjectsTo2DArray, Object_keys.
  split.
  - cbn [length]. rewrite List.length_map. reflexivity.
  - constructor; [rewrite !List.length_map; reflexivity|].
    apply List.Forall_forall. intros rowData Hrow.
    apply in_map_iff in Hrow as (obj & <- & _). rewrite !List.length_map. reflexivity.
Qed.

(** X9. Only the fields named by the first record reach the table:
    records that agree on those fields convert alike whatever else they
    hold, so setting in the later records a field the first record does not
    have changes nothing. Where a record lacks a field of the first record,
    its row holds what the record inherits under that name: undefined
    (written as the empty text by [populateTable]) unless the name is a
    member of [Object.prototype], whose text is then written. *)
Theorem conversion_reads_only_first_record_fields :
  (forall first rest rest',
      Forall2 (fun obj obj' => forall key, In key (Object_keys first) -> get obj key = get obj' key)
        rest rest' ->
      convertObjectsTo2DArray (DArray (first :: rest)) =
      convertObjectsTo2DArray (DArray (first :: rest'))) /\
  (forall first rest k v,
      ~ In k (Object_keys first) ->
      convertObjectsTo2DArray (DArray (first :: List.map (fun obj => setProperty obj k v) rest)) =
      convertObjectsTo2DArray (DArray (first :: rest))) /\
  (forall first rest i j obj key,
      (first :: rest) !! i = Some obj ->
      Object_keys first !! j = Some key ->
      hasOwn obj key = false ->
      (exists rowData,
          convertObjectsTo2DArray (DArray (first :: rest)) !! S i = Some rowData /\
          rowData !! j = Some (inherited key)) /\
      (isInherited key = false ->
       inherited key = VUndefined /\ cellText (inherited key) = EmptyString) /\
      (isInherited key = true ->
       exists text,
         inherited key = VOther text /\ cellText (inherited key) = text /\
         text <> EmptyString)).
Proof.
  assert (forall first rest rest',
             Forall2 (fun obj obj' =>
                        forall key, In key (Object_keys first) -> get obj key = get obj' key)
               rest rest' ->
             convertObjectsTo2DArray (DArray (first :: rest)) =
             convertObjectsTo2DArray (DArray (first :: rest'))) as Hagree.
  { intros first rest rest' H. unfold convertObjectsTo2DArray. cbn [List.map].
    f_equal. f_equal.
    induction H as [|obj obj' rest rest' Hobj _ IH]; cbn [List.map]; [reflexivity|].
    f_equal; [|exact IH]. apply List.map_ext_in. exact Hobj. }
  split; [exact Hagree|]. split; [|].
  - intros first rest k v Hk. apply Hagree.
    induction rest as [|obj rest IH]; cbn [List.map]; constructor; [|exact IH].
    intros key Hkey. rewrite get_setProperty.
    destruct (String.eqb k key) eqn:E; [|reflexivity].
    apply String.eqb_eq in E. subst key. contradiction.
  - intros first rest i j obj key Hobj Hkey Hown. split; [|split].
    + exists (List.map (get obj) (Object_keys first)). split.
      * rewrite convert_lookup_record, Hobj. reflexivity.
      * rewrite lookup_map, Hkey. cbn. rewrite (get_hasOwn_false obj key Hown). reflexivity.
    + intros Hname. rewrite (inherited_undefined key Hname). split; reflexivity.
    + intros Hname. unfold isInherited in Hname. unfold inherited.
      destruct (String.eqb key "constructor") eqn:Ec.
      { eexists. split; [reflexivity|]. split; [reflexivity | discriminate]. }
      destruct (String.eqb key "__proto__") eqn:Ep.
      { eexists. split; [reflexivity|]. split; [reflexivity | discriminate]. }
      cbn [orb] in Hname. rewrite Hname.
      eexists. split; [reflexivity|]. split; [reflexivity | discriminate].
Qed.

Lemma conversion_reads_only_first_record_fields_witness :
  convertObjectsTo2DArray
    (DArray [[("A", VNum 1)]; setProperty [("A", VNum 3)] "Z" (VNum 9)]) =
  convertObjectsTo2DArray (DArray [[("A", VNum 1)]; [("A", VNum 3)]]) /\
  (exists rowData,
      convertObjectsTo2DArray
        (DArray [[("A", VNum 1); ("toString", VNum 2)]; [("A", VNum 3)]]) !! 2%nat
        = Some rowData /\
      rowData !! 1%nat = Some (inherited "toString")) /\
  inherited "B" = VUndefined /\
  exists text, inherited "toString" = VOther text /\ text <> EmptyString.
Proof.
  split; [|split; [|split]].
  - apply (proj1 (proj2 conversion_reads_only_first_record_fields)
             [("A", VNum 1)] [[("A", VNum 3)]] "Z" (VNum 9)).
    cbn. intros [H | []]. discriminate.
  - apply (proj1 (proj2 (proj2 conversion_reads_only_first_record_fields)
                    [("A", VNum 1); ("toString", VNum 2)] [[("A", VNum 3)]]
                    1%nat 1%nat [("A", VNum 3)] "toString" eq_refl eq_refl eq_refl)).
  - apply (proj1 (proj2 (proj2 (proj2 conversion_reads_only_first_record_fields)
                    [("A", VNum 1); ("B", VNum 2)] [[("A", VNum 3)]]
                    1%nat 1%nat [("A", VNum 3)] "B" eq_refl eq_refl eq_refl))).
    reflexivity.
  - destruct (proj2 (proj2 (proj2 (proj2 conversion_reads_only_first_record_fields)
                    [("A", VNum 1); ("toString", VNum 2)] [[("A", VNum 3)]]
                    1%nat 1%nat [("A", VNum 3)] "toString" eq_refl eq_refl eq_refl)) eq_refl)
      as (text & Htext & _ & Hne).
    exists text. split; assumption.
Defined.

(** ** Text collection and font loading *)

Lemma preorder_cons (i : string) (t : NodeType) (n : string) (x y : Z) (p : option string)
    (c : Node) (l : list Node) :
  preorder (mkNode i t n x y p (Some (c :: l))) =
  mkNode i t n x y p (Some (c :: l)) :: preorder c ++ List.tl (preorder (mkNode i t n x y p (Some l))).
Proof. reflexivity. Qed.

Lemma findTextNodes_preorder (node : Node) :
  textNodesAreLeaves node ->
  findTextNodes node = List.filter isText (preorder node).
Proof.
  unfold textNodesAreLeaves.
  induction node as [i t n x y p cs IH] using Node_tree_ind. intros Hleaf.
  cbn [findTextNodes preorder List.filter]. unfold isText at 1. cbn [node_type].
  inversion Hleaf as [|? ? Hroot Hrest]; subst. cbn [node_type] in Hroot.
  destruct (NodeType_eqb t TEXT) eqn:Et.
  - apply NodeType_eqb_eq in Et. specialize (Hroot Et).
    unfold childrenOf in Hroot. cbn in Hroot.
    destruct cs as [l|]; [|reflexivity]. subst l. reflexivity.
  - destruct cs as [l|]; [|reflexivity].
    clear Hroot Hleaf. induction l as [|c l IHl]; [reflexivity|].
    inversion IH as [|? ? Hc Hl]; subst.
    apply Forall_app in Hrest as [Hpc Hpl].
    rewrite List.filter_app, <- (Hc Hpc), <- (IHl Hl Hpl). reflexivity.
Qed.

Lemma findValueLayer_is_text_of_subtree (node v : Node) :
  findValueLayer node = Some v -> In v (preorder node) /\ isText v = true.
Proof.
  rewrite findValueLayer_preorder. intros H. apply find_some in H as [Hin Hv].
  split; [exact Hin|]. unfold isValueLayer in Hv. apply andb_true_iff in Hv as [_ Ht].
  exact Ht.
Qed.

(** X10. In a subtree whose text nodes have no children [findTextNodes]
    collects exactly the text nodes, in pre-order; so the value slot of a
    cell, when it has one, is among the text nodes whose fonts are loaded. *)
Theorem text_nodes_collected_in_preorder :
  forall node,
    textNodesAreLeaves node ->
    findTextNodes node =
      List.filter (fun n => NodeType_eqb (node_type n) TEXT) (preorder node) /\
    forall v, findValueLayer node = Some v -> In v (findTextNodes node).
Proof.
  intros node Hleaf. split; [apply findTextNodes_preorder, Hleaf|].
  intros v Hv. rewrite (findTextNodes_preorder node Hleaf).
  apply filter_In. apply findValueLayer_is_text_of_subtree, Hv.
Qed.

Lemma text_nodes_collected_in_preorder_witness :
  textNodesAreLeaves tableFrame /\
  List.map node_id (findTextNodes tableFrame) = ["b1/value"; "b0/value"; "a1/value"; "a0/value"] /\
  In (valueText "c0/value" "c0") (findTextNodes (cellAt "c0" 0 0 "row")).
Proof.
  split; [|split; [reflexivity|]].
  - unfold textNodesAreLeaves. cbn. repeat constructor; cbn; intros; try reflexivity; discriminate.
  - refine (proj2 (text_nodes_collected_in_preorder (cellAt "c0" 0 0 "row") _) _ _);
      [|reflexivity].
    unfold textNodesAreLeaves. cbn. repeat constructor; cbn; intros; try reflexivity; discriminate.
Defined.

Lemma Set_add_in (s x : string) (set : list string) :
  In x (Set_add s set) <-> x = s \/ In x set.
Proof.
  unfold Set_add. destruct (existsb (String.eqb s) set) eqn:E.
  - apply existsb_exists in E as (y & Hy & Heq). apply String.eqb_eq in Heq. subst y.
    split; [auto | intros [-> | H]; assumption].
  - rewrite in_app_iff. cbn. split; intros [H | H]; auto.
    + destruct H as [<- | []]. auto.
Qed.

Lemma Set_add_NoDup (s : string) (set : list string) :
  List.NoDup set -> List.NoDup (Set_add s set).
Proof.
  intros Hnd. unfold Set_add. destruct (existsb (String.eqb s) set) eqn:E; [exact Hnd|].
  apply NoDup_ListNoDup. apply NoDup_app. split; [apply NoDup_ListNoDup, Hnd|].
  split; [|apply NoDup_singleton].
  intros x Hx Hx'. apply list_elem_of_singleton in Hx'. subst x.
  apply list_elem_of_In in Hx.
  assert (existsb (String.eqb s) set = true) as Habs; [|congruence].
  apply existsb_exists. exists s. split; [exact Hx | apply String.eqb_refl].
Qed.

Lemma fontNames_spec (fontName : Node -> option string) (nodes : list Node) :
  List.NoDup (fontNames fontName nodes) /\
  forall font,
    In font (fontNames fontName nodes) <->
    exists node, In node nodes /\ node_type node = TEXT /\ fontName node = Some font.
Proof.
  unfold fontNames.
  set (step := fun (set : list string) node =>
                 match fontName node with Some font => Set_add font set | None => set end).
  assert (forall textNodes set,
             List.NoDup set ->
             List.NoDup (fold_left step textNodes set) /\
             forall font, In font (fold_left step textNodes set) <->
                          In font set \/ exists node, In node textNodes /\ fontName node = Some font)
    as Hfold.
  { induction textNodes as [|node textNodes IH]; intros set Hnd; cbn [fold_left].
    - split; [exact Hnd|]. intros font. split; [auto | intros [H | (n & [] & _)]; exact H].
    - assert (List.NoDup (step set node)) as Hnd'
        by (unfold step; destruct (fontName node); [apply Set_add_NoDup|]; exact Hnd).
      destruct (IH (step set node) Hnd') as [Hnd'' Hin]. split; [exact Hnd''|].
      intros font. rewrite Hin. unfold step at 1.
      destruct (fontName node) as [f|] eqn:Hf.
      + rewrite Set_add_in. split.
        * intros [[-> | H] | (n & Hn & Hfn)]; [right; exists node; split; [left|]; auto
                                             | auto | right; exists n; split; [right|]; auto].
        * intros [H | (n & [<- | Hn] & Hfn)]; [auto | left; left; congruence | right; eauto].
      + split.
        * intros [H | (n & Hn & Hfn)]; [auto | right; exists n; split; [right|]; auto].
        * intros [H | (n & [<- | Hn] & Hfn)]; [auto | congruence | right; eauto]. }
  destruct (Hfold (List.filter (fun node => NodeType_eqb (node_type node) TEXT) nodes) [])
    as [Hnd Hin]; [constructor|].
  split; [exact Hnd|]. intros font. rewrite Hin. split.
  - intros [[] | (n & Hn & Hf)]. apply filter_In in Hn as [Hn Ht].
    exists n. split; [exact Hn|]. split; [apply NodeType_eqb_eq, Ht | exact Hf].
  - intros (n & Hn & Ht & Hf). right. exists n. split; [|exact Hf].
    apply filter_In. split; [exact Hn | apply NodeType_eqb_eq, Ht].
Qed.

(** X11. [loadFonts] asks for each font once: the fonts it loads are,
    without repetition, exactly the fonts of the text nodes among its
    arguments whose font is not mixed; other nodes and mixed fonts add
    nothing. *)
Theorem loadFonts_each_font_once :
  forall fontName nodes,
    List.NoDup (loadFonts fontName nodes) /\
    forall font,
      In font (loadFonts fontName nodes) <->
      exists node, In node nodes /\ node_type node = TEXT /\ fontName node = Some font.
Proof. intros fontName nodes. apply fontNames_spec. Qed.

Example loadFonts_on_table :
  fontsLoadedFor sampleFont [tableFrame] = ["Inter Regular"; "Inter Bold"].
Proof. reflexivity. Qed.

Lemma value_layer_font_requested (fontName : Node -> option string) (selection : list Node)
    (cell valueLayer : Node) (font : string) :
  In cell (getAllCells selection) ->
  textNodesAreLeaves cell ->
  findValueLayer cell = Some valueLayer ->
  fontName valueLayer = Some font ->
  In font (loadFonts fontName (allTextNodes (getAllCells selection))).
Proof.
  intros Hcell Hleaf Hv Hfont.
  unfold loadFonts. apply fontNames_spec.
  exists valueLayer. split; [|split; [|exact Hfont]].
  - unfold allTextNodes. apply in_flat_map. exists cell. split; [exact Hcell|].
    rewrite (findTextNodes_preorder cell Hleaf).
    apply filter_In. apply findValueLayer_is_text_of_subtree, Hv.
  - destruct (findValueLayer_is_text_of_subtree _ _ Hv) as [_ Ht].
    apply NodeType_eqb_eq, Ht.
Qed.

Lemma populateRowCalls_visited (toText : Value -> string) (rowCells : list Node)
    (rowData : list Value) :
  populateRowCalls toText rowCells rowData =
  List.flat_map (fun cv => writeCellCalls toText (fst cv) (snd cv)) (visitedRow rowCells rowData).
Proof.
  revert rowData. induction rowCells as [|cell rowCells IH]; intros [|v rowData]; cbn;
    try reflexivity.
  rewrite IH. reflexivity.
Qed.

Lemma populateRowsCalls_visited (toText : Value -> string) (rows : list (list Node))
    (dataRows : list (list Value)) :
  populateRowsCalls toText rows dataRows =
  List.flat_map (fun cv => writeCellCalls toText (fst cv) (snd cv)) (visited rows dataRows).
Proof.
  revert dataRows. induction rows as [|rowCells rows IH]; intros [|rowData dataRows]; cbn;
    try reflexivity.
  rewrite IH, populateRowCalls_visited, flat_map_app. reflexivity.
Qed.

Lemma storeAfter_app (calls calls' : list HostCall) (store : Store) :
  storeAfter (calls ++ calls') store = storeAfter calls' (storeAfter calls store).
Proof. apply fold_left_app. Qed.

Lemma notified_app (calls calls' : list HostCall) :
  notified (calls ++ calls') = notified calls ++ notified calls'.
Proof. apply flat_map_app. Qed.

Lemma loads_change_nothing (fonts : list string) (store : Store) :
  storeAfter (List.map LoadFontAsync fonts) store = store /\
  notified (List.map LoadFontAsync fonts) = [].
Proof.
  induction fonts as [|font fonts [IHs IHn]]; [split; reflexivity|].
  split; [exact IHs | exact IHn].
Qed.

Lemma writes_replayed (toText : Value -> string) (pairs : list (Node * Value))
    (store : Store) :
  let writes := List.flat_map (fun cv => writeCellCalls toText (fst cv) (snd cv)) pairs in
  storeAfter writes store = fold_left (applyWrite toText) pairs store /\
  notified writes = [] /\
  length writes = length (List.filter hasValueSlot (List.map fst pairs)).
Proof.
  cbv zeta. revert store. induction pairs as [|[cell v] pairs IH]; intros store.
  - repeat split.
  - cbn [List.flat_map List.map List.filter fst snd fold_left].
    rewrite storeAfter_app, notified_app, List.length_app.
    destruct (IH (applyWrite toText store (cell, v))) as (Hs & Hn & Hl).
    assert (storeAfter (writeCellCalls toText cell v) store = applyWrite toText store (cell, v) /\
            notified (writeCellCalls toText cell v) = [] /\
            length (writeCellCalls toText cell v) = if hasValueSlot cell then 1%nat else O)
      as (H1 & H2 & H3).
    { unfold writeCellCalls, applyWrite, hasValueSlot. cbn [fst snd].
      destruct (findValueLayer cell); repeat split. }
    rewrite H1, H2, H3, Hs, Hn, Hl.
    repeat split. destruct (hasValueSlot cell); reflexivity.
Qed.

(** The calls agree with the state-passing loops: the same store, the
    same count. *)
Lemma populateCalls_replayed (fontName : Node -> option string) (toText : Value -> string)
    (suffix : string) (allCells : list Node) (dataRows : list (list Value)) (store : Store) :
  let calls := populateCalls fontName toText suffix allCells dataRows in
  let result := populateRows toText (organizeCellsIntoRows allCells) dataRows (store, O) in
  storeAfter calls store = fst result /\ notified calls = [Updated (snd result) suffix].
Proof.
  cbv zeta. unfold populateCalls.
  rewrite !storeAfter_app, !notified_app, populateRowsCalls_visited, populateRows_trace.
  destruct (loads_change_nothing (loadFonts fontName (allTextNodes allCells)) store)
    as [-> ->].
  destruct (writes_replayed toText (visited (organizeCellsIntoRows allCells) dataRows) store)
    as (-> & -> & ->).
  split; reflexivity.
Qed.

Lemma populateCalls_order (fontName : Node -> option string) (toText : Value -> string)
    (suffix : string) (selection : list Node) (dataRows : list (list Value)) :
  loadsBeforeWrites fontName selection
    (populateCalls fontName toText suffix (getAllCells selection) dataRows).
Proof.
  unfold populateCalls. cbv zeta.
  set (fonts := loadFonts fontName (allTextNodes (getAllCells selection))).
  set (rows := organizeCellsIntoRows (getAllCells selection)).
  set (writes := populateRowsCalls toText rows dataRows).
  set (final := Notify (Updated (length writes) suffix)).
  assert (forall call, In call writes ->
            exists cell valueLayer v,
              In cell (getAllCells selection) /\ findValueLayer cell = Some valueLayer /\
              call = SetCharacters (node_id valueLayer) (toText v)) as Hwrites.
  { intros call Hin. unfold writes in Hin. rewrite populateRowsCalls_visited in Hin.
    apply in_flat_map in Hin as ([cell v] & Hvis & Hcall). cbn [fst snd] in Hcall.
    unfold writeCellCalls in Hcall.
    destruct (findValueLayer cell) as [valueLayer|] eqn:Hv; [|destruct Hcall].
    destruct Hcall as [<- | []]. exists cell, valueLayer, v.
    split; [|split; [exact Hv | reflexivity]].
    apply visited_cells_in_rows in Hvis.
    apply (Permutation_in _ (organize_perm _)) in Hvis.
    apply filter_In in Hvis as [Hvis _]. exact Hvis. }
  assert (forall i call, (List.map LoadFontAsync fonts ++ writes ++ [final]) !! i = Some call ->
            (i < length fonts)%nat /\ (exists font, call = LoadFontAsync font /\
                                                     fonts !! i = Some font) \/
            (length fonts <= i)%nat /\ (In call writes \/ call = final)) as Hsplit.
  { intros i call Hi. apply lookup_app_Some in Hi as [Hi | [Hlen Hi]].
    - left. rewrite list_lookup_fmap in Hi.
      destruct (fonts !! i) as [font|] eqn:Hfont; [|discriminate].
      cbn in Hi. injection Hi as <-.
      split; [eapply lookup_lt_Some; exact Hfont|]. exists font. split; reflexivity.
    - right. rewrite length_map in Hlen. split; [exact Hlen|].
      apply list_elem_of_lookup_2, list_elem_of_In, in_app_or in Hi as [Hi | [<- | []]];
        [left; exact Hi | right; reflexivity]. }
  intros i id text Hi.
  destruct (Hsplit i _ Hi) as [(_ & font & Habs & _) | (Hlen & [Hin | Habs])];
    try discriminate.
  split.
  - intros j font Hj.
    destruct (Hsplit j _ Hj) as [(Hlt & _) | (_ & [Hin' | Habs])];
      [lia | | discriminate].
    destruct (Hwrites _ Hin') as (? & ? & ? & _ & _ & Habs). discriminate.
  - destruct (Hwrites _ Hin) as (cell & valueLayer & v & Hcell & Hv & Hcall).
    injection Hcall as -> ->.
    exists cell, valueLayer. split; [exact Hcell|]. split; [exact Hv|]. split; [reflexivity|].
    intros Hleaf font Hfont.
    pose proof (value_layer_font_requested fontName selection cell valueLayer font
                  Hcell Hleaf Hv Hfont) as Hloaded.
    fold fonts in Hloaded.
    apply list_elem_of_In, list_elem_of_lookup in Hloaded as [j Hj].
    exists j. pose proof (lookup_lt_Some _ _ _ Hj) as Hlt. split; [lia|].
    apply lookup_app_l_Some. rewrite list_lookup_fmap, Hj. reflexivity.
Qed.

Lemma single_notification_order (fontName : Node -> option string) (selection : list Node)
    (message : Notification) :
  loadsBeforeWrites fontName selection [Notify message].
Proof.
  intros [|i] id text Hi; [discriminate|]. destruct i; discriminate.
Qed.

(** X12. Each handler, run as the sequence of its host calls, requests
    fonts before it writes: every [loadFontAsync] call comes before every
    assignment of characters, each assignment goes to the value layer of a
    collected cell, and the font of that layer, unless mixed, has been
    requested by then when the text nodes of the cell have no children.
    The calls leave the store and show the message of the state-passing
    handler. *)
Theorem fonts_requested_before_writes :
  forall fontName selection,
    (forall data store,
        let calls := populateTableCalls fontName data selection in
        let result := populateTable data selection store in
        loadsBeforeWrites fontName selection calls /\
        storeAfter calls store = fst result /\ notified calls = [snd result]) /\
    (forall rowCount columnCount store source k,
        let calls :=
          fst (populateTableWithDummyDataCalls fontName rowCount columnCount selection
                 source k) in
        let result :=
          fst (Fixed.populateTableWithDummyData rowCount columnCount selection store
                 source k) in
        loadsBeforeWrites fontName selection calls /\
        storeAfter calls store = fst result /\ notified calls = [snd result]) /\
    (forall h headers rowCount store source k,
        let calls :=
          fst (populateTableWithCustomDummyDataCalls fontName h headers rowCount selection
                 source k) in
        let result :=
          fst (Custom.populateTableWithCustomDummyData h headers rowCount selection store
                 source k) in
        loadsBeforeWrites fontName selection calls /\
        storeAfter calls store = fst result /\ notified calls = [snd result]).
Proof.
  intros fontName selection. split; [|split].
  - intros data store. cbv zeta. unfold populateTableCalls, populateTable, populate.
    destruct selection as [|root selection];
      [split; [apply single_notification_order | split; reflexivity]|].
    pose proof (populateCalls_order fontName cellText "cells with data" (root :: selection)
                  (convertObjectsTo2DArray data)) as Horder.
    pose proof (populateCalls_replayed fontName cellText "cells with data"
                  (getAllCells (root :: selection)) (convertObjectsTo2DArray data) store)
      as Hreplay.
    destruct (getAllCells (root :: selection)) as [|cell cells];
      [split; [apply single_notification_order | split; reflexivity]|].
    cbv zeta in Hreplay.
    destruct (populateRows _ _ _ _) as [store' count].
    split; [exact Horder | exact Hreplay].
  - intros rowCount columnCount store source k. cbv zeta.
    unfold populateTableWithDummyDataCalls, Fixed.populateTableWithDummyData.
    destruct selection as [|root selection];
      [split; [apply single_notification_order | split; reflexivity]|].
    pose proof (populateCalls_order fontName String_ "cells with dummy data"
                  (root :: selection)) as Horder.
    pose proof (populateCalls_replayed fontName String_ "cells with dummy data"
                  (getAllCells (root :: selection))) as Hreplay.
    destruct (getAllCells (root :: selection)) as [|cell cells];
      [split; [apply single_notification_order | split; reflexivity]|].
    rewrite !bind_run.
    match goal with |- context [populateRows String_ ?rows ?dataRows (store, O)] =>
      specialize (Horder dataRows); specialize (Hreplay dataRows store);
      cbv zeta in Hreplay;
      destruct (populateRows String_ rows dataRows (store, O)) as [store' count]
    end.
    split; [exact Horder | exact Hreplay].
  - intros h headers rowCount store source k. cbv zeta.
    unfold populateTableWithCustomDummyDataCalls, Custom.populateTableWithCustomDummyData.
    destruct selection as [|root selection];
      [split; [apply single_notification_order | split; reflexivity]|].
    pose proof (populateCalls_order fontName String_ "cells with custom data"
                  (root :: selection)) as Horder.
    pose proof (populateCalls_replayed fontName String_ "cells with custom data"
                  (getAllCells (root :: selection))) as Hreplay.
    destruct (getAllCells (root :: selection)) as [|cell cells];
      [split; [apply single_notification_order | split; reflexivity]|].
    rewrite !bind_run.
    match goal with |- context [populateRows String_ ?rows ?dataRows (store, O)] =>
      specialize (Horder dataRows); specialize (Hreplay dataRows store);
      cbv zeta in Hreplay;
      destruct (populateRows String_ rows dataRows (store, O)) as [store' count]
    end.
    split; [exact Horder | exact Hreplay].
Qed.

Example populateTable_calls_on_a_table :
  populateTableCalls sampleFont (DArray [[("A", VNum 5); ("B", VNull)]]) [tableFrame] =
    [LoadFontAsync "Inter Regular"; LoadFontAsync "Inter Bold";
     SetCharacters "a0/value" "A"; SetCharacters "a1/value" "B";
     SetCharacters "b0/value" "5"; SetCharacters "b1/value" EmptyString;
     Notify (Updated 4 "cells with data")].
Proof. vm_compute. reflexivity. Qed.

Lemma fonts_requested_before_writes_witness :
  let calls :=
    populateTableCalls sampleFont (DArray [[("A", VNum 5); ("B", VNull)]]) [tableFrame] in
  calls !! 4%nat = Some (SetCharacters "b0/value" "5") /\
  (forall j font, calls !! j = Some (LoadFontAsync font) -> (j < 4)%nat) /\
  storeAfter calls scenarioStore =
    fst (populateTable (DArray [[("A", VNum 5); ("B", VNull)]]) [tableFrame] scenarioStore).
Proof.
  cbv zeta. split; [reflexivity|]. split.
  - exact (proj1 (proj1 (proj1 (fonts_requested_before_writes sampleFont [tableFrame])
                           (DArray [[("A", VNum 5); ("B", VNull)]]) scenarioStore)
                    4%nat "b0/value" "5" eq_refl)).
  - exact (proj1 (proj2 (proj1 (fonts_requested_before_writes sampleFont [tableFrame])
                           (DArray [[("A", VNum 5); ("B", VNull)]]) scenarioStore))).
Defined.

(** ** Shuffling and the size of the fixed-schema dataset *)

Lemma shuffleLoop_draws {A : Type} (i : nat) (a : list A) (source : nat -> Q) (n : nat) :
  snd (shuffleLoop i a source n) = (n + i)%nat.
Proof.
  revert a n. induction i as [|i IH]; intros a n; cbn [shuffleLoop].
  - cbn. lia.
  - rewrite bind_run, IH. unfold randomBelow. rewrite bind_run. cbn. lia.
Qed.

(** X13. For draws from the unit interval, the index [shuffleArray] draws
    for position i lies in 0..i, so both swapped positions are inside the
    array; the result is a permutation of the argument, of the same length,
    and an array of n elements takes n - 1 draws (none when it is empty or
    has one element). *)
Theorem shuffleArray_permutes :
  forall (A : Type) (array : list A) source n,
    unitSource source ->
    (forall i k, 0 <= fst (randomBelow (Z.of_nat i + 1) source k) <= Z.of_nat i) /\
    Permutation (fst (shuffleArray array source n)) array /\
    length (fst (shuffleArray array source n)) = length array /\
    snd (shuffleArray array source n) = (n + (length array - 1))%nat.
Proof.
  intros A array source n Hunit. split; [|split; [|split]].
  - intros i k.
    pose proof (randomBelow_range source (Z.of_nat i + 1) k Hunit ltac:(lia)). lia.
  - apply shuffleArray_perm.
  - apply Permutation_length, shuffleArray_perm.
  - apply shuffleLoop_draws.
Qed.

Lemma shuffleArray_permutes_witness :
  unitSource halfSource /\
  fst (shuffleArray ["a"; "b"; "c"; "d"] halfSource O) = ["a"; "d"; "b"; "c"] /\
  Permutation (fst (shuffleArray ["a"; "b"; "c"; "d"] halfSource O)) ["a"; "b"; "c"; "d"].
Proof.
  assert (unitSource halfSource) as Hunit
    by (intros k; unfold halfSource, Qle, Qlt; cbn; lia).
  split; [exact Hunit|]. split; [vm_compute; reflexivity|].
  exact (proj1 (proj2 (shuffleArray_permutes string ["a"; "b"; "c"; "d"] halfSource O Hunit))).
Defined.

(** X19. [shuffleArray] rearranges, and can rearrange in every way: for
    each arrangement of the array there are draws from the unit interval
    for which it is the result, whatever was drawn before the shuffle
    starts; and for an array of two or more elements the last element of
    the result is the one at the index the first draw chooses. *)
Theorem shuffleArray_reaches_every_arrangement :
  forall (A : Type) (array target : list A) source k,
    unitSource source ->
    Permutation target array ->
    (exists source',
        unitSource source' /\ agreeBelow k source source' /\
        fst (shuffleArray array source' k) = target) /\
    ((2 <= length array)%nat ->
     last (fst (shuffleArray array source k)) =
     array !! Z.to_nat (fst (randomBelow (Z.of_nat (length array)) source k))).
Proof.
  intros A array target source k Hunit Hperm. split.
  - apply shuffleArray_reaches; assumption.
  - intros Hlen. apply shuffleArray_last; assumption.
Qed.

Lemma shuffleArray_reaches_every_arrangement_witness :
  unitSource halfSource /\
  (exists source',
      unitSource source' /\ fst (shuffleArray ["a"; "b"; "c"] source' O) = ["c"; "a"; "b"]) /\
  last (fst (shuffleArray ["a"; "b"; "c"] halfSource O)) = Some "b".
Proof.
  assert (unitSource halfSource) as Hunit
    by (intros k; unfold halfSource, Qle, Qlt; cbn; lia).
  assert (Permutation ["c"; "a"; "b"] ["a"; "b"; "c"]) as Hperm.
  { change ["c"; "a"; "b"] with (["c"] ++ ["a"; "b"]).
    change ["a"; "b"; "c"] with (["a"; "b"] ++ ["c"]). apply Permutation_app_comm. }
  pose proof (shuffleArray_reaches_every_arrangement string ["a"; "b"; "c"] ["c"; "a"; "b"]
                halfSource O Hunit Hperm) as [Hreach Hlast].
  split; [exact Hunit|]. split.
  - destruct Hreach as (source' & Hs & _ & Hrun). exists source'. split; assumption.
  - rewrite Hlast by (cbn; lia). reflexivity.
Defined.

Lemma slice0_is_firstn {A : Type} (end_ : Z) (a : list A) :
  exists n, slice0 end_ a = firstn n a.
Proof. unfold slice0. eauto. Qed.

Lemma slice0_length {A : Type} (end_ : Z) (a : list A) :
  Z.of_nat (length (slice0 end_ a)) =
  if end_ <? 0 then Z.max (Z.of_nat (length a) + end_) 0
  else Z.min end_ (Z.of_nat (length a)).
Proof.
  unfold slice0. rewrite List.length_firstn.
  destruct (end_ <? 0) eqn:E; [apply Z.ltb_lt in E | apply Z.ltb_ge in E]; lia.
Qed.

Lemma generateFixed_length (rowCount : Z) (actualColumnCount : nat) (source : nat -> Q) :
  Z.of_nat (length (runRand (Fixed.generateFixed rowCount actualColumnCount) source)) =
  fixedRowCount rowCount.
Proof.
  rewrite generateFixed_run, slice0_length.
  rewrite (Permutation_length (shuffleArray_perm _ _ _)).
  destruct (dummyData_spec rowCount actualColumnCount source O) as [Hlen _].
  unfold runRand. rewrite Hlen. unfold fixedRowCount.
  destruct (rowCount <? 0) eqn:E; [apply Z.ltb_lt in E | apply Z.ltb_ge in E]; lia.
Qed.

(** X14. The number of records of the fixed-schema dataset for any row
    count: [rowCount] itself when it is not negative; but for a negative
    row count the pool of 30 loses its last [-rowCount] records, because
    [slice(0, rowCount)] counts a negative end from the end: 30 + rowCount
    records when that is positive, none otherwise. *)
Theorem generateFixed_size_for_any_row_count :
  forall source rowCount actualColumnCount,
    unitSource source ->
    let data := runRand (Fixed.generateFixed rowCount actualColumnCount) source in
    (0 <= rowCount -> Z.of_nat (length data) = rowCount) /\
    (-30 <= rowCount < 0 -> Z.of_nat (length data) = 30 + rowCount) /\
    (rowCount < -30 -> data = []).
Proof.
  intros source rowCount actualColumnCount _ data.
  pose proof (generateFixed_length rowCount actualColumnCount source) as Hlen.
  fold data in Hlen. unfold fixedRowCount in Hlen.
  destruct (rowCount <? 0) eqn:E; [apply Z.ltb_lt in E | apply Z.ltb_ge in E].
  - split; [lia|]. split; [lia|]. intros H. destruct data; [reflexivity|cbn in Hlen; lia].
  - split; [lia|]. split; lia.
Qed.

Lemma generateFixed_size_for_any_row_count_witness :
  unitSource halfSource /\
  Z.of_nat (length (runRand (Fixed.generateFixed (-2) 6) halfSource)) = 30 + -2 /\
  Z.of_nat (length (runRand (Fixed.generateFixed 0 6) halfSource)) = 0 /\
  runRand (Fixed.generateFixed (-31) 6) halfSource = [].
Proof.
  assert (unitSource halfSource) as Hunit
    by (intros k; unfold halfSource, Qle, Qlt; cbn; lia).
  split; [exact Hunit|]. split; [|split].
  - apply (proj1 (proj2 (generateFixed_size_for_any_row_count halfSource (-2) 6%nat Hunit))). lia.
  - apply (proj1 (generateFixed_size_for_any_row_count halfSource 0 6%nat Hunit)). lia.
  - apply (proj2 (proj2 (generateFixed_size_for_any_row_count halfSource (-31) 6%nat Hunit))). lia.
Defined.

Lemma generateFixed_zero (actualColumnCount : nat) (source : nat -> Q) (n : nat) :
  fst (Fixed.generateFixed 0 actualColumnCount source n) = [].
Proof.
  unfold Fixed.generateFixed. rewrite !bind_run. unfold mret, Rand_ret. cbn [fst].
  unfold slice0. cbn [Z.ltb Z.compare].
  rewrite Z.min_l by lia. reflexivity.
Qed.

Lemma generateDataFromHeaders_no_rows (h : Host) (headers : list string) (rowCount : Z)
    (source : nat -> Q) (n : nat) :
  rowCount <= 0 -> fst (Custom.generateDataFromHeaders h headers rowCount source n) = [].
Proof.
  intros H. unfold Custom.generateDataFromHeaders. rewrite bind_run.
  replace (Z.to_nat rowCount) with O by lia. reflexivity.
Qed.

(** X15. Asked for zero rows, the fixed-schema handler writes nothing, not
    even the header row, and reports 0 cells, because an empty dataset
    converts to an empty array; the schema-inferred handler, asked for zero
    or fewer rows, still writes the headers themselves into the first row
    of the table, and nothing else. *)
Theorem zero_rows_of_dummy_data :
  forall selection store source n,
    getAllCells selection <> [] ->
    (forall columnCount,
        fst (Fixed.populateTableWithDummyData 0 columnCount selection store source n) =
        (store, Updated 0 "cells with dummy data")) /\
    (forall h headers rowCount,
        rowCount <= 0 ->
        fst (Custom.populateTableWithCustomDummyData h headers rowCount selection store
               source n) =
        (fst (populateRows String_ (organizeCellsIntoRows (getAllCells selection))
                [List.map VStr headers] (store, O)),
         Updated
           (snd (populateRows String_ (organizeCellsIntoRows (getAllCells selection))
                   [List.map VStr headers] (store, O)))
           "cells with custom data")).
Proof.
  intros selection store source n Hcells. split.
  - intros columnCount. unfold Fixed.populateTableWithDummyData.
    destruct selection as [|root selection]; [contradiction Hcells; reflexivity|].
    destruct (getAllCells (root :: selection)) as [|cell cells]; [contradiction|].
    rewrite bind_run, generateFixed_zero. cbn [convertObjectsTo2DArray].
    rewrite populateRows_no_data. reflexivity.
  - intros h headers rowCount Hrow. unfold Custom.populateTableWithCustomDummyData.
    destruct selection as [|root selection]; [contradiction Hcells; reflexivity|].
    destruct (getAllCells (root :: selection)) as [|cell cells]; [contradiction|].
    rewrite bind_run, generateDataFromHeaders_no_rows by exact Hrow.
    cbn [List.map].
    destruct (populateRows String_ _ _ _) as [store' count]. reflexivity.
Qed.

Lemma zero_rows_of_dummy_data_witness :
  fst (Fixed.populateTableWithDummyData 0 3 [scenarioRow] scenarioStore halfSource O) =
    (scenarioStore, Updated 0 "cells with dummy data") /\
  snd (fst (Custom.populateTableWithCustomDummyData sampleHost ["Name"; "Email"] 0
              [scenarioRow] scenarioStore halfSource O)) = Updated 2 "cells with custom data".
Proof.
  assert (getAllCells [scenarioRow] <> []) as Hcells by discriminate.
  split.
  - apply (proj1 (zero_rows_of_dummy_data [scenarioRow] scenarioStore halfSource O Hcells)).
  - rewrite (proj2 (zero_rows_of_dummy_data [scenarioRow] scenarioStore halfSource O Hcells)
               sampleHost ["Name"; "Email"] 0 ltac:(lia)).
    reflexivity.
Defined.

(** ** Fixed-schema records *)

Lemma cyc_in (pool original : list string) (i : nat) :
  Permutation pool original -> original <> [] -> In (cyc pool i) original.
Proof.
  intros Hperm Hne. apply (Permutation_in _ Hperm). unfold cyc.
  apply nth_In. apply Nat.mod_upper_bound.
  intros H. apply length_zero_iff_nil in H. subst pool.
  apply Permutation_nil in Hperm. contradiction.
Qed.

Lemma nth_random_in (pool : list string) (source : nat -> Q) (k : nat) :
  unitSource source -> pool <> [] ->
  In (nth (Z.to_nat (fst (randomBelow (Z.of_nat (length pool)) source k))) pool EmptyString) pool.
Proof.
  intros Hunit Hne. apply nth_In.
  assert (0 < Z.of_nat (length pool)) as Hlen by (destruct pool; [contradiction | cbn; lia]).
  pose proof (randomBelow_range source _ k Hunit Hlen). lia.
Qed.

Lemma status_in (active : bool) (source : nat -> Q) (k : nat) :
  unitSource source ->
  In (fst ((if active then mret "Active"
            else s ← randomBelow (Z.of_nat (length Fixed.statuses));
                 mret (nth (Z.to_nat s) Fixed.statuses EmptyString)) source k))
    Fixed.statuses.
Proof.
  intros Hunit. destruct active; [left; reflexivity|].
  rewrite bind_run. apply (nth_random_in Fixed.statuses source k Hunit). discriminate.
Qed.

(** The record of one pass: the standard fields, then the extended ones. *)
Lemma makeDataObj_shape (actualColumnCount : nat) (p : Fixed.Pools) (i : nat)
    (source : nat -> Q) (k : nat) :
  unitSource source ->
  exists short offset accessLevel status,
    In accessLevel Fixed.accessLevels /\ In status Fixed.statuses /\
    fst (Fixed.makeDataObj actualColumnCount p i source k) =
    baseRecord
      (cyc (Fixed.shuffledFirstNames p) i +:+ " " +:+ cyc (Fixed.shuffledLastNames p) (i + 3))
      (cyc (Fixed.shuffledDepartments p) i)
      (emailOf short (cyc (Fixed.shuffledFirstNames p) i) (cyc (Fixed.shuffledLastNames p) (i + 3)))
      (cyc (Fixed.shuffledLocations p) (i + offset))
      accessLevel status
    ++ extendedRecord actualColumnCount
         [cyc (Fixed.shuffledTeams p) i; cyc (Fixed.shuffledProjects p) (i + 2);
          cyc (Fixed.shuffledSkills p) (i + 4); cyc (Fixed.shuffledLanguages p) (i + 1);
          cyc (Fixed.shuffledStartDates p) (i + 5); cyc (Fixed.shuffledPhoneNumbers p) (i + 3)].
Proof.
  intros Hunit. unfold Fixed.makeDataObj. repeat rewrite bind_run.
  match goal with
  | |- context [if fst (randomLess (2 # 10) source k) then _ else _] =>
      exists (fst (randomLess (2 # 10) source k))
  end.
  match goal with
  | |- context [cyc (Fixed.shuffledLocations p) (i + ?o)] => exists o
  end.
  match goal with
  | |- context [("Access Level", VStr ?a)] => exists a
  end.
  match goal with
  | |- context [("Status", VStr ?s)] => exists s
  end.
  split; [apply (nth_random_in Fixed.accessLevels); [exact Hunit | discriminate]|].
  split; [apply status_in, Hunit|].
  unfold mret at 1, Rand_ret at 1. cbn [fst].
  do 12 (destruct actualColumnCount as [|actualColumnCount]; [reflexivity|]).
  unfold extendedRecord.
  cbn [Nat.ltb Nat.leb Nat.sub firstn extendedFields]. rewrite firstn_nil. reflexivity.
Qed.

Lemma combine_all_strings (keys values : list string) :
  allStrings (combine keys (List.map VStr values)).
Proof.
  unfold allStrings. revert values.
  induction keys as [|k keys IH]; intros [|v values]; cbn; constructor; eauto.
Qed.

Lemma generated_keys_plain (n : nat) :
  List.NoDup (Fixed.baseFields ++ firstn n extendedFields) /\
  Forall (fun k => isArrayIndex k = false) (Fixed.baseFields ++ firstn n extendedFields).
Proof.
  do 6 (destruct n as [|n];
        [split; [apply NoDup_ListNoDup; refine (bool_decide_unpack _ _); vm_compute; exact I
                | repeat constructor]|]).
  cbn [firstn extendedFields]. rewrite firstn_nil.
  split; [apply NoDup_ListNoDup; refine (bool_decide_unpack _ _); vm_compute; exact I
         | repeat constructor].
Qed.

(** The record [dataObj], a literal of six members extended by
    assignments of new names, is the list of its members in that order:
    no name is an array index and no name occurs twice. *)
Lemma makeDataObj_is_built (actualColumnCount : nat) (p : Fixed.Pools) (i : nat)
    (source : nat -> Q) (k : nat) :
  objectOf (fst (Fixed.makeDataObj actualColumnCount p i source k)) =
  fst (Fixed.makeDataObj actualColumnCount p i source k).
Proof.
  pose proof (makeDataObj_keys actualColumnCount p i source k) as Hkeys.
  unfold Object_keys in Hkeys.
  apply objectOf_literal; rewrite Hkeys; apply generated_keys_plain.
Qed.

Lemma makeDataObj_record (actualColumnCount : nat) (p : Fixed.Pools) (i : nat)
    (source : nat -> Q) (k : nat) :
  unitSource source -> shuffledFrom p ->
  fromThePools (fst (Fixed.makeDataObj actualColumnCount p i source k)) /\
  allStrings (fst (Fixed.makeDataObj actualColumnCount p i source k)).
Proof.
  intros Hunit (Hf & Hl & Hd & Hloc).
  destruct (makeDataObj_shape actualColumnCount p i source k Hunit)
    as (short & offset & accessLevel & status & Ha & Hs & ->).
  split.
  - exists (cyc (Fixed.shuffledFirstNames p) i), (cyc (Fixed.shuffledLastNames p) (i + 3)),
      (cyc (Fixed.shuffledDepartments p) i), (cyc (Fixed.shuffledLocations p) (i + offset)),
      accessLevel, status, short.
    split; [apply cyc_in; [exact Hf | discriminate]|].
    split; [apply cyc_in; [exact Hl | discriminate]|].
    split; [apply cyc_in; [exact Hd | discriminate]|].
    split; [apply cyc_in; [exact Hloc | discriminate]|].
    split; [exact Ha|]. split; [exact Hs|].
    repeat split; reflexivity.
  - unfold allStrings. apply Forall_app. split; [|apply combine_all_strings].
    unfold baseRecord. repeat constructor; cbn; eauto.
Qed.

Lemma shufflePools_shuffledFrom (source : nat -> Q) (k : nat) :
  shuffledFrom (fst (Fixed.shufflePools source k)).
Proof.
  unfold Fixed.shufflePools. repeat rewrite bind_run.
  unfold mret, Rand_ret. cbn [fst Fixed.shuffledFirstNames Fixed.shuffledLastNames
                               Fixed.shuffledDepartments Fixed.shuffledLocations].
  unfold shuffledFrom.
  cbn [Fixed.shuffledFirstNames Fixed.shuffledLastNames Fixed.shuffledDepartments
         Fixed.shuffledLocations].
  repeat split; apply shuffleArray_perm.
Qed.

(** Every record of the dataset is a record of the pool. *)
Lemma generateFixed_records (P : JsObject -> Prop) (rowCount : Z) (actualColumnCount : nat)
    (source : nat -> Q) :
  (forall p i k, shuffledFrom p -> P (fst (Fixed.makeDataObj actualColumnCount p i source k))) ->
  Forall P (runRand (Fixed.generateFixed rowCount actualColumnCount) source).
Proof.
  intros HP. rewrite generateFixed_run.
  destruct (slice0_is_firstn rowCount
              (fst (shuffleArray (runRand (Fixed.dummyData rowCount actualColumnCount) source)
                      source (snd (Fixed.dummyData rowCount actualColumnCount source O)))))
    as [n ->].
  apply List.Forall_forall. intros obj Hobj.
  apply list_elem_of_In, (subseteq_take n), list_elem_of_In in Hobj.
  apply (Permutation_in _ (shuffleArray_perm _ _ _)) in Hobj.
  revert obj Hobj. apply List.Forall_forall.
  unfold runRand, Fixed.dummyData. rewrite bind_run.
  apply dummyLoop_spec; [|constructor].
  intros i k. apply HP, shufflePools_shuffledFrom.
Qed.

(** X16. For draws from the unit interval, every record of the
    fixed-schema dataset takes its department, location, access level and
    status from the pools of the code, its name is a first name and a last
    name of the pools joined by a space, and its email is made of those
    same two names in lower case (first.last, or first initial and last)
    followed by "@company.com". *)
Theorem fixed_records_come_from_the_pools :
  forall source rowCount actualColumnCount,
    unitSource source ->
    Forall fromThePools (runRand (Fixed.generateFixed rowCount actualColumnCount) source).
Proof.
  intros source rowCount actualColumnCount Hunit.
  apply generateFixed_records. intros p i k Hp.
  apply makeDataObj_record; assumption.
Qed.

Lemma fixed_records_come_from_the_pools_witness :
  unitSource halfSource /\
  Forall fromThePools (runRand (Fixed.generateFixed 3 6) halfSource).
Proof.
  assert (unitSource halfSource) as Hunit
    by (intros k; unfold halfSource, Qle, Qlt; cbn; lia).
  split; [exact Hunit|].
  exact (fixed_records_come_from_the_pools halfSource 3 6%nat Hunit).
Defined.

Lemma get_of_own_key (obj : JsObject) (key : string) :
  In key (Object_keys obj) -> exists v, In (key, v) obj /\ get obj key = v.
Proof.
  unfold Object_keys. induction obj as [|[k v] obj IH]; intros Hin; [destruct Hin|].
  cbn [get]. destruct (String.eqb k key) eqn:E.
  - apply String.eqb_eq in E. subst k. exists v. split; [left|]; reflexivity.
  - apply String.eqb_neq in E. destruct Hin as [Hk | Hin]; [cbn in Hk; congruence|].
    destruct (IH Hin) as (w & Hw & Hget). exists w. split; [right|]; assumption.
Qed.

(** X17. For draws from the unit interval, every entry of the array made
    from the fixed-schema dataset is a string: each record has the fields
    of the first one, so no field is missing and the handler, which prints
    values without the guard of [populateTable], never writes "undefined"
    or "null". *)
Theorem fixed_data_rows_hold_strings :
  forall source rowCount actualColumnCount,
    unitSource source ->
    let data := runRand (Fixed.generateFixed rowCount actualColumnCount) source in
    Forall (Forall (fun v => exists s, v = VStr s /\ String_ v = s))
      (convertObjectsTo2DArray (DArray data)).
Proof.
  intros source rowCount actualColumnCount Hunit data.
  assert (Forall (fun obj => allStrings obj /\
                             Object_keys obj =
                             Fixed.baseFields ++ firstn (actualColumnCount - 6) extendedFields)
            data) as Hdata.
  { apply generateFixed_records. intros p i k Hp. split.
    - apply makeDataObj_record; assumption.
    - apply makeDataObj_keys. }
  destruct data as [|first rest]; [constructor|].
  unfold convertObjectsTo2DArray. constructor.
  - apply List.Forall_forall. intros v Hv. apply in_map_iff in Hv as (key & <- & _). eauto.
  - rewrite List.Forall_forall in Hdata.
    destruct (Hdata first (or_introl eq_refl)) as [_ Hkeys].
    apply List.Forall_forall. intros rowData Hrow.
    apply in_map_iff in Hrow as (obj & <- & Hobj).
    destruct (Hdata obj Hobj) as [Hstrings Hkeys'].
    apply List.Forall_forall. intros v Hv. apply in_map_iff in Hv as (key & <- & Hkey).
    rewrite Hkeys, <- Hkeys' in Hkey.
    destruct (get_of_own_key obj key Hkey) as (w & Hw & ->).
    unfold allStrings in Hstrings. rewrite List.Forall_forall in Hstrings.
    destruct (Hstrings _ Hw) as [s Hs]. cbn in Hs. subst w. eauto.
Qed.

Lemma fixed_data_rows_hold_strings_witness :
  unitSource halfSource /\
  Forall (Forall (fun v => exists s, v = VStr s /\ String_ v = s))
    (convertObjectsTo2DArray (DArray (runRand (Fixed.generateFixed 2 8) halfSource))).
Proof.
  assert (unitSource halfSource) as Hunit
    by (intros k; unfold halfSource, Qle, Qlt; cbn; lia).
  split; [exact Hunit|].
  exact (fixed_data_rows_hold_strings halfSource 2 8%nat Hunit).
Defined.

(** ** Header classification *)

Ltac in_handled :=
  apply list_elem_of_In; refine (bool_decide_unpack _ _); vm_compute; exact I.

Ltac classified :=
  split; [left; in_handled | split; discriminate].

(** X18. Every header is classified as a type [generateDataForType] has a
    case for, or as "generic:" followed by the trimmed header, so the
    fallback "Item n" of the generator is never reached from a header; and
    no header is classified as startDate or endDate, whose rules come after
    the rule for date that every such header already matches. *)
Theorem classifier_range :
  forall header,
    (In (Custom.getDataTypeForHeader header) handledTypes \/
     Custom.getDataTypeForHeader header = "generic:" +:+ JS.trim header) /\
    Custom.getDataTypeForHeader header <> "startDate" /\
    Custom.getDataTypeForHeader header <> "endDate".
Proof.
  intros header.
  set (P := fun type : string =>
              (In type handledTypes \/ type = "generic:" +:+ JS.trim header) /\
              type <> "startDate" /\ type <> "endDate").
  change (P (Custom.getDataTypeForHeader header)).
  unfold Custom.getDataTypeForHeader. cbv zeta.
  repeat (match goal with
          | |- P (if ?c then _ else _) => destruct c eqn:?
          end; [solve [unfold P; classified] |]).
  match goal with
  | Hdate : (JS.includes _ "date" || _ || _) = false |- _ =>
      apply orb_false_iff in Hdate as [Hdate _]; apply orb_false_iff in Hdate as [Hdate _]
  end.
  match goal with
  | |- P (if ?c then _ else _) => destruct c as [|] eqn:Hstart
  end.
  { apply andb_true_iff in Hstart as [_ Hstart]. congruence. }
  match goal with
  | |- P (if ?c then _ else _) => destruct c as [|] eqn:Hend
  end.
  { apply andb_true_iff in Hend as [_ Hend]. congruence. }
  repeat (match goal with
          | |- P (if ?c then _ else _) => destruct c eqn:?
          end; [solve [unfold P; classified] |]).
  unfold P. split; [right; reflexivity|]. split; cbn [String.append]; discriminate.
Qed.

Example start_date_is_classified_as_date :
  List.map Custom.getDataTypeForHeader ["Start Date"; "End Date"; "Time Span"] =
    ["date"; "date"; "date"].
Proof. vm_compute. reflexivity. Qed.

(** ** Schema-inferred rows *)

Lemma custom_shufflePools_shuffledFrom (source : nat -> Q) (k : nat) :
  customShuffledFrom (fst (Custom.shufflePools source k)).
Proof.
  unfold Custom.shufflePools. repeat rewrite bind_run.
  unfold mret, Rand_ret, customShuffledFrom. cbn [fst].
  repeat split; apply shuffleArray_perm.
Qed.

(** Every value of the data is [generateDataForType] of the type of its
    header and of its row index, on the pools shuffled at the start. *)
Lemma generated_value_on_pools (h : Host) (headers : list string) (rowCount : Z)
    (source : nat -> Q) (i j : nat) (row : list string) (value header : string) :
  runRand (Custom.generateDataFromHeaders h headers rowCount) source !! i = Some row ->
  row !! j = Some value ->
  headers !! j = Some header ->
  exists k,
    value = fst (Custom.generateDataForType h (fst (Custom.shufflePools source O))
                   (Custom.getDataTypeForHeader header) i source k).
Proof.
  unfold runRand, Custom.generateDataFromHeaders. rewrite bind_run.
  intros Hrow Hvalue Hheader.
  apply mapRand_lookup in Hrow as (i' & k' & Hi & ->).
  apply lookup_seq in Hi as [-> _]. cbn [Nat.add].
  unfold Custom.generateRow in Hvalue.
  apply mapRand_lookup in Hvalue as (ty & k'' & Hty & ->).
  rewrite lookup_map, Hheader in Hty. injection Hty as <-. eauto.
Qed.

(** X20. The name columns of a generated row fit together: in every row,
    the value of an email column is the values of a first-name and a
    last-name column of that row in lower case, joined by "." and followed
    by "@company.com", and the value of a full-name column is those two
    values joined by a space. *)
Theorem name_columns_are_consistent :
  forall h headers rowCount source i row jf jl hf hl f l,
    runRand (Custom.generateDataFromHeaders h headers rowCount) source !! i = Some row ->
    headers !! jf = Some hf -> Custom.getDataTypeForHeader hf = "firstName" ->
    headers !! jl = Some hl -> Custom.getDataTypeForHeader hl = "lastName" ->
    row !! jf = Some f -> row !! jl = Some l ->
    forall j header value,
      headers !! j = Some header -> row !! j = Some value ->
      (Custom.getDataTypeForHeader header = "email" ->
       value = JS.toLowerCase f +:+ "." +:+ JS.toLowerCase l +:+ "@company.com") /\
      (Custom.getDataTypeForHeader header = "fullName" -> value = f +:+ " " +:+ l).
Proof.
  intros h headers rowCount source i row jf jl hf hl f l Hrow Hhf Htf Hhl Htl Hf Hl
    j header value Hheader Hvalue.
  destruct (generated_value_on_pools _ _ _ _ _ _ _ _ _ Hrow Hf Hhf) as [kf ->].
  destruct (generated_value_on_pools _ _ _ _ _ _ _ _ _ Hrow Hl Hhl) as [kl ->].
  destruct (generated_value_on_pools _ _ _ _ _ _ _ _ _ Hrow Hvalue Hheader) as [k ->].
  rewrite Htf, Htl. generalize (fst (Custom.shufflePools source O)). intros p.
  split; intros ->; reflexivity.
Qed.

Lemma name_columns_are_consistent_witness :
  runRand (Custom.generateDataFromHeaders sampleHost
             ["First Name"; "Surname (last name)"; "Email"; "Name"] 2) halfSource !! 1%nat =
    Some ["Zara"; "Lopez"; "zara.lopez@company.com"; "Zara Lopez"] /\
  "zara.lopez@company.com" =
    JS.toLowerCase "Zara" +:+ "." +:+ JS.toLowerCase "Lopez" +:+ "@company.com".
Proof.
  assert (runRand (Custom.generateDataFromHeaders sampleHost
                     ["First Name"; "Surname (last name)"; "Email"; "Name"] 2) halfSource
            !! 1%nat = Some ["Zara"; "Lopez"; "zara.lopez@company.com"; "Zara Lopez"]) as Hrow
    by (vm_compute; reflexivity).
  split; [exact Hrow|].
  refine (proj1 (name_columns_are_consistent sampleHost _ 2 halfSource 1%nat _
                   O 1%nat "First Name" "Surname (last name)" "Zara" "Lopez" Hrow
                   eq_refl _ eq_refl _ eq_refl eq_refl 2%nat "Email" _ eq_refl eq_refl) _);
    vm_compute; reflexivity.
Defined.

Lemma nth_mod_in (pool : list string) (i n : nat) :
  length pool = n -> n <> O -> In (nth (i mod n) pool EmptyString) pool.
Proof.
  intros Hlen Hn. apply nth_In. rewrite Hlen. apply Nat.mod_upper_bound, Hn.
Qed.

Lemma pool_value (h : Host) (p : Custom.Pools) (type : string) (pool : list string)
    (i : nat) (source : nat -> Q) (k : nat) :
  customShuffledFrom p ->
  In (type, pool) typePools ->
  In (fst (Custom.generateDataForType h p type i source k)) pool.
Proof.
  intros (Hfn & Hln & Hde & Hlo & Hro & Hte & Hpr & Hsk & Hla & Hst & Hco & Had & Hci
          & Hph & Hda & Hpc & Hqu & Hra & Hid) Hin.
  unfold typePools in Hin. cbn [In] in Hin.
  repeat (destruct Hin as [Hin | Hin];
          [injection Hin as <- <-;
           first [ apply cyc_in; [assumption | discriminate]
                 | apply nth_mod_in; [reflexivity | discriminate] ] |]).
  destruct Hin.
Qed.

(** X21. For draws from the unit interval, a value generated for a header
    of a pool-backed type (first name, last name, phone, department,
    location, city, state, country, role, team, project, skill, language,
    status, company, date, price, quantity, rating, id, access level,
    description, comment) is an element of the pool of that type. *)
Theorem pool_backed_values_come_from_their_pool :
  forall h headers rowCount source i j row value header pool,
    unitSource source ->
    runRand (Custom.generateDataFromHeaders h headers rowCount) source !! i = Some row ->
    row !! j = Some value ->
    headers !! j = Some header ->
    In (Custom.getDataTypeForHeader header, pool) typePools ->
    In value pool.
Proof.
  intros h headers rowCount source i j row value header pool _ Hrow Hvalue Hheader Hpool.
  destruct (generated_value_on_pools _ _ _ _ _ _ _ _ _ Hrow Hvalue Hheader) as [k ->].
  apply pool_value; [apply custom_shufflePools_shuffledFrom | exact Hpool].
Qed.

Lemma pool_backed_values_come_from_their_pool_witness :
  unitSource halfSource /\ In "Quantum" Custom.teams.
Proof.
  assert (unitSource halfSource) as Hunit
    by (intros k; unfold halfSource, Qle, Qlt; cbn; lia).
  split; [exact Hunit|].
  refine (pool_backed_values_come_from_their_pool sampleHost
            ["First Name"; "Team"] 2 halfSource 1%nat 1%nat ["Zara"; "Quantum"] "Quantum"
            "Team" Custom.teams Hunit _ eq_refl eq_refl _).
  - vm_compute. reflexivity.
  - vm_compute. do 9 right. left. reflexivity.
Defined.

(** ** Generic headers *)

Lemma is_space_lower (c : ascii) : JS.is_space (JS.lower_ascii c) = JS.is_space c.
Proof. destruct c as [[] [] [] [] [] [] [] []]; reflexivity. Qed.

Lemma toLowerCase_trimStart (s : string) :
  JS.toLowerCase (JS.trimStart s) = JS.trimStart (JS.toLowerCase s).
Proof.
  induction s as [|c s IH]; [reflexivity|].
  cbn [JS.trimStart JS.toLowerCase]. rewrite is_space_lower.
  destruct (JS.is_space c); [exact IH | reflexivity].
Qed.

Lemma toLowerCase_empty (s : string) :
  JS.toLowerCase s = EmptyString <-> s = EmptyString.
Proof. destruct s; cbn; split; congruence. Qed.

Lemma toLowerCase_trimEnd (s : string) :
  JS.toLowerCase (JS.trimEnd s) = JS.trimEnd (JS.toLowerCase s).
Proof.
  induction s as [|c s IH]; [reflexivity|].
  cbn [JS.trimEnd JS.toLowerCase]. rewrite <- IH, is_space_lower.
  destruct (JS.trimEnd s) as [|d t] eqn:E; cbn [JS.toLowerCase].
  - destruct (JS.is_space c); reflexivity.
  - reflexivity.
Qed.

Lemma toLowerCase_trim (s : string) :
  JS.toLowerCase (JS.trim s) = JS.trim (JS.toLowerCase s).
Proof. unfold JS.trim. rewrite toLowerCase_trimEnd, toLowerCase_trimStart. reflexivity. Qed.

(** A header classified as generic matched no rule, the one for prices
    included. *)
Lemma generic_means_no_price (header : string) :
  Custom.getDataTypeForHeader header = "generic:" +:+ JS.trim header ->
  JS.includes (JS.trim (JS.toLowerCase header)) "price" = false /\
  JS.includes (JS.trim (JS.toLowerCase header)) "cost" = false.
Proof.
  unfold Custom.getDataTypeForHeader. cbv zeta. cbn [String.append].
  set (P := fun type : string =>
              type = String "g" (String "e" (String "n" (String "e" (String "r"
                       (String "i" (String "c" (String ":" (JS.trim header)))))))) ->
              JS.includes (JS.trim (JS.toLowerCase header)) "price" = false /\
              JS.includes (JS.trim (JS.toLowerCase header)) "cost" = false).
  match goal with |- ?G => change G with (P (Custom.getDataTypeForHeader header)) end.
  unfold Custom.getDataTypeForHeader. cbv zeta.
  do 21 (match goal with
         | |- P (if ?c then _ else _) => destruct c eqn:?
         end; [unfold P; discriminate |]).
  match goal with
  | |- P (if ?c then _ else _) => destruct c as [|] eqn:Hprice
  end; [unfold P; discriminate|].
  intros _.
  apply orb_false_iff in Hprice as [Hprice _]. apply orb_false_iff in Hprice as [Hprice _].
  apply orb_false_iff in Hprice as [Hprice _]. apply orb_false_iff in Hprice as [Hprice Hcost].
  split; assumption.
Qed.

Lemma generic_prefix (s : string) : JS.startsWith ("generic:" +:+ s) "generic:" = true.
Proof. destruct s; reflexivity. Qed.

(** X22. A header that matches no rule gets, in row i, its own trimmed
    text followed by a space and i + 1, unless its lower-case text contains
    "percent", "%", "year", "payment" or "salary"; the tests of the generic
    branch for "price" and "cost" can never succeed, since such a header is
    classified as a price before. *)
Theorem generic_header_values :
  forall h p header rowIndex source k,
    Custom.getDataTypeForHeader header = "generic:" +:+ JS.trim header ->
    JS.includes (JS.toLowerCase (JS.trim header)) "percent" = false ->
    JS.includes (JS.toLowerCase (JS.trim header)) "%" = false ->
    JS.includes (JS.toLowerCase (JS.trim header)) "year" = false ->
    JS.includes (JS.toLowerCase (JS.trim header)) "payment" = false ->
    JS.includes (JS.toLowerCase (JS.trim header)) "salary" = false ->
    fst (Custom.generateDataForType h p (Custom.getDataTypeForHeader header) rowIndex source k) =
    JS.trim header +:+ " " +:+ JS.decimal (Z.of_nat (rowIndex + 1)).
Proof.
  intros h p header rowIndex source k Hgeneric Hpercent Hsign Hyear Hpayment Hsalary.
  destruct (generic_means_no_price header Hgeneric) as [Hprice Hcost].
  rewrite <- toLowerCase_trim in Hprice, Hcost.
  rewrite Hgeneric. unfold Custom.generateDataForType.
  rewrite generic_prefix.
  change (JS.substring 8 ("generic:" +:+ JS.trim header)) with (JS.trim header).
  unfold Custom.generateGeneric.
  rewrite Hpercent, Hsign, Hyear, Hprice, Hcost, Hpayment, Hsalary. reflexivity.
Qed.

Lemma generic_header_values_witness :
  fst (Custom.generateDataForType sampleHost (fst (Custom.shufflePools halfSource O))
         (Custom.getDataTypeForHeader "  Shoe Size ") 4 halfSource O) = "Shoe Size 5".
Proof.
  apply (generic_header_values sampleHost _ "  Shoe Size " 4%nat halfSource O);
    vm_compute; reflexivity.
Defined.

(** ** The schema-inferred handler on a table *)

(** The text read back from a visited cell for any data rows and any
    printing of values, when each cell has a slot of its own. *)
Lemma populateRows_read_back (toText : Value -> string) (rows : list (list Node))
    (dataRows : list (list Value)) (store : Store) (n i j : nat)
    (row : list Node) (rowData : list Value) (c : Node) (v : Value) :
  NoDup (List.map slotId (concat rows)) ->
  hasValueSlot c = true ->
  rows !! i = Some row -> dataRows !! i = Some rowData ->
  row !! j = Some c -> rowData !! j = Some v ->
  readBack (fst (populateRows toText rows dataRows (store, n))) c = Some (toText v).
Proof.
  intros Hnd Hslot Hr Hd Hc Hv.
  rewrite populateRows_trace. cbn [fst].
  unfold readBack, hasValueSlot in *.
  destruct (findValueLayer c) as [vl|] eqn:Hvl; [|discriminate].
  apply writes_read_back with (c := c); [| eapply visited_lookup; eassumption | exact Hvl].
  apply (sublist_NoDup _ (List.map slotId (concat rows))); [exact Hnd|].
  rewrite <- (List.map_map fst slotId).
  apply (fmap_sublist slotId), visited_cells_sublist.
Qed.

(** X23. After the schema-inferred handler has run on a selection whose
    cells each have a value slot of their own, the first row of the table
    reads the headers themselves and row i + 1 reads the i-th generated
    row, column by column, as far as the table and the data overlap. *)
Theorem custom_handler_reads_back_headers_then_rows :
  forall h headers rowCount selection store source n i j row cell texts text,
    let rows := organizeCellsIntoRows (getAllCells selection) in
    let data := fst (Custom.generateDataFromHeaders h headers rowCount source n) in
    let store' := fst (fst (Custom.populateTableWithCustomDummyData h headers rowCount
                              selection store source n)) in
    NoDup (List.map slotId (concat rows)) ->
    rows !! i = Some row -> row !! j = Some cell -> hasValueSlot cell = true ->
    (headers :: data) !! i = Some texts -> texts !! j = Some text ->
    readBack store' cell = Some text.
Proof.
  intros h headers rowCount selection store source n i j row cell texts text
    rows data store' Hnd Hrow Hcell Hslot Htexts Htext.
  subst store'. unfold Custom.populateTableWithCustomDummyData.
  destruct selection as [|root selection]; [subst rows; cbn in Hrow; discriminate|].
  destruct (getAllCells (root :: selection)) as [|c cs] eqn:Hcells;
    [subst rows; cbn in Hrow; discriminate|].
  rewrite bind_run. fold data.
  pose proof (populateRows_read_back String_ rows
                (List.map (List.map VStr) (headers :: data)) store O i j row
                (List.map VStr texts) cell (VStr text) Hnd Hslot Hrow) as Hread.
  rewrite !lookup_map, Htexts, Htext in Hread.
  specialize (Hread eq_refl Hcell eq_refl).
  subst rows.
  destruct (populateRows String_ _ _ _) as [s count]. exact Hread.
Qed.

Lemma custom_handler_reads_back_headers_then_rows_witness :
  let store' := fst (fst (Custom.populateTableWithCustomDummyData sampleHost
                            ["First Name"; "Team"] 1 [tableFrame] scenarioStore
                            halfSource O)) in
  readBack store' (cellAt "a1" 100 0 "r0") = Some "Team" /\
  readBack store' (cellAt "b0" 0 40 "r1") = Some "Mark".
Proof.
  cbv zeta.
  assert (NoDup (List.map slotId (concat (organizeCellsIntoRows (getAllCells [tableFrame])))))
    as Hnd by (refine (bool_decide_unpack _ _); vm_compute; exact I).
  split.
  - refine (custom_handler_reads_back_headers_then_rows sampleHost ["First Name"; "Team"] 1
              [tableFrame] scenarioStore halfSource O O 1%nat
              [cellAt "a0" 0 0 "r0"; cellAt "a1" 100 0 "r0"] _ ["First Name"; "Team"] "Team"
              Hnd _ _ _ _ _); reflexivity.
  - refine (custom_handler_reads_back_headers_then_rows sampleHost ["First Name"; "Team"] 1
              [tableFrame] scenarioStore halfSource O 1%nat O
              [cellAt "b0" 0 40 "r1"; cellAt "b1" 100 40 "r1"] _ ["Mark"; "Alpha"] "Mark"
              Hnd _ _ _ _ _); reflexivity.
Defined.

(** X24. [populateTable] never reports more updated cells than it found
    cells in the selection, nor more than the array made from the dataset
    has entries. *)
Theorem update_count_at_most_cells_found :
  forall data selection store updatedCount suffix,
    snd (populateTable data selection store) = Updated updatedCount suffix ->
    (updatedCount <= length (getAllCells selection))%nat /\
    (updatedCount <= total (convertObjectsTo2DArray data))%nat.
Proof.
  intros data selection store updatedCount suffix. unfold populateTable, populate.
  destruct selection as [|root selection]; [discriminate|].
  set (cells := getAllCells (root :: selection)).
  destruct cells as [|c cs] eqn:Hcells; [discriminate|]. rewrite <- Hcells.
  rewrite populateRows_trace. cbn [fst snd]. intros [= <- _].
  set (rows := organizeCellsIntoRows cells).
  set (dataRows := convertObjectsTo2DArray data).
  pose proof (filter_complement_length hasValueSlot (List.map fst (visited rows dataRows)))
    as Hsplit.
  rewrite List.length_map, visited_length in Hsplit.
  pose proof (overlapSize_le rows dataRows) as Hle.
  assert (total rows <= length cells)%nat as Hcellsle.
  { rewrite total_concat. subst rows.
    rewrite (Permutation_length (organize_perm cells)). apply List.filter_length_le. }
  lia.
Qed.

Lemma update_count_at_most_cells_found_witness :
  snd (populateTable scenarioData [scenarioRow] scenarioStore) = Updated 3 "cells with data" /\
  (3 <= length (getAllCells [scenarioRow]))%nat.
Proof.
  assert (snd (populateTable scenarioData [scenarioRow] scenarioStore) =
          Updated 3 "cells with data") as Hrun by (vm_compute; reflexivity).
  split; [exact Hrun|].
  exact (proj1 (update_count_at_most_cells_found _ _ _ _ _ Hrun)).
Defined.
